(** * FinBoard: the request governor of the Indian stock API client

    A shallow embedding of [IndianStockAPI] (the queueing, caching,
    de-duplicating client) and of the normalisation code of its public
    operations, with the properties of the specification stated over it. *)

From Stdlib Require Import ZArith String Ascii List Bool Lia DecimalString.
From stdpp Require Import base option list gmap strings.

Local Open Scope string_scope.
Local Open Scope list_scope.
Local Open Scope Z_scope.

(** ** Query strings and cache keys *)

Module Url.

(** A string stands for its UTF-8 bytes.  Bytes the
    application/x-www-form-urlencoded serialiser leaves as they are: ASCII
    letters and digits, and [*], [-], [.], [_]. *)
Definition unreserved (c : ascii) : bool :=
  let n := N_of_ascii c in
  ((48 <=? n) && (n <=? 57) || (65 <=? n) && (n <=? 90)
   || (97 <=? n) && (n <=? 122)
   || (n =? 42) || (n =? 45) || (n =? 46) || (n =? 95))%N.

Definition hex_digit (n : N) : ascii :=
  (if n <? 10 then ascii_of_N (48 + n) else ascii_of_N (55 + n))%N.

(** One byte of a name or a value: space becomes [+], every other byte
    outside [unreserved] becomes [%XX]. *)
Definition encode_byte (c : ascii) : string :=
  if Ascii.eqb c " "%char then "+"
  else if unreserved c then String c EmptyString
  else String "%" (String (hex_digit (N_of_ascii c / 16))
                     (String (hex_digit (N_of_ascii c mod 16)) EmptyString)).

Fixpoint encode (s : string) : string :=
  match s with
  | EmptyString => EmptyString
  | String c s' => encode_byte c +:+ encode s'
  end.

Definition pair_string (kv : string * string) : string :=
  encode (fst kv) +:+ "=" +:+ encode (snd kv).

(** [new URLSearchParams(params).toString()]: the entries of [params] in
    property order, joined by [&].  Nothing is sorted. *)
Fixpoint query_string (params : list (string * string)) : string :=
  match params with
  | [] => EmptyString
  | [kv] => pair_string kv
  | kv :: rest => pair_string kv +:+ "&" +:+ query_string rest
  end.

(** [`${endpoint}?${new URLSearchParams(params).toString()}`] *)
Definition cacheKey (endpoint : string) (params : list (string * string)) : string :=
  endpoint +:+ "?" +:+ query_string params.

(** The key as the specification words it, for comparison with
    [cacheKey]: "endpoint ++ canonical-sorted-query-string(params)", the
    parameters sorted by name before they are written out. *)
Fixpoint insert_by_name (kv : string * string) (l : list (string * string))
  : list (string * string) :=
  match l with
  | [] => [kv]
  | kv' :: rest =>
      if String.leb (fst kv) (fst kv') then kv :: l
      else kv' :: insert_by_name kv rest
  end.

Fixpoint sort_by_name (l : list (string * string)) : list (string * string) :=
  match l with
  | [] => []
  | kv :: rest => insert_by_name kv (sort_by_name rest)
  end.

Definition canonical_key (endpoint : string) (params : list (string * string))
  : string :=
  endpoint +:+ "?" +:+ query_string (sort_by_name params).

(** The parameters are supplied in the order of their names. *)
Fixpoint sorted_by_name (l : list (string * string)) : bool :=
  match l with
  | [] => true
  | kv :: rest =>
      match rest with
      | [] => true
      | kv' :: _ => String.leb (fst kv) (fst kv') && sorted_by_name rest
      end
  end.

End Url.

(** ** Strings, promises and errors *)

(** A number written out in decimal, as a template literal and a computed
    property name do. *)
Definition show_Z (z : Z) : string := NilZero.string_of_int (Z.to_int z).
Definition show_nat (n : nat) : string := NilZero.string_of_uint (Nat.to_uint n).

Record JsError := Error { message : string }.

Inductive Outcome (A : Type) :=
| Resolved (a : A)
| Rejected (e : JsError).
Arguments Resolved {A} a.
Arguments Rejected {A} e.

(** [String.prototype.includes] *)
Fixpoint includes (needle hay : string) : bool :=
  String.prefix needle hay
  || match hay with
     | EmptyString => false
     | String _ hay' => includes needle hay'
     end.

(** ** The governor *)

Module Governor.

Section WithPayload.

(** The parsed response body; the governor stores and hands it on without
    looking inside. *)
Context {Data : Type}.

Definition CACHE_DURATION : Z := 300000.
Definition MIN_REQUEST_INTERVAL : Z := 2000.

(** The closure [queueRequest] pushes for [fetchWithCache]: the captured
    [cacheKey], [endpoint] and [params], and the promise whose [resolve]
    and [reject] it holds. *)
Record QItem := mkItem {
  q_key : string;
  q_endpoint : string;
  q_params : list (string * string);
  q_promise : nat }.

(** The fields of the class. *)
Record Fields := mkFields {
  cache : gmap string (Data * Z);
  requestQueue : list QItem;
  isProcessingQueue : bool;
  lastRequestTime : Z;
  pendingRequests : gmap string nat;
  rateLimitedUntil : Z;
  retryDelay : Z }.

(** Where [processQueue] is suspended: not running, in the rate-limit
    wait or the spacing wait (with the time the timer is due), or in
    [await request()], the closure waiting for [fetch] or already returned
    with a cached payload. *)
Inductive Phase :=
| Idle
| WaitRateLimit (wake : Z)
| WaitSpacing (wake : Z)
| AwaitFetch (it : QItem)
| AwaitThunk (it : QItem) (d : Data).

(** What an observer of the governor sees, in order of occurrence: a
    closure pushed, taken off the queue, calling [fetch], ended. *)
Inductive Obs :=
| ObsEnqueue (it : QItem)
| ObsDispatch (it : QItem) (t : Z)
| ObsNetCall (it : QItem) (t : Z)
| ObsComplete (it : QItem) (t : Z).

(** The governor and what the run time keeps for it: the continuation of
    [processQueue], the promises [queueRequest] has created (numbered in
    order) and how they were settled.  The log is written, never read. *)
Record World := mkWorld {
  gov : Fields;
  phase : Phase;
  nextPromise : nat;
  settled : gmap nat (Outcome Data);
  log : list Obs }.

(** How the transport answers a call of [fetch], status and body taken
    together: [fetch] rejects; the status is not ok and the text of the
    body is read, or reading it fails; the status is ok and the body does
    not parse, or parses. *)
Inductive Response :=
| FetchThrows (e : JsError)
| HttpNotOk (status : Z) (errorText : string)
| HttpNotOkNoText (status : Z) (e : JsError)
| HttpOkBadJson (e : JsError)
| HttpOk (data : Data).

(** What happens to a governor: [fetchWithCache] is called, the timer
    [processQueue] waits for fires, the call of [fetch] in flight settles,
    [clearCache] is called. *)
Inductive Event :=
| EvCall (endpoint : string) (params : list (string * string))
| EvTimer
| EvResponse (r : Response)
| EvClearCache.

(** What [fetchWithCache] returns: the cached payload, or a promise to
    follow. *)
Inductive FetchResult :=
| Hit (d : Data)
| Await (p : nat).

(** Field updates. *)
Definition with_cache (c : gmap string (Data * Z)) (g : Fields) : Fields :=
  mkFields c (requestQueue g) (isProcessingQueue g) (lastRequestTime g)
           (pendingRequests g) (rateLimitedUntil g) (retryDelay g).
Definition with_queue (q : list QItem) (g : Fields) : Fields :=
  mkFields (cache g) q (isProcessingQueue g) (lastRequestTime g)
           (pendingRequests g) (rateLimitedUntil g) (retryDelay g).
Definition with_processing (b : bool) (g : Fields) : Fields :=
  mkFields (cache g) (requestQueue g) b (lastRequestTime g)
           (pendingRequests g) (rateLimitedUntil g) (retryDelay g).
Definition with_lastRequestTime (t : Z) (g : Fields) : Fields :=
  mkFields (cache g) (requestQueue g) (isProcessingQueue g) t
           (pendingRequests g) (rateLimitedUntil g) (retryDelay g).
Definition with_pending (p : gmap string nat) (g : Fields) : Fields :=
  mkFields (cache g) (requestQueue g) (isProcessingQueue g) (lastRequestTime g)
           p (rateLimitedUntil g) (retryDelay g).
Definition with_rateLimitedUntil (t : Z) (g : Fields) : Fields :=
  mkFields (cache g) (requestQueue g) (isProcessingQueue g) (lastRequestTime g)
           (pendingRequests g) t (retryDelay g).
Definition with_retryDelay (d : Z) (g : Fields) : Fields :=
  mkFields (cache g) (requestQueue g) (isProcessingQueue g) (lastRequestTime g)
           (pendingRequests g) (rateLimitedUntil g) d.

Definition on_gov (f : Fields -> Fields) (w : World) : World :=
  mkWorld (f (gov w)) (phase w) (nextPromise w) (settled w) (log w).
Definition with_phase (p : Phase) (w : World) : World :=
  mkWorld (gov w) p (nextPromise w) (settled w) (log w).
Definition observe (o : Obs) (w : World) : World :=
  mkWorld (gov w) (phase w) (nextPromise w) (settled w) (log w ++ [o]).
Definition settle (p : nat) (o : Outcome Data) (w : World) : World :=
  mkWorld (gov w) (phase w) (nextPromise w) (<[p := o]> (settled w)) (log w).

(** The state the constructor leaves. *)
Definition init_fields : Fields :=
  mkFields ∅ [] false 0 ∅ 0 5000.
Definition init : World := mkWorld init_fields Idle 0%nat ∅ [].

(** [cached && Date.now() - cached.timestamp < this.CACHE_DURATION] *)
Definition cache_lookup (now : Z) (key : string) (g : Fields) : option Data :=
  match cache g !! key with
  | Some (d, ts) => if now - ts <? CACHE_DURATION then Some d else None
  | None => None
  end.

(** *** The dispatcher, [processQueue]

    [now] is what [Date.now()] returns; it is taken constant over one
    synchronous run of the code and moves on between runs. *)

(** The [while] test fails: [this.isProcessingQueue = false]. *)
Definition leave_loop (w : World) : World :=
  with_phase Idle (on_gov (with_processing false) w).

(** The closure of [fetchWithCache] from its start to its first
    suspension: the second look at the cache, then the call of [fetch]. *)
Definition start_thunk (now : Z) (it : QItem) (w : World) : World :=
  match cache_lookup now (q_key it) (gov w) with
  | Some d => with_phase (AwaitThunk it d) w
  | None => with_phase (AwaitFetch it) (observe (ObsNetCall it now) w)
  end.

(** [const request = this.requestQueue.shift(); if (request) { await
    request() ... }]; on an empty queue [request] is [undefined], the body
    is skipped and the [while] test ends the loop. *)
Definition dispatch (now : Z) (w : World) : World :=
  match requestQueue (gov w) with
  | [] => leave_loop w
  | it :: rest =>
      start_thunk now it
        (observe (ObsDispatch it now) (on_gov (with_queue rest) w))
  end.

(** From [const now = Date.now()] to the spacing wait or the dispatch. *)
Definition after_rate_wait (now : Z) (w : World) : World :=
  let timeSinceLastRequest := now - lastRequestTime (gov w) in
  if timeSinceLastRequest <? MIN_REQUEST_INTERVAL
  then with_phase
         (WaitSpacing (now + (MIN_REQUEST_INTERVAL - timeSinceLastRequest))) w
  else dispatch now w.

(** The [while] test and the rate-limit wait. *)
Definition loop_head (now : Z) (w : World) : World :=
  match requestQueue (gov w) with
  | [] => leave_loop w
  | _ :: _ =>
      if now <? rateLimitedUntil (gov w)
      then let waitTime := rateLimitedUntil (gov w) - now in
           with_phase (WaitRateLimit (now + waitTime)) w
      else after_rate_wait now w
  end.

(** The call [this.processQueue()]. *)
Definition processQueue (now : Z) (w : World) : World :=
  if isProcessingQueue (gov w)
     || match requestQueue (gov w) with [] => true | _ :: _ => false end
  then w
  else loop_head now (on_gov (with_processing true) w).

(** The closure of [fetchWithCache] once [fetch] has settled: what it does
    to the fields, and what it returns or throws. *)
Definition thunk_after_fetch (now : Z) (it : QItem) (r : Response) (g : Fields)
  : Fields * Outcome Data :=
  match r with
  | FetchThrows e => (g, Rejected e)
  | HttpNotOk status errorText =>
      (with_pending (delete (q_key it) (pendingRequests g)) g,
       Rejected (Error ("API request failed: " +:+ show_Z status
                        +:+ " - " +:+ errorText)))
  | HttpNotOkNoText _ e => (g, Rejected e)
  | HttpOkBadJson e => (g, Rejected e)
  | HttpOk data =>
      let g1 := with_cache (<[q_key it := (data, now)]> (cache g)) g in
      (with_pending (delete (q_key it) (pendingRequests g1)) g1, Resolved data)
  end.

(** The closure [queueRequest] pushes: [try { resolve(await request()) }
    catch (error) { reject(error) }].  It hands the outcome to the promise
    and itself returns normally in both branches. *)
Definition wrapper (it : QItem) (o : Outcome Data) (w : World)
  : World * Outcome unit :=
  match o with
  | Resolved result => (settle (q_promise it) (Resolved result) w, Resolved tt)
  | Rejected error => (settle (q_promise it) (Rejected error) w, Resolved tt)
  end.

(** [try { await request(); this.retryDelay = 5000 } catch (error) { if
    (error.message?.includes('429')) { ... } } this.lastRequestTime =
    Date.now()], given how [await request()] ended. *)
Definition after_request (now : Z) (o : Outcome unit) (g : Fields) : Fields :=
  let g' :=
    match o with
    | Resolved _ => with_retryDelay 5000 g
    | Rejected error =>
        if includes "429" (message error)
        then with_retryDelay (Z.min (retryDelay g * 2) 60000)
               (with_rateLimitedUntil (now + retryDelay g) g)
        else g
    end in
  with_lastRequestTime now g'.

(** The dispatched closure ends with outcome [o]; [processQueue] goes on to
    the next round of its loop. *)
Definition complete (now : Z) (it : QItem) (o : Outcome Data) (w : World) : World :=
  let (w1, r) := wrapper it o w in
  loop_head now (observe (ObsComplete it now) (on_gov (after_request now r) w1)).

(** A timer set by [processQueue] fires. *)
Definition on_timer (now : Z) (w : World) : World :=
  match phase w with
  | WaitRateLimit _ => after_rate_wait now w
  | WaitSpacing _ => dispatch now w
  | _ => w
  end.

(** The call of [fetch] in flight settles. *)
Definition on_response (now : Z) (r : Response) (w : World) : World :=
  match phase w with
  | AwaitFetch it =>
      let (g, o) := thunk_after_fetch now it r (gov w) in
      complete now it o (on_gov (fun _ => g) w)
  | _ => w
  end.

(** The closure returned without suspending (it found the cache filled);
    its continuation runs as soon as the current run is over. *)
Definition resume_thunk (now : Z) (w : World) : World :=
  match phase w with
  | AwaitThunk it d => complete now it (Resolved d) w
  | _ => w
  end.

(** *** [fetchWithCache] and [clearCache] *)

(** [queueRequest]: a new promise, the closure pushed, [processQueue()]. *)
Definition queueRequest (now : Z) (key endpoint : string)
  (params : list (string * string)) (w : World) : World * nat :=
  let p := nextPromise w in
  let it := mkItem key endpoint params p in
  let w1 := mkWorld (with_queue (requestQueue (gov w) ++ [it]) (gov w))
                    (phase w) (S p) (settled w) (log w ++ [ObsEnqueue it]) in
  (processQueue now w1, p).

Definition fetchWithCache (now : Z) (endpoint : string)
  (params : list (string * string)) (w : World) : World * FetchResult :=
  let cacheKey := Url.cacheKey endpoint params in
  match cache_lookup now cacheKey (gov w) with
  | Some d => (w, Hit d)
  | None =>
      match pendingRequests (gov w) !! cacheKey with
      | Some pending => (w, Await pending)
      | None =>
          let (w1, requestPromise) := queueRequest now cacheKey endpoint params w in
          let w2 := on_gov (fun g => with_pending
                      (<[cacheKey := requestPromise]> (pendingRequests g)) g) w1 in
          (resume_thunk now w2, Await requestPromise)
      end
  end.

(** What [await] gives for the result of [fetchWithCache], once the
    promise is settled. *)
Definition awaited (w : World) (r : FetchResult) : option (Outcome Data) :=
  match r with
  | Hit d => Some (Resolved d)
  | Await p => settled w !! p
  end.

(** [clearCache]: the queue, [isProcessingQueue] and [lastRequestTime]
    are not touched. *)
Definition clearCache (w : World) : World :=
  on_gov (fun g => with_retryDelay 5000
                     (with_rateLimitedUntil 0
                        (with_pending ∅ (with_cache ∅ g)))) w.

(** *** Runs *)

(** One event, and the continuations that run right after it. *)
Definition step (now : Z) (ev : Event) (w : World) : World :=
  match ev with
  | EvCall endpoint params => fst (fetchWithCache now endpoint params w)
  | EvTimer => resume_thunk now (on_timer now w)
  | EvResponse r => resume_thunk now (on_response now r w)
  | EvClearCache => clearCache w
  end.

Fixpoint run (tr : list (Z * Event)) (w : World) : World :=
  match tr with
  | [] => w
  | (now, ev) :: tr' => run tr' (step now ev w)
  end.

(** A timer does not fire before the delay it was set with is over. *)
Definition timer_ok (now : Z) (ev : Event) (w : World) : bool :=
  match ev, phase w with
  | EvTimer, WaitRateLimit wake => wake <=? now
  | EvTimer, WaitSpacing wake => wake <=? now
  | _, _ => true
  end.

(** The clock does not go back and timers are not early. *)
Fixpoint well_timed (t0 : Z) (tr : list (Z * Event)) (w : World) : bool :=
  match tr with
  | [] => true
  | (now, ev) :: tr' =>
      (t0 <=? now) && timer_ok now ev w && well_timed now tr' (step now ev w)
  end.

(** The time of the last event of a run. *)
Fixpoint end_time (t0 : Z) (tr : list (Z * Event)) : Z :=
  match tr with
  | [] => t0
  | (now, _) :: tr' => end_time now tr'
  end.

(** *** Reading the log *)

Definition enqueued (l : list Obs) : list QItem :=
  omap (fun o => match o with ObsEnqueue it => Some it | _ => None end) l.
Definition dispatched (l : list Obs) : list QItem :=
  omap (fun o => match o with ObsDispatch it _ => Some it | _ => None end) l.
Definition completed (l : list Obs) : list QItem :=
  omap (fun o => match o with ObsComplete it _ => Some it | _ => None end) l.
Definition dispatch_times (l : list Obs) : list Z :=
  omap (fun o => match o with ObsDispatch _ t => Some t | _ => None end) l.
Definition net_calls (l : list Obs) : list QItem :=
  omap (fun o => match o with ObsNetCall it _ => Some it | _ => None end) l.

(** The closure that was taken off the queue and has not ended. *)
Definition in_flight (p : Phase) : list QItem :=
  match p with
  | AwaitFetch it => [it]
  | AwaitThunk it _ => [it]
  | _ => []
  end.


(** *** Invariants of the runs *)

Implicit Types (w : World) (g : Fields).

(** Successive times are at least the minimum interval apart. *)
Fixpoint spaced (l : list Z) : Prop :=
  match l with
  | a :: (b :: _) as tl => a + MIN_REQUEST_INTERVAL <= b /\ spaced tl
  | _ => True
  end.

(** What the loop of [processQueue] can do between two suspensions: leave,
    wait, or take the head of the queue; [ok] is what is known when it
    takes the head. *)
Inductive drives (ok : Prop) (now : Z) w : World -> Prop :=
| drives_leave : drives ok now w (leave_loop w)
| drives_rate wake : drives ok now w (with_phase (WaitRateLimit wake) w)
| drives_space wake :
    lastRequestTime (gov w) + MIN_REQUEST_INTERVAL <= wake ->
    drives ok now w (with_phase (WaitSpacing wake) w)
| drives_dispatch it rest :
    ok -> requestQueue (gov w) = it :: rest ->
    drives ok now w
      (start_thunk now it
         (observe (ObsDispatch it now) (on_gov (with_queue rest) w))).

(** The part of a world the scheduling properties speak about. *)
Record sched_core (t : Z) w : Prop := {
  si_fifo : enqueued (log w) = dispatched (log w) ++ requestQueue (gov w);
  si_one : dispatched (log w) = completed (log w) ++ in_flight (phase w);
  si_spaced : spaced (dispatch_times (log w));
  si_last : forall d, last (dispatch_times (log w)) = Some d ->
            d <= match in_flight (phase w) with
                 | [] => lastRequestTime (gov w)
                 | _ => t
                 end;
  si_wake : forall wake, phase w = WaitSpacing wake ->
            lastRequestTime (gov w) + MIN_REQUEST_INTERVAL <= wake;
  si_net : net_calls (log w) `sublist_of` dispatched (log w) }.

(** The scheduling properties read five components of a world only. *)
Definition sched_view w :=
  (log w, requestQueue (gov w), phase w, lastRequestTime (gov w),
   isProcessingQueue (gov w)).

(** What the dispatcher never touches. *)
Record keeps w w' : Prop := {
  k_cache : cache (gov w') = cache (gov w);
  k_pending : pendingRequests (gov w') = pendingRequests (gov w);
  k_next : nextPromise w' = nextPromise w;
  k_rate : rateLimitedUntil (gov w') = rateLimitedUntil (gov w);
  k_retry : retryDelay (gov w') = retryDelay (gov w) \/ retryDelay (gov w') = 5000;
  k_enq : enqueued (log w') = enqueued (log w) }.

(** The invariant of the dispatcher between two events. *)
Record sched_inv (t : Z) w : Prop := {
  sv_core : sched_core t w;
  sv_flag : isProcessingQueue (gov w) = false <-> phase w = Idle;
  sv_thunk : forall it d, phase w <> AwaitThunk it d }.

(** A key of the registry has no valid cache entry, now or later, and its
    promise is the one of a closure that was queued for this key. *)
Record registry_inv (t : Z) w : Prop := {
  ri_stale : forall k p now,
    pendingRequests (gov w) !! k = Some p -> t <= now ->
    cache_lookup now k (gov w) = None;
  ri_real : forall k p,
    pendingRequests (gov w) !! k = Some p ->
    exists it, it ∈ enqueued (log w) /\ q_key it = k /\ q_promise it = p }.


(** The closures that were queued and have not ended. *)
Definition alive w : list QItem :=
  in_flight (phase w) ++ requestQueue (gov w).

(** The closure whose promise the registry holds for its key. *)
Definition registered w (it : QItem) : Prop :=
  pendingRequests (gov w) !! q_key it = Some (q_promise it).

(** No two closures alive share a promise, and their promises were
    allocated. *)
Record closure_inv w : Prop := {
  ci_nodup : NoDup (q_promise <$> alive w);
  ci_bound : forall it, it ∈ alive w -> (q_promise it < nextPromise w)%nat }.

(** [clearCache] is not called during the run. *)
Definition never_cleared (tr : list (Z * Event)) : bool :=
  forallb (fun e => match snd e with EvClearCache => false | _ => true end) tr.

End WithPayload.

End Governor.

(** ** JavaScript values, as far as the normalisation code looks at them *)

Module Js.

(** JavaScript numbers are kept abstract: the normalisation code only
    converts to them and tests them. *)
Class Numbers := {
  num : Type;
  zero : num;
  one : num;
  NaN : num;
  of_nat : nat -> num;
  (** [ToBoolean] of a number *)
  num_truthy : num -> bool;
  (** [n > 0] and [n >= 2] *)
  positive : num -> bool;
  at_least_two : num -> bool;
  (** [Number(s)], [String(n)], [parseFloat(s)] and [parseInt(s)] *)
  string_to_number : string -> num;
  number_to_string : num -> string;
  parse_float : string -> num;
  parse_int : string -> num;
  truthy_zero : num_truthy zero = false;
  truthy_NaN : num_truthy NaN = false;
  truthy_of_nat : forall n, num_truthy (of_nat n) = negb (n =? 0)%nat;
  positive_of_nat : forall n, positive (of_nat n) = negb (n =? 0)%nat;
  at_least_two_of_nat : forall n, at_least_two (of_nat n) = (2 <=? n)%nat }.

Section WithNumbers.
Context {N : Numbers}.

(** A parsed JSON value, or [undefined].  An object lists its own
    properties, each name once; strings are indexed and measured by byte,
    as JavaScript does for ASCII text. *)
#[local] Unset Elimination Schemes.
Inductive Val :=
| VUndef
| VNull
| VBool (b : bool)
| VNum (n : num)
| VStr (s : string)
| VArr (l : list Val)
| VObj (fields : list (string * Val)).
#[local] Set Elimination Schemes.

Definition TypeError (msg : string) : JsError := Error msg.

(** [ToBoolean] *)
Definition truthy (v : Val) : bool :=
  match v with
  | VUndef | VNull => false
  | VBool b => b
  | VNum n => num_truthy n
  | VStr s => negb (String.eqb s EmptyString)
  | VArr _ | VObj _ => true
  end.

(** [a || b], both operands already evaluated *)
Definition or_else (a b : Val) : Val := if truthy a then a else b.

(** [ToString]; an array joins its elements with commas, [null] and
    [undefined] elements giving the empty string. *)
Fixpoint to_string (v : Val) : string :=
  match v with
  | VUndef => "undefined"
  | VNull => "null"
  | VBool true => "true"
  | VBool false => "false"
  | VNum n => number_to_string n
  | VStr s => s
  | VArr l =>
      (fix join (l : list Val) : string :=
         match l with
         | [] => EmptyString
         | x :: rest =>
             let sx := match x with
                       | VUndef | VNull => EmptyString
                       | _ => to_string x
                       end in
             match rest with
             | [] => sx
             | _ :: _ => sx +:+ "," +:+ join rest
             end
         end) l
  | VObj _ => "[object Object]"
  end.

(** [Number(v)] *)
Definition to_number (v : Val) : num :=
  match v with
  | VUndef => NaN
  | VNull => zero
  | VBool true => one
  | VBool false => zero
  | VNum n => n
  | VStr s => string_to_number s
  | VArr _ | VObj _ => string_to_number (to_string v)
  end.

Definition own (fields : list (string * Val)) (name : string) : Val :=
  match List.find (fun kv => String.eqb (fst kv) name) fields with
  | Some kv => snd kv
  | None => VUndef
  end.

(** [v.name], for the property names of the provider's JSON (none of them
    is a property of a prototype): an object answers with its own
    property, [null] and [undefined] throw, anything else has none. *)
Definition get (v : Val) (name : string) : Outcome Val :=
  match v with
  | VUndef | VNull =>
      Rejected (TypeError ("Cannot read properties of " +:+ to_string v))
  | VObj fields => Resolved (own fields name)
  | _ => Resolved VUndef
  end.

(** [v?.name] *)
Definition opt_get (v : Val) (name : string) : Outcome Val :=
  match v with
  | VUndef | VNull => Resolved VUndef
  | _ => get v name
  end.

(** [v.length] *)
Definition length_of (v : Val) : Outcome Val :=
  match v with
  | VUndef | VNull =>
      Rejected (TypeError ("Cannot read properties of " +:+ to_string v))
  | VArr l => Resolved (VNum (of_nat (List.length l)))
  | VStr s => Resolved (VNum (of_nat (String.length s)))
  | VObj fields => Resolved (own fields "length")
  | _ => Resolved VUndef
  end.

(** [v?.length] *)
Definition opt_length (v : Val) : Outcome Val :=
  match v with
  | VUndef | VNull => Resolved VUndef
  | _ => length_of v
  end.

(** [v[i]] *)
Definition index (v : Val) (i : nat) : Outcome Val :=
  match v with
  | VUndef | VNull =>
      Rejected (TypeError ("Cannot read properties of " +:+ to_string v))
  | VArr l => Resolved (nth i l VUndef)
  | VStr s =>
      Resolved (match String.get i s with
                | Some c => VStr (String c EmptyString)
                | None => VUndef
                end)
  | VObj fields => Resolved (own fields (show_nat i))
  | _ => Resolved VUndef
  end.

(** [Array.isArray(v)] *)
Definition is_array (v : Val) : bool :=
  match v with VArr _ => true | _ => false end.

End WithNumbers.

End Js.

#[global] Instance outcome_bind : MBind Outcome :=
  fun A B f m => match m with
                 | Resolved a => f a
                 | Rejected e => Rejected e
                 end.

(** [try { ... } catch { return [] }] around the body of an async function *)
Definition catch_all {A : Type} (body : Outcome (list A)) : Outcome (list A) :=
  match body with
  | Resolved l => Resolved l
  | Rejected _ => Resolved []
  end.

(** A callback run on every element in order, as [forEach] with one [push]
    per element and as [map] do; the first throw ends it. *)
Fixpoint each {A B : Type} (f : A -> Outcome B) (l : list A) : Outcome (list B) :=
  match l with
  | [] => Resolved []
  | x :: rest => y ← f x; ys ← each f rest; Resolved (y :: ys)
  end.

(** ** The public operations of the governor's client *)

Module Client.
Import Js.

Section WithNumbers.
Context {N : Numbers}.

Record StockData := mkStock {
  sd_symbol : Val; sd_name : Val; sd_price : num; sd_change : num;
  sd_changePercent : num; sd_volume : num; sd_marketCap : num;
  sd_high : num; sd_low : num; sd_open : num; sd_close : num }.

Record CardData := mkCard {
  cd_symbol : Val; cd_name : Val; cd_value : num; cd_change : num;
  cd_changePercent : num; cd_volume : num; cd_type : string }.

Record ChartData := mkChart {
  ch_date : Val; ch_open : num; ch_high : num; ch_low : num;
  ch_close : num; ch_volume : num }.

(** What each operation asks [fetchWithCache] for: the endpoint and the
    parameters in the order of the object literal. *)
Definition stock_request (name : string) : string * list (string * string) :=
  ("/stock", [("name", name)]).
Definition trending_request : string * list (string * string) :=
  ("/trending", []).
Definition most_active_request (exchange : string)
  : string * list (string * string) :=
  (if String.eqb exchange "NSE" then "/NSE_most_active" else "/BSE_most_active",
   []).
Definition historical_request (symbol period : string)
  : string * list (string * string) :=
  ("/historical_data",
   [("stock_name", symbol); ("period", period); ("filter", "price")]).

(** [Number(x || 0)] *)
Definition number_or_zero (x : Val) : num := to_number (or_else x (VNum zero)).

(** The body of [getStockData] after the [await], inside its [try]. *)
Definition stock_body (name : string) (data : Val) : Outcome (list StockData) :=
  currentPrice ← opt_get data "currentPrice";
  if negb (truthy currentPrice) then Resolved []
  else
    nse ← get currentPrice "NSE";
    p ← (if truthy nse then Resolved nse
         else bse ← get currentPrice "BSE"; Resolved (or_else bse (VNum zero)));
    let price := to_number p in
    details ← get data "stockDetailsReusableData";
    tickerId ← opt_get details "tickerId";
    companyName ← get data "companyName";
    change ← opt_get details "change";
    percentChange ← get data "percentChange";
    volume ← opt_get details "volume";
    yearHigh ← get data "yearHigh";
    yearLow ← get data "yearLow";
    Resolved
      [mkStock (or_else tickerId (VStr name)) (or_else companyName (VStr name))
         price (number_or_zero change) (number_or_zero percentChange)
         (number_or_zero volume) zero (number_or_zero yearHigh)
         (number_or_zero yearLow) price price].

Definition getStockData (name : string) (fetched : Outcome Val)
  : Outcome (list StockData) :=
  catch_all (data ← fetched; stock_body name data).

(** The callback of [getTrendingStocks] and [getMostActiveStocks]: one card
    from one element; [symbol_key] and [name_key] are the two property
    names that differ between them. *)
Definition card (symbol_key name_key type : string) (s : Val) : Outcome CardData :=
  symbol ← get s symbol_key;
  name ← get s name_key;
  price ← get s "price";
  net_change ← get s "net_change";
  percent_change ← get s "percent_change";
  volume ← get s "volume";
  Resolved
    (mkCard (or_else symbol (VStr EmptyString)) (or_else name (VStr EmptyString))
       (number_or_zero price) (number_or_zero net_change)
       (number_or_zero percent_change) (number_or_zero volume) type).

(** [x?.forEach(f)]: nothing for [null] and [undefined], the elements in
    order for an array; anything else has no [forEach] to call. *)
Definition opt_forEach {A : Type} (x : Val) (f : Val -> Outcome A)
  : Outcome (list A) :=
  match x with
  | VUndef | VNull => Resolved []
  | VArr l => each f l
  | _ => Rejected (TypeError "forEach is not a function")
  end.

Definition trending_body (data : Val) : Outcome (list CardData) :=
  trending ← opt_get data "trending_stocks";
  top_gainers ← opt_get trending "top_gainers";
  gainers ← opt_forEach top_gainers (card "ticker_id" "company_name" "gainer");
  trending' ← opt_get data "trending_stocks";
  top_losers ← opt_get trending' "top_losers";
  losers ← opt_forEach top_losers (card "ticker_id" "company_name" "loser");
  Resolved (gainers ++ losers).

Definition getTrendingStocks (fetched : Outcome Val) : Outcome (list CardData) :=
  catch_all (data ← fetched; trending_body data).

(** [data.map(f)] *)
Definition map_method {A : Type} (x : Val) (f : Val -> Outcome A)
  : Outcome (list A) :=
  match x with
  | VUndef | VNull =>
      Rejected (TypeError ("Cannot read properties of " +:+ to_string x))
  | VArr l => each f l
  | _ => Rejected (TypeError "map is not a function")
  end.

Definition most_active_body (data : Val) : Outcome (list CardData) :=
  map_method data (card "ticker" "company" "active").

Definition getMostActiveStocks (fetched : Outcome Val) : Outcome (list CardData) :=
  catch_all (data ← fetched; most_active_body data).

(** [datasets.find((d) => d.metric === 'Price')] on the elements of an
    array. *)
Fixpoint find_price (l : list Val) : Outcome Val :=
  match l with
  | [] => Resolved VUndef
  | d :: rest =>
      metric ← get d "metric";
      match metric with
      | VStr m => if String.eqb m "Price" then Resolved d else find_price rest
      | _ => find_price rest
      end
  end.

(** [x.find(...)] for a value [x] that is neither [null] nor [undefined] *)
Definition find_method (x : Val) : Outcome Val :=
  match x with
  | VArr l => find_price l
  | _ => Rejected (TypeError "find is not a function")
  end.

(** One bar from one entry of the series, as [getHistoricalData] of the
    governor's client builds it. *)
Definition bar (v : Val) : Outcome ChartData :=
  date ← index v 0;
  price ← index v 1;
  Resolved (mkChart date (to_number price) (to_number price)
              (to_number price) (to_number price) zero).

(** [priceSet?.values?.map(f) ?? []] *)
Definition opt_values_map {A : Type} (priceSet : Val) (f : Val -> Outcome A)
  : Outcome (list A) :=
  values ← opt_get priceSet "values";
  match values with
  | VUndef | VNull => Resolved []
  | VArr l => each f l
  | _ => Rejected (TypeError "map is not a function")
  end.

Definition historical_body (data : Val) : Outcome (list ChartData) :=
  datasets ← opt_get data "datasets";
  len ← opt_length datasets;
  if negb (truthy len) then Resolved []
  else
    priceSet ← find_method datasets;
    bars ← opt_values_map priceSet bar;
    Resolved (rev bars).

Definition getHistoricalData (fetched : Outcome Val) : Outcome (list ChartData) :=
  catch_all (data ← fetched; historical_body data).

End WithNumbers.

End Client.

(** ** [getHistoricalData] of [src/lib/indian-api.ts] *)

Module Legacy.
Import Js Client.

Section WithNumbers.
Context {N : Numbers}.

(** [parseFloat(v)] *)
Definition parseFloat (v : Val) : num := parse_float (to_string v).

(** [parseInt(v)] *)
Definition parseInt (v : Val) : num := parse_int (to_string v).

(** [parseFloat(v) || 0] *)
Definition float_or_zero (v : Val) : num :=
  let n := parseFloat v in if num_truthy n then n else zero.

(** The object pushed for an entry with date [date] and price [price] *)
Definition entry_bar (date price : Val) : ChartData :=
  mkChart date (float_or_zero price) (float_or_zero price)
    (float_or_zero price) (float_or_zero price) zero.

(** The callback on the entries of the price series: an entry shorter than
    two is skipped. *)
Definition price_entry (value : Val) : Outcome (list ChartData) :=
  len ← length_of value;
  if at_least_two (to_number len)
  then
    date ← index value 0;
    price ← index value 1;
    Resolved [entry_bar date price]
  else Resolved [].

(** The callback on the items of the other response format. *)
Definition data_item (item : Val) : Outcome ChartData :=
  date ← get item "date";
  date' ← (if truthy date then Resolved date else get item "timestamp");
  open ← get item "open";
  price ← get item "price";
  high ← get item "high";
  low ← get item "low";
  close ← get item "close";
  volume ← get item "volume";
  let or_price (x : Val) := or_else (or_else x price) (VStr "0") in
  Resolved (mkChart date' (parseFloat (or_price open)) (parseFloat (or_price high))
              (parseFloat (or_price low)) (parseFloat (or_price close))
              (parseInt (or_else volume (VStr "0")))).

(** [x.forEach(f)] for a value [x] that is neither [null] nor [undefined] *)
Definition forEach_method {A : Type} (x : Val) (f : Val -> Outcome A)
  : Outcome (list A) :=
  match x with
  | VArr l => each f l
  | _ => Rejected (TypeError "forEach is not a function")
  end.

Definition historical_body (data : Val) : Outcome (list ChartData) :=
  datasets ← get data "datasets";
  nonempty ← (if truthy datasets
              then len ← length_of datasets; Resolved (positive (to_number len))
              else Resolved false);
  chartData ←
    (if nonempty : bool
     then
       priceDataset ← find_method datasets;
       if truthy priceDataset
       then
         values ← get priceDataset "values";
         if truthy values
         then groups ← forEach_method values price_entry; Resolved (concat groups)
         else Resolved []
       else Resolved []
     else
       data' ← get data "data";
       if truthy data' && is_array data'
       then forEach_method data' data_item
       else Resolved []);
  Resolved (rev chartData).

Definition getHistoricalData (fetched : Outcome Val) : Outcome (list ChartData) :=
  catch_all (data ← fetched; historical_body data).

End WithNumbers.

End Legacy.

(** ** Inputs of the examples *)

Module Examples.
Import Governor Js Client.

(** A number system for the examples: the integers and [NaN] ([None]);
    a string is read as a number when it is empty or a decimal integer. *)
Definition digit (c : ascii) : option Z :=
  let n := Z.of_N (N_of_ascii c) in
  if (48 <=? n) && (n <=? 57) then Some (n - 48) else None.

Fixpoint digits (s : string) (acc : Z) : option Z :=
  match s with
  | EmptyString => Some acc
  | String c rest =>
      match digit c with
      | Some d => digits rest (10 * acc + d)
      | None => None
      end
  end.

Definition integer (s : string) : option Z :=
  match s with
  | EmptyString => None
  | String c rest =>
      if Ascii.eqb c "-"
      then match rest with
           | EmptyString => None
           | String _ _ => Z.opp <$> digits rest 0
           end
      else digits s 0
  end.

Definition Integers : Numbers.
Proof.
  refine {|
    num := option Z;
    zero := Some 0;
    one := Some 1;
    NaN := None;
    of_nat := fun n => Some (Z.of_nat n);
    num_truthy := fun n => match n with Some z => negb (z =? 0) | None => false end;
    positive := fun n => match n with Some z => 0 <? z | None => false end;
    at_least_two := fun n => match n with Some z => 2 <=? z | None => false end;
    string_to_number := fun s => if String.eqb s EmptyString then Some 0 else integer s;
    number_to_string := fun n => match n with Some z => show_Z z | None => "NaN" end;
    parse_float := integer;
    parse_int := integer;
    truthy_zero := eq_refl;
    truthy_NaN := eq_refl |}.
  - abstract (intros n; by destruct n).
  - abstract (intros n; by destruct n).
  - abstract (intros n; destruct (Nat.leb_spec 2 n);
              [apply Z.leb_le|apply Z.leb_gt]; lia).
Defined.

Definition three_calls : list (Z * Event (Data:=nat)) :=
  [(5000, EvCall "/stock" [("name", "TCS")]);
   (5000, EvCall "/trending" []);
   (5000, EvCall "/NSE_most_active" []);
   (5300, EvResponse (HttpOk 1%nat));
   (7300, EvTimer);
   (7450, EvResponse (HttpNotOk 500 "oops"));
   (9450, EvTimer);
   (9600, EvResponse (HttpOk 3%nat))].

Definition two_callers : list (Z * Event (Data:=nat)) :=
  [(5000, EvCall "/stock" [("name", "TCS")]);
   (5000, EvCall "/trending" [])].

(** A second closure for a key is queued after [clearCache] while the first
    is in flight; the first fills the cache. *)
Definition served_twice : list (Z * Event (Data:=nat)) :=
  [(5000, EvCall "/trending" []);
   (5001, EvClearCache);
   (5002, EvCall "/trending" []);
   (5100, EvResponse (HttpOk 7%nat))].

Definition cached_once : list (Z * Event (Data:=nat)) :=
  [(5000, EvCall "/trending" []);
   (5100, EvResponse (HttpOk 7%nat))].


(** The entry of [cached_once] has gone stale and a call has sent a new
    request for its key, which is not answered yet. *)
Definition stale_and_in_flight : list (Z * Event (Data:=nat)) :=
  cached_once ++ [(305100, EvCall "/trending" [])].

(** [clearCache] and a repeated call while that request is in flight,
    then the answer to the request and the spacing timer. *)
Definition cleared_in_flight : list (Z * Event (Data:=nat)) :=
  stale_and_in_flight
  ++ [(305101, EvClearCache);
      (305102, EvCall "/trending" []);
      (305200, EvResponse (HttpOk 8%nat));
      (307200, EvTimer)].

Definition transport_error : list (Z * Event (Data:=nat)) :=
  [(5000, EvCall "/trending" []);
   (5100, EvResponse (FetchThrows (Error "Failed to fetch")))].

Definition rate_limited : list (Z * Event (Data:=nat)) :=
  [(5000, EvCall "/trending" []);
   (5100, EvResponse (HttpNotOk 429 "Too Many Requests"))].

(** [{ trending_stocks: { top_gainers: [{ ticker_id: "TCS", price: "abc" }] } }] *)
Definition gainer_with_text_price : Val (N:=Integers) :=
  VObj [("trending_stocks",
         VObj [("top_gainers",
                VArr [VObj [("ticker_id", VStr "TCS");
                            ("price", VStr "abc")]])])].

(** [{ trending_stocks: { top_gainers: [null] } }] *)
Definition gainer_null : Val (N:=Integers) :=
  VObj [("trending_stocks", VObj [("top_gainers", VArr [VNull])])].

(** [{ datasets: [{ metric: "Price", values: [["2024-01-03", "12"],
    ["2024-01-02"], ["2024-01-01", "x"]] }] }] *)
Definition series_with_short_entry : Val (N:=Integers) :=
  VObj [("datasets",
         VArr [VObj [("metric", VStr "Price");
                     ("values",
                      VArr [VArr [VStr "2024-01-03"; VStr "12"];
                            VArr [VStr "2024-01-02"];
                            VArr [VStr "2024-01-01"; VStr "x"]])]])].

(** [{ data: [{ timestamp: "2024-01-01", open: "abc", price: "12" }] }] *)
Definition item_with_text_open : Val (N:=Integers) :=
  VObj [("data",
         VArr [VObj [("timestamp", VStr "2024-01-01"); ("open", VStr "abc");
                     ("price", VStr "12")]])].

End Examples.

(** ** Invariants and surroundings of the governor's runs *)

Module GovernorRunsDefs.
Import Governor.

Section WithPayload.
Context {Data : Type}.
Implicit Types (w : World (Data:=Data)).

(** [processQueue] runs exactly while its flag is set, and is not left
    with closures in the queue. *)
Record idle_inv w : Prop := {
  ii_flag : isProcessingQueue (gov w) = false <-> phase w = Idle;
  ii_queue : phase w = Idle -> requestQueue (gov w) = [] }.

(** No lock-out is set and the dispatcher is not in the rate-limit wait. *)
Record unlimited w : Prop := {
  ul_until : rateLimitedUntil (gov w) = 0;
  ul_delay : retryDelay (gov w) = 5000;
  ul_phase : forall wake, phase w <> WaitRateLimit wake }.

(** The promises settled are those of the closures that ended. *)
Definition settled_ok w : Prop :=
  forall p, is_Some (settled w !! p) <-> p ∈ q_promise <$> completed (log w).

(** The promises of the closures queued so far are distinct and were
    allocated, and [settled_ok]. *)
Record promise_inv w : Prop := {
  pi_nodup : NoDup (q_promise <$> enqueued (log w));
  pi_bound : forall it, it ∈ enqueued (log w) -> (q_promise it < nextPromise w)%nat;
  pi_settled : settled_ok w }.

(** The module variable [client] and [getIndianApiClient]: an object is
    constructed, [clearCache] is called on it, and it replaces whatever
    the variable held. *)
Definition getIndianApiClient (client : option (World (Data:=Data)))
  : option (World (Data:=Data)) * World (Data:=Data) :=
  let client' := clearCache init in
  (Some client', client').

(** No call of [fetch] is answered during the run. *)
Definition unanswered (tr : list (Z * Event (Data:=Data))) : bool :=
  forallb (fun e => match snd e with EvResponse _ => false | _ => true end) tr.

(** The surroundings that let the governor run on without further calls:
    the timer [processQueue] waits for fires when it is due, and the call
    of [fetch] in flight is answered, [latency] after the last event, with
    what [answer] gives for its closure.  [fuel] bounds the number of
    events. *)
Fixpoint drain (answer : QItem -> Response (Data:=Data)) (latency : Z)
  (fuel : nat) (t : Z) w : list (Z * Event (Data:=Data)) :=
  match fuel with
  | O => []
  | S fuel' =>
      match phase w with
      | WaitRateLimit wake | WaitSpacing wake =>
          let now := Z.max t wake in
          (now, EvTimer) :: drain answer latency fuel' now (step now EvTimer w)
      | AwaitFetch it =>
          let now := t + latency in
          (now, EvResponse (answer it))
          :: drain answer latency fuel' now (step now (EvResponse (answer it)) w)
      | _ => []
      end
  end.

(** A bound on the events the governor still needs to empty its queue. *)
Definition work (w : World (Data:=Data)) : nat :=
  3 * length (requestQueue (gov w))
  + match phase w with
    | Idle => 0
    | WaitSpacing _ => 1
    | WaitRateLimit _ => 2
    | AwaitFetch _ | AwaitThunk _ _ => 3
    end.

(** The times at which closures ended, read off the log. *)
Definition complete_times (l : list Obs) : list Z :=
  omap (fun o => match o with ObsComplete _ t => Some t | _ => None end) l.

(** How the times of the dispatches and of the ends interleave. *)
Record gap_inv (t : Z) w : Prop := {
  gi_len : (length (complete_times (log w)) + length (in_flight (phase w))
            = length (dispatch_times (log w)))%nat;
  gi_last : forall c, last (complete_times (log w)) = Some c ->
            c <= lastRequestTime (gov w);
  gi_flight : forall d, in_flight (phase w) <> [] ->
              last (dispatch_times (log w)) = Some d -> d <= t;
  gi_wake : forall wake, phase w = WaitSpacing wake ->
            lastRequestTime (gov w) + MIN_REQUEST_INTERVAL <= wake;
  gi_gap : forall i c d,
    complete_times (log w) !! i = Some c ->
    dispatch_times (log w) !! S i = Some d ->
    c + MIN_REQUEST_INTERVAL <= d;
  gi_order : forall i d c,
    dispatch_times (log w) !! i = Some d ->
    complete_times (log w) !! i = Some c ->
    d <= c }.

(** The error of an answer that makes the closure throw without taking
    its key out of the registry: [fetch] rejects, or reading the body
    fails. *)
Definition thrown (r : Response (Data:=Data)) : option JsError :=
  match r with
  | FetchThrows e | HttpNotOkNoText _ e | HttpOkBadJson e => Some e
  | HttpNotOk _ _ | HttpOk _ => None
  end.

(** What holds between two events of a run from a new client. *)
Record reached (t : Z) w : Prop := {
  re_sched : sched_inv t w;
  re_idle : idle_inv w;
  re_registry : registry_inv t w;
  re_closures : closure_inv w;
  re_promises : promise_inv w }.

(** The key [k] is registered with the promise [p], which was rejected
    with [e], and no closure for [k] is queued or in flight. *)
Record poisoned (k : string) (p : nat) (e : JsError) w : Prop := {
  po_registered : pendingRequests (gov w) !! k = Some p;
  po_rejected : settled w !! p = Some (Rejected e);
  po_alive : forall it, it ∈ alive w -> q_key it <> k }.

End WithPayload.

(** Three calls for different keys at one instant, none answered yet. *)
Definition three_pending : list (Z * Event (Data:=nat)) :=
  [(5000, EvCall "/stock" [("name", "TCS")]);
   (5000, EvCall "/trending" []);
   (5000, EvCall "/NSE_most_active" [])].

(** A call in flight that is not answered while calls, a timer and
    [clearCache] go on. *)
Definition one_call : list (Z * Event (Data:=nat)) :=
  [(5000, EvCall "/trending" [])].
Definition no_answer : list (Z * Event (Data:=nat)) :=
  [(5001, EvCall "/stock" [("name", "TCS")]);
   (9000, EvTimer);
   (10000, EvClearCache);
   (10001, EvCall "/trending" [])].

End GovernorRunsDefs.

(** ** Shapes of payloads *)

Module Shapes.
Import Js Client Examples.

Section WithNumbers.
Context {N : Numbers}.

(** [v == null]: the values on which a property access throws. *)
Definition nullish (v : Val) : bool :=
  match v with VUndef | VNull => true | _ => false end.

End WithNumbers.

(** [{ trending_stocks: { top_gainers: [{ ticker_id: "TCS", price: 12 },
    "INFY"], top_losers: [{ ticker_id: "WIPRO", net_change: "-3" }] } }] *)
Definition two_gainers_one_loser : Val (N:=Integers) :=
  VObj [("trending_stocks",
         VObj [("top_gainers",
                VArr [VObj [("ticker_id", VStr "TCS"); ("price", VNum (of_nat 12))];
                      VStr "INFY"]);
               ("top_losers",
                VArr [VObj [("ticker_id", VStr "WIPRO");
                            ("net_change", VStr "-3")]])])].

(** The same payload with [null] as second loser. *)
Definition loser_null : Val (N:=Integers) :=
  VObj [("trending_stocks",
         VObj [("top_gainers",
                VArr [VObj [("ticker_id", VStr "TCS"); ("price", VNum (of_nat 12))]]);
               ("top_losers",
                VArr [VObj [("ticker_id", VStr "WIPRO")]; VNull])])].

(** [{ datasets: [{ metric: "Volume", values: [["2024-01-03", 5]] },
    { metric: "Price", values: [["2024-01-03", 30], ["2024-01-02", 20],
    ["2024-01-01", 10]] }, { metric: "Price", values: [] }] }] *)
Definition newest_first : Val (N:=Integers) :=
  VObj [("datasets",
         VArr [VObj [("metric", VStr "Volume");
                     ("values", VArr [VArr [VStr "2024-01-03"; VNum (of_nat 5)]])];
               VObj [("metric", VStr "Price");
                     ("values",
                      VArr [VArr [VStr "2024-01-03"; VNum (of_nat 30)];
                            VArr [VStr "2024-01-02"; VNum (of_nat 20)];
                            VArr [VStr "2024-01-01"; VNum (of_nat 10)]])];
               VObj [("metric", VStr "Price"); ("values", VArr [])]])].

End Shapes.

(** ** The client of [src/lib/indian-api.ts] *)

Module LegacyFetch.

Section WithPayload.
Context {Data : Type}.

Definition CACHE_DURATION : Z := 30000.

(** The client has one field that changes, the cache.  The run time keeps
    the calls of [fetchWithCache] that are suspended in [await fetch], each
    with its [cacheKey], and what the calls that ended have returned or
    thrown; the calls are numbered in order.  [fetched] lists the keys
    [fetch] was called for; it is written, never read. *)
Record World := mkWorld {
  cache : gmap string (Data * Z);
  waiting : gmap nat string;
  nextCall : nat;
  returned : gmap nat (Outcome Data);
  fetched : list string }.

Inductive Event :=
| EvCall (endpoint : string) (params : list (string * string))
| EvResponse (call : nat) (r : Governor.Response (Data:=Data))
| EvClearCache.

Definition init : World := mkWorld ∅ ∅ 0%nat ∅ [].

(** [cached && Date.now() - cached.timestamp < this.CACHE_DURATION] *)
Definition cache_lookup (now : Z) (key : string) (w : World) : option Data :=
  match cache w !! key with
  | Some (d, ts) => if now - ts <? CACHE_DURATION then Some d else None
  | None => None
  end.

(** [fetchWithCache] from its start to its first suspension: it returns
    the cached payload, or calls [fetch] and waits. *)
Definition fetchWithCache (now : Z) (endpoint : string)
  (params : list (string * string)) (w : World) : World :=
  let cacheKey := Url.cacheKey endpoint params in
  let call := nextCall w in
  match cache_lookup now cacheKey w with
  | Some d =>
      mkWorld (cache w) (waiting w) (S call)
              (<[call := Resolved d]> (returned w)) (fetched w)
  | None =>
      mkWorld (cache w) (<[call := cacheKey]> (waiting w)) (S call)
              (returned w) (fetched w ++ [cacheKey])
  end.

(** [fetchWithCache] once [fetch] has settled: what it does to the cache
    and what it returns or throws. *)
Definition after_fetch (now : Z) (cacheKey : string)
  (r : Governor.Response (Data:=Data)) (c : gmap string (Data * Z))
  : gmap string (Data * Z) * Outcome Data :=
  match r with
  | Governor.FetchThrows e => (c, Rejected e)
  | Governor.HttpNotOk status errorText =>
      (c, Rejected (Error ("API request failed: " +:+ show_Z status)))
  | Governor.HttpNotOkNoText _ e => (c, Rejected e)
  | Governor.HttpOkBadJson e => (c, Rejected e)
  | Governor.HttpOk data => (<[cacheKey := (data, now)]> c, Resolved data)
  end.

(** The call of [fetch] made by the call numbered [call] settles. *)
Definition on_response (now : Z) (call : nat)
  (r : Governor.Response (Data:=Data)) (w : World) : World :=
  match waiting w !! call with
  | Some cacheKey =>
      let (c, o) := after_fetch now cacheKey r (cache w) in
      mkWorld c (delete call (waiting w)) (nextCall w)
              (<[call := o]> (returned w)) (fetched w)
  | None => w
  end.

(** [clearCache]: [this.cache.clear()] *)
Definition clearCache (w : World) : World :=
  mkWorld ∅ (waiting w) (nextCall w) (returned w) (fetched w).

Definition step (now : Z) (ev : Event) (w : World) : World :=
  match ev with
  | EvCall endpoint params => fetchWithCache now endpoint params w
  | EvResponse call r => on_response now call r w
  | EvClearCache => clearCache w
  end.

Fixpoint run (tr : list (Z * Event)) (w : World) : World :=
  match tr with
  | [] => w
  | (now, ev) :: tr' => run tr' (step now ev w)
  end.

End WithPayload.

End LegacyFetch.

Module LegacyApi.
Import Js Client Legacy.

Section WithNumbers.
Context {N : Numbers}.

(** [parseFloat(x || '0')] and [parseInt(x || '0')] *)
Definition float_or_0 (x : Val) : num := parseFloat (or_else x (VStr "0")).
Definition int_or_0 (x : Val) : num := parseInt (or_else x (VStr "0")).

Definition stock_request (name : string) : string * list (string * string) :=
  ("/stock", [("name", name)]).
Definition trending_request : string * list (string * string) :=
  ("/trending", []).
Definition most_active_request (exchange : string)
  : string * list (string * string) :=
  (if String.eqb exchange "NSE" then "/NSE_most_active" else "/BSE_most_active",
   []).
Definition week52_request : string * list (string * string) :=
  ("/fetch_52_week_high_low_data", []).
Definition industry_request (query : string) : string * list (string * string) :=
  ("/industry_search", [("query", query)]).

(** The body of [getStockData] after the [await], inside its [try]. *)
Definition stock_body (name : string) (data : Val) : Outcome (list StockData) :=
  if negb (truthy data) then Resolved []
  else
    currentPrice ← get data "currentPrice";
    if negb (truthy currentPrice) then Resolved []
    else
      currentPrice' ← get data "currentPrice";
      nse ← get currentPrice' "NSE";
      p ← (if truthy nse then Resolved nse
           else currentPrice'' ← get data "currentPrice";
                bse ← get currentPrice'' "BSE";
                Resolved (or_else bse (VStr "0")));
      let price := parseFloat p in
      details ← get data "stockDetailsReusableData";
      change ← opt_get details "change";
      percentChange ← get data "percentChange";
      details' ← get data "stockDetailsReusableData";
      tickerId ← opt_get details' "tickerId";
      companyName ← get data "companyName";
      details'' ← get data "stockDetailsReusableData";
      volume ← opt_get details'' "volume";
      yearHigh ← get data "yearHigh";
      yearLow ← get data "yearLow";
      Resolved
        [mkStock (or_else tickerId (VStr name)) (or_else companyName (VStr name))
           price (float_or_0 change) (float_or_0 percentChange)
           (int_or_0 volume) zero (float_or_0 yearHigh) (float_or_0 yearLow)
           price price].

Definition getStockData (name : string) (fetched : Outcome Val)
  : Outcome (list StockData) :=
  catch_all (data ← fetched; stock_body name data).

(** The object pushed for one element by [getTrendingStocks] and returned
    for one by the callback of [getMostActiveStocks]. *)
Definition card (symbol_key name_key type : string) (stock : Val)
  : Outcome CardData :=
  symbol ← get stock symbol_key;
  name ← get stock name_key;
  price ← get stock "price";
  net_change ← get stock "net_change";
  percent_change ← get stock "percent_change";
  volume ← get stock "volume";
  Resolved
    (mkCard (or_else symbol (VStr EmptyString)) (or_else name (VStr EmptyString))
       (float_or_0 price) (float_or_0 net_change)
       (float_or_0 percent_change) (int_or_0 volume) type).

(** [if (data.trending_stocks?.name) { data.trending_stocks.name.forEach(f) }] *)
Definition trending_list {A : Type} (data : Val) (name : string)
  (f : Val -> Outcome A) : Outcome (list A) :=
  trending ← get data "trending_stocks";
  list ← opt_get trending name;
  if truthy list
  then
    trending' ← get data "trending_stocks";
    list' ← get trending' name;
    forEach_method list' f
  else Resolved [].

Definition trending_body (data : Val) : Outcome (list CardData) :=
  gainers ← trending_list data "top_gainers"
              (card "ticker_id" "company_name" "gainer");
  losers ← trending_list data "top_losers"
             (card "ticker_id" "company_name" "loser");
  Resolved (gainers ++ losers).

Definition getTrendingStocks (fetched : Outcome Val) : Outcome (list CardData) :=
  catch_all (data ← fetched; trending_body data).

Definition most_active_body (data : Val) : Outcome (list CardData) :=
  map_method data (card "ticker" "company" "active").

Definition getMostActiveStocks (fetched : Outcome Val) : Outcome (list CardData) :=
  catch_all (data ← fetched; most_active_body data).

(** A card of [get52WeekData]: the fields of a card and the one entry of
    its [metadata]. *)
Record WeekCard := mkWeekCard {
  wc_card : CardData;
  wc_metadata : string * num }.

Definition week_card (type meta_key prop : string) (stock : Val)
  : Outcome WeekCard :=
  ticker ← get stock "ticker";
  company ← get stock "company";
  price ← get stock "price";
  week52 ← get stock prop;
  Resolved
    (mkWeekCard
       (mkCard (or_else ticker (VStr EmptyString)) (or_else company (VStr EmptyString))
          (float_or_0 price) zero zero zero type)
       (meta_key, float_or_0 week52)).

(** [if (data.NSE_52WeekHighLow.name) { data.NSE_52WeekHighLow.name.forEach(f) }] *)
Definition week52_list {A : Type} (data : Val) (name : string)
  (f : Val -> Outcome A) : Outcome (list A) :=
  nse ← get data "NSE_52WeekHighLow";
  list ← get nse name;
  if truthy list
  then
    nse' ← get data "NSE_52WeekHighLow";
    list' ← get nse' name;
    forEach_method list' f
  else Resolved [].

Definition week52_body (data : Val) : Outcome (list WeekCard) :=
  nse ← get data "NSE_52WeekHighLow";
  if truthy nse
  then
    highs ← week52_list data "high52Week"
              (week_card "high" "week52High" "52_week_high");
    lows ← week52_list data "low52Week"
             (week_card "low" "week52Low" "52_week_low");
    Resolved (highs ++ lows)
  else Resolved [].

Definition get52WeekData (fetched : Outcome Val) : Outcome (list WeekCard) :=
  catch_all (data ← fetched; week52_body data).

(** The callback of [searchByIndustry]. *)
Definition industry_stock (stock : Val) : Outcome StockData :=
  nsi ← get stock "exchangeCodeNsi";
  symbol ← (if truthy nsi then Resolved nsi
            else bse ← get stock "exchangeCodeBse";
                 Resolved (or_else bse (VStr EmptyString)));
  commonName ← get stock "commonName";
  Resolved
    (mkStock symbol (or_else commonName (VStr EmptyString))
       zero zero zero zero zero zero zero zero zero).

Definition industry_body (data : Val) : Outcome (list StockData) :=
  map_method data industry_stock.

Definition searchByIndustry (fetched : Outcome Val) : Outcome (list StockData) :=
  catch_all (data ← fetched; industry_body data).

End WithNumbers.

End LegacyApi.

Module LegacyExamples.
Import Js Client Examples.

(** [{ NSE_52WeekHighLow: { high52Week: [{ ticker: "TCS", price: "3500",
    "52_week_high": "3600" }], low52Week: [{ ticker: "WIPRO" }] },
    BSE_52WeekHighLow: { high52Week: [{ ticker: "INFY" }] } }] *)
Definition week52_payload : Val (N:=Integers) :=
  VObj [("NSE_52WeekHighLow",
         VObj [("high52Week",
                VArr [VObj [("ticker", VStr "TCS"); ("price", VStr "3500");
                            ("52_week_high", VStr "3600")]]);
               ("low52Week", VArr [VObj [("ticker", VStr "WIPRO")]])]);
        ("BSE_52WeekHighLow",
         VObj [("high52Week", VArr [VObj [("ticker", VStr "INFY")]])])].

(** [[{ exchangeCodeBse: "500325", commonName: "Reliance" }, {}]] *)
Definition industry_payload : list (Val (N:=Integers)) :=
  [VObj [("exchangeCodeBse", VStr "500325"); ("commonName", VStr "Reliance")];
   VObj []].

End LegacyExamples.

(** ** [paginateData] of [src/lib/utils.ts] *)

Module Utils.

Section WithRows.
Context {A : Type}.

(** [Array.prototype.slice(start, end)] for two integers: a negative
    index counts from the end, and both are clamped to the array. *)
Definition slice (l : list A) (start end_ : Z) : list A :=
  let len := Z.of_nat (length l) in
  let k := if start <? 0 then Z.max (len + start) 0 else Z.min start len in
  let final := if end_ <? 0 then Z.max (len + end_) 0 else Z.min end_ len in
  take (Z.to_nat (final - k)) (drop (Z.to_nat k) l).

(** What [Math.ceil(n / limit)] gives for an array length [n] and an
    integer [limit]: a number, or [Infinity] or [NaN] when [limit] is 0. *)
Inductive PageCount :=
| Pages (n : Z)
| InfinitePages
| NoPageCount.

Definition page_count (n limit : Z) : PageCount :=
  if limit =? 0 then (if n =? 0 then NoPageCount else InfinitePages)
  else Pages (- ((- n) / limit)).

(** [paginateData(data, page, limit)] for integers [page] and [limit]:
    the rows of the page and [totalPages]. *)
Definition paginateData (data : list A) (page limit : Z) : list A * PageCount :=
  let startIndex := (page - 1) * limit in
  let endIndex := startIndex + limit in
  let paginatedData := slice data startIndex endIndex in
  let totalPages := page_count (Z.of_nat (length data)) limit in
  (paginatedData, totalPages).

End WithRows.

End Utils.

(** ** The widget list of the dashboard store *)

Module Store.

Section WithWidget.
(** The properties of a widget other than [id] and [position]. *)
Context {A : Type}.

(** An element of [widgets]: a widget, or the object that spreading
    [undefined] leaves, which has a [position] and nothing else. *)
Inductive Entry :=
| Widget (id : string) (position : nat) (rest : A)
| PositionOnly (position : nat).

(** [e.id], [None] for [undefined] *)
Definition id_of (e : Entry) : option string :=
  match e with
  | Widget id _ _ => Some id
  | PositionOnly _ => None
  end.

Definition position_of (e : Entry) : nat :=
  match e with
  | Widget _ position _ => position
  | PositionOnly position => position
  end.

(** An element without its position. *)
Definition content (e : Entry) : option (string * A) :=
  match e with
  | Widget id _ rest => Some (id, rest)
  | PositionOnly _ => None
  end.

(** [{ ...widget, position: index }], [widget] possibly [undefined] *)
Definition spread_position (index : nat) (widget : option Entry) : Entry :=
  match widget with
  | Some (Widget id _ rest) => Widget id index rest
  | Some (PositionOnly _) | None => PositionOnly index
  end.

(** [widgets.map((widget, index) => ({ ...widget, position: index }))] *)
Definition reindex (widgets : list (option Entry)) : list Entry :=
  imap spread_position widgets.

(** [addWidget], [now] being what [Date.now()] returns *)
Definition addWidget (now : Z) (rest : A) (widgets : list Entry) : list Entry :=
  widgets ++ [Widget (show_Z now) (length widgets) rest].

Definition removeWidget (id : string) (widgets : list Entry) : list Entry :=
  let filteredWidgets := filter (fun w => id_of w <> Some id) widgets in
  reindex (Some <$> filteredWidgets).

(** The place an integer means as the start of [splice] in an array of
    length [len]: counted from the end if negative, and clamped. *)
Definition relative (len : nat) (i : Z) : nat :=
  if i <? 0 then Z.to_nat (Z.max (Z.of_nat len + i) 0)
  else Z.to_nat (Z.min i (Z.of_nat len)).

(** [reorderWidgets]: [const [movedWidget] = widgets.splice(fromIndex, 1);
    widgets.splice(toIndex, 0, movedWidget)], then the positions. *)
Definition reorderWidgets (fromIndex toIndex : Z) (state_widgets : list Entry)
  : list Entry :=
  let from := relative (length state_widgets) fromIndex in
  let movedWidget := state_widgets !! from in
  let widgets := delete from state_widgets in
  let to := relative (length widgets) toIndex in
  reindex (take to (Some <$> widgets) ++ movedWidget :: drop to (Some <$> widgets)).

(** [widgets.findIndex((widget) => widget.id === id)] *)
Fixpoint findIndex (id : option string) (widgets : list Entry) : Z :=
  match widgets with
  | [] => -1
  | widget :: rest =>
      if decide (id_of widget = id) then 0
      else let i := findIndex id rest in if i <? 0 then -1 else i + 1
  end.

(** [handleDragEnd] of the dashboard: [active.id] is the widget dragged,
    [over?.id] the one it was dropped on, [undefined] when it was dropped
    on none. *)
Definition handleDragEnd (active : string) (over : option string)
  (widgets : list Entry) : list Entry :=
  if decide (Some active <> over)
  then
    let oldIndex := findIndex (Some active) widgets in
    let newIndex := findIndex over widgets in
    reorderWidgets oldIndex newIndex widgets
  else widgets.

End WithWidget.

(** Three widgets and their configurations, here numbers. *)
Definition three_widgets : list (Entry (A:=nat)) :=
  [Widget "a" 0 10%nat; Widget "b" 1 20%nat; Widget "c" 2 30%nat].

End Store.

(** ** [fetchData] of the widgets *)

Module Widgets.
Import Js Client.

(** The state of a widget that [fetchData] sets. *)
Record Shown (A : Type) := mkShown {
  data : list A;
  loading : bool;
  error : option string }.
Arguments mkShown {A} data loading error.
Arguments data {A} s.
Arguments loading {A} s.
Arguments error {A} s.

Section WithNumbers.
Context {N : Numbers}.

(** [s.trim() === '']; which strings are white space only is left open. *)
Variable blank : string -> bool.

(** [!apiConfig.apiKey || apiConfig.apiKey.trim() === ''] *)
Definition no_key (apiKey : Val) : Outcome bool :=
  if negb (truthy apiKey) then Resolved true
  else match apiKey with
       | VStr s => Resolved (blank s)
       | _ => Rejected (TypeError "apiConfig.apiKey.trim is not a function")
       end.

(** [fetchData] from [setLoading(true)] to [setLoading(false)]: the mock
    data without a key, otherwise what the operation of the client
    resolves to; the [catch] sets the message and the mock data.
    [operation] is how the promise of the operation settles. *)
Definition fetchData {A : Type} (mock : list A) (message : string)
  (apiKey : Val) (operation : Outcome (list A)) : Shown A :=
  match (missing ← no_key apiKey;
         if missing : bool then Resolved mock else operation) with
  | Resolved result => mkShown result false None
  | Rejected _ => mkShown mock false (Some message)
  end.

(** [config.symbol || 'RELIANCE'] and the like, for a string or
    [undefined] *)
Definition string_or (s : option string) (fallback : string) : string :=
  match s with
  | Some s' => if String.eqb s' EmptyString then fallback else s'
  | None => fallback
  end.

(** The table: [api.getStockData(config.symbol || 'RELIANCE')];
    [fetched] is how [fetchWithCache] settles. *)
Definition table_fetchData (mock : list StockData) (apiKey : Val)
  (symbol : option string) (fetched : Outcome Val) : Shown StockData :=
  fetchData mock "Failed to fetch data" apiKey
    (getStockData (string_or symbol "RELIANCE") fetched).

(** The cards: [switch (config.type)] *)
Definition cards_fetchData (mock : list CardData) (apiKey : Val)
  (type : string) (fetched : Outcome Val) : Shown CardData :=
  fetchData mock "Failed to fetch data" apiKey
    (if String.eqb type "gainers" then getTrendingStocks fetched
     else if String.eqb type "watchlist" then getMostActiveStocks fetched
     else Resolved mock).

(** The chart: [api.getHistoricalData(config.symbol || 'RELIANCE',
    config.interval || '1yr')] *)
Definition chart_fetchData (mock : list ChartData) (apiKey : Val)
  (fetched : Outcome Val) : Shown ChartData :=
  fetchData mock "Failed to fetch chart data" apiKey (getHistoricalData fetched).

End WithNumbers.

End Widgets.

(** * Cache keys *)

Module UrlFacts.
Import Url.

Lemma sort_by_name_sorted (l : list (string * string)) :
  sorted_by_name l = true -> sort_by_name l = l.
Proof.
  induction l as [|kv [|kv' rest] IH]; [done|done|].
  intros Hs. apply andb_prop in Hs as [Hle Hs].
  change (sort_by_name (kv :: kv' :: rest))
    with (insert_by_name kv (sort_by_name (kv' :: rest))).
  rewrite (IH Hs). cbn [insert_by_name]. by rewrite Hle.
Qed.

(** C7, as stated, fails: the same two parameters in the other order give
    another key. *)
Lemma params_order_changes_key :
  cacheKey "/historical_data" [("stock_name", "TCS"); ("period", "1yr")]
  <> cacheKey "/historical_data" [("period", "1yr"); ("stock_name", "TCS")].
Proof. vm_compute. discriminate. Qed.

(** C7, amended: the key is the endpoint, a question mark and the query
    string of the parameters in the order they are supplied, one
    [name=value] after the other; it is the canonical sorted key when the
    parameters are supplied in the order of their names. *)
Theorem cache_key_in_supplied_order endpoint params :
  cacheKey endpoint params = endpoint +:+ "?" +:+ query_string params
  /\ (forall kv kv' rest,
        query_string (kv :: kv' :: rest)
        = pair_string kv +:+ "&" +:+ query_string (kv' :: rest))
  /\ (sorted_by_name params = true ->
      cacheKey endpoint params = canonical_key endpoint params).
Proof.
  split; [done|]. split; [done|].
  intros Hs. unfold canonical_key. by rewrite sort_by_name_sorted.
Qed.

(** The keys of the four operations, the parameters in the order of their
    object literals. *)
Example keys_of_the_operations :
  uncurry cacheKey (Client.stock_request "TATA MOTORS") = "/stock?name=TATA+MOTORS"
  /\ uncurry cacheKey Client.trending_request = "/trending?"
  /\ uncurry cacheKey (Client.most_active_request "BSE") = "/BSE_most_active?"
  /\ uncurry cacheKey (Client.historical_request "TCS" "1yr")
     = "/historical_data?stock_name=TCS&period=1yr&filter=price"
  /\ canonical_key "/historical_data"
       [("stock_name", "TCS"); ("period", "1yr"); ("filter", "price")]
     = "/historical_data?filter=price&period=1yr&stock_name=TCS".
Proof. by vm_compute. Qed.

End UrlFacts.

(** * The governor *)

Module GovernorFacts.
Import Governor Examples.

Lemma spaced_snoc l x :
  spaced l -> (forall d, last l = Some d -> d + MIN_REQUEST_INTERVAL <= x) ->
  spaced (l ++ [x]).
Proof.
  induction l as [|a [|b l] IH]; simpl; intros Hs Hl; [done| |].
  - split; [|done]. by apply Hl.
  - destruct Hs as [Hab Hs]. split; [done|]. apply IH; [done|].
    intros d Hd. apply Hl. done.
Qed.

Lemma spaced_lookup l i a b :
  spaced l -> l !! i = Some a -> l !! S i = Some b ->
  a + MIN_REQUEST_INTERVAL <= b.
Proof.
  revert i. induction l as [|x [|y l] IH]; intros i Hs Ha Hb; [done|done|].
  destruct Hs as [Hxy Hs]. destruct i as [|i]; simpl in *.
  - congruence.
  - by eapply IH.
Qed.

Ltac wsimpl :=
  cbn [leave_loop with_phase observe settle on_gov with_cache with_queue
       with_processing with_lastRequestTime with_pending with_rateLimitedUntil
       with_retryDelay
       gov phase nextPromise settled log cache requestQueue isProcessingQueue
       lastRequestTime pendingRequests rateLimitedUntil retryDelay fst snd
       in_flight q_key q_promise] in *.

Lemma enqueued_snoc (l : list Obs) o :
  enqueued (l ++ [o]) =
  enqueued l ++ match o with ObsEnqueue it => [it] | _ => [] end.
Proof. unfold enqueued. rewrite omap_app. by destruct o. Qed.

Lemma dispatched_snoc (l : list Obs) o :
  dispatched (l ++ [o]) =
  dispatched l ++ match o with ObsDispatch it _ => [it] | _ => [] end.
Proof. unfold dispatched. rewrite omap_app. by destruct o. Qed.

Lemma completed_snoc (l : list Obs) o :
  completed (l ++ [o]) =
  completed l ++ match o with ObsComplete it _ => [it] | _ => [] end.
Proof. unfold completed. rewrite omap_app. by destruct o. Qed.

Lemma dispatch_times_snoc (l : list Obs) o :
  dispatch_times (l ++ [o]) =
  dispatch_times l ++ match o with ObsDispatch _ t => [t] | _ => [] end.
Proof. unfold dispatch_times. rewrite omap_app. by destruct o. Qed.

Lemma net_calls_snoc (l : list Obs) o :
  net_calls (l ++ [o]) =
  net_calls l ++ match o with ObsNetCall it _ => [it] | _ => [] end.
Proof. unfold net_calls. rewrite omap_app. by destruct o. Qed.

Ltac log_simpl :=
  rewrite ?enqueued_snoc, ?dispatched_snoc, ?completed_snoc,
    ?dispatch_times_snoc, ?net_calls_snoc in *;
  cbn iota in *; rewrite ?app_nil_r in *.

Section WithPayload.
Context {Data : Type}.
Implicit Types (w : World (Data:=Data)) (g : Fields (Data:=Data)).

Lemma drives_weaken (ok ok' : Prop) now w w' :
  (ok -> ok') -> drives ok now w w' -> drives ok' now w w'.
Proof. intros Himp []; econstructor; eauto. Qed.

Lemma dispatch_drives now w : drives True now w (dispatch now w).
Proof.
  unfold dispatch. destruct (requestQueue (gov w)) eqn:Hq.
  - constructor.
  - by econstructor.
Qed.

Lemma after_rate_wait_drives now w :
  drives (lastRequestTime (gov w) + MIN_REQUEST_INTERVAL <= now) now w
    (after_rate_wait now w).
Proof.
  unfold after_rate_wait.
  destruct (Z.ltb_spec (now - lastRequestTime (gov w)) MIN_REQUEST_INTERVAL).
  - constructor. lia.
  - eapply drives_weaken; [|apply dispatch_drives]. lia.
Qed.

Lemma loop_head_drives now w :
  drives (lastRequestTime (gov w) + MIN_REQUEST_INTERVAL <= now) now w
    (loop_head now w).
Proof.
  unfold loop_head. destruct (requestQueue (gov w)); [constructor|].
  destruct (now <? rateLimitedUntil (gov w)); [constructor|].
  apply after_rate_wait_drives.
Qed.

Lemma start_thunk_cases now it w :
  (exists d, start_thunk now it w = with_phase (AwaitThunk it d) w)
  \/ start_thunk now it w = with_phase (AwaitFetch it) (observe (ObsNetCall it now) w).
Proof.
  unfold start_thunk. destruct (cache_lookup _ _ _); eauto.
Qed.

Lemma drives_sched (ok : Prop) t now w w' :
  sched_core t (with_phase Idle w) -> t <= now ->
  (ok -> lastRequestTime (gov w) + MIN_REQUEST_INTERVAL <= now) ->
  drives ok now w w' ->
  sched_core now w'.
Proof.
  intros [H1 H2 H3 H4 H5 H6] Ht Hok Hd.
  destruct w as [[c q b l p r d] ph n s lg]. wsimpl.
  destruct Hd as [|wake|wake Hw|it rest Hk Hq]; wsimpl.
  - split; wsimpl; try done.
  - split; wsimpl; try done.
  - split; wsimpl; try done. by intros ? [= <-].
  - subst q. specialize (Hok Hk).
    destruct (start_thunk_cases now it
      (observe (ObsDispatch it now)
         (on_gov (with_queue rest)
            (mkWorld (mkFields c (it :: rest) b l p r d) ph n s lg))))
      as [[dd ->] | ->]; wsimpl.
    all: split; wsimpl; log_simpl; try done.
    all: try (rewrite H1, <- app_assoc; done).
    all: try (rewrite H2; done).
    all: try (apply spaced_snoc; [done|]; intros d0 Hd0; specialize (H4 _ Hd0); lia).
    all: try (intros d0; rewrite last_snoc; intros [= <-]; lia).
    all: try (by apply sublist_inserts_r).
    all: try (by apply sublist_app).
Qed.

Lemma sched_core_mono t t' w : sched_core t w -> t <= t' -> sched_core t' w.
Proof.
  intros [H1 H2 H3 H4 H5 H6] Ht. split; try done.
  intros d Hd. specialize (H4 d Hd). destruct (in_flight (phase w)); lia.
Qed.

Lemma sched_core_ext t w w' :
  sched_view w' = sched_view w -> sched_core t w -> sched_core t w'.
Proof.
  unfold sched_view. intros [= Hl Hq Hp Ht Hb] [H1 H2 H3 H4 H5 H6].
  split; rewrite ?Hl, ?Hq, ?Hp, ?Ht; done.
Qed.

Lemma keeps_refl w : keeps w w.
Proof. split; auto. Qed.

Lemma keeps_trans w1 w2 w3 : keeps w1 w2 -> keeps w2 w3 -> keeps w1 w3.
Proof.
  intros [] []. split; try congruence.
  destruct k_retry0, k_retry1; [left|right|right|right]; congruence.
Qed.

Lemma drives_keeps (ok : Prop) now w w' : drives ok now w w' -> keeps w w'.
Proof.
  destruct w as [[c q b l p r d] ph n s lg].
  intros [|wake|wake Hw|it rest Hk Hq]; wsimpl; try (split; wsimpl; auto; done).
  destruct (start_thunk_cases now it
      (observe (ObsDispatch it now)
         (on_gov (with_queue rest)
            (mkWorld (mkFields c q b l p r d) ph n s lg))))
      as [[dd ->] | ->]; wsimpl; split; wsimpl; log_simpl; auto.
Qed.

Lemma drives_flag (ok : Prop) now w w' :
  drives ok now w w' -> isProcessingQueue (gov w) = true ->
  (isProcessingQueue (gov w') = false <-> phase w' = Idle).
Proof.
  destruct w as [[c q b l p r d] ph n s lg].
  intros [|wake|wake Hw|it rest Hk Hq] Hb; wsimpl; subst; try done.
  destruct (start_thunk_cases now it
      (observe (ObsDispatch it now)
         (on_gov (with_queue rest)
            (mkWorld (mkFields c (it :: rest) true l p r d) ph n s lg))))
      as [[dd ->] | ->]; wsimpl; done.
Qed.

Lemma drives_idle (ok : Prop) now w w' :
  drives ok now w w' -> ~ ok -> in_flight (phase w') = [].
Proof.
  destruct w as [[c q b l p r d] ph n s lg].
  intros [|wake|wake Hw|it rest Hk Hq] Hn; wsimpl; done.
Qed.

Lemma complete_unfold now it o w :
  complete now it o w =
  loop_head now
    (observe (ObsComplete it now)
       (on_gov (fun g => with_lastRequestTime now (with_retryDelay 5000 g))
          (settle (q_promise it) o w))).
Proof. by destruct o. Qed.

Lemma complete_keeps now it o w : keeps w (complete now it o w).
Proof.
  rewrite complete_unfold.
  eapply keeps_trans; [|eapply drives_keeps, loop_head_drives].
  destruct w as [[c q b l p r d] ph n s lg]. split; wsimpl; log_simpl; auto.
Qed.

Lemma complete_settled now it o w :
  settled (complete now it o w) = <[q_promise it := o]> (settled w).
Proof.
  rewrite complete_unfold.
  set (w1 := observe _ _).
  assert (Hs : forall ok w', drives ok now w1 w' -> settled w' = settled w1).
  { clear. intros ok w' Hd. destruct w1 as [[c q b l p r d] ph n s lg].
    destruct Hd as [|wake|wake Hw|it' rest Hk Hq]; wsimpl; try done.
    destruct (start_thunk_cases now it'
      (observe (ObsDispatch it' now)
         (on_gov (with_queue rest)
            (mkWorld (mkFields c q b l p r d) ph n s lg))))
      as [[dd ->] | ->]; wsimpl; done. }
  rewrite (Hs _ _ (loop_head_drives now w1)).
  subst w1. by destruct w as [[c q b l p r d] ph n s lg].
Qed.

Lemma complete_sched t now it o w :
  sched_core t w -> in_flight (phase w) = [it] -> t <= now ->
  isProcessingQueue (gov w) = true ->
  let w' := complete now it o w in
  sched_core now w' /\ in_flight (phase w') = []
  /\ (isProcessingQueue (gov w') = false <-> phase w' = Idle).
Proof.
  intros [H1 H2 H3 H4 H5 H6] Hfl Ht Hb. cbv zeta. rewrite complete_unfold.
  set (w1 := observe _ _).
  pose proof (loop_head_drives now w1) as Hd.
  assert (Hl : lastRequestTime (gov w1) = now).
  { subst w1. by destruct w as [[c q b l p r d] ph n s lg]. }
  rewrite Hl in Hd.
  assert (Hb1 : isProcessingQueue (gov w1) = true).
  { subst w1. by destruct w as [[c q b l p r d] ph n s lg]. }
  split; [|split].
  - eapply (drives_sched _ now now); [| lia | | exact Hd]; [|rewrite Hl; done].
    subst w1. destruct w as [[c q b l p r d] ph n s lg]. wsimpl.
    rewrite Hfl in *.
    split; wsimpl; log_simpl; try done.
    intros d0 Hd0. specialize (H4 d0 Hd0). lia.
  - eapply drives_idle; [exact Hd|]. unfold MIN_REQUEST_INTERVAL. lia.
  - by eapply drives_flag.
Qed.

Lemma sched_inv_init : sched_inv 0 (init (Data:=Data)).
Proof. repeat split; try done. Qed.

Lemma resume_thunk_sched t now w :
  sched_core t w -> t <= now ->
  (isProcessingQueue (gov w) = false <-> phase w = Idle) ->
  sched_inv now (resume_thunk now w).
Proof.
  intros Hc Ht Hf. unfold resume_thunk.
  destruct (phase w) as [| | | |it d] eqn:Hp;
    try (split; [by eapply sched_core_mono|by rewrite Hp|by rewrite Hp]).
  assert (Hb : isProcessingQueue (gov w) = true).
  { destruct (isProcessingQueue (gov w)); [done|].
    destruct Hf as [Hf _]. by specialize (Hf eq_refl). }
  destruct (complete_sched t now it (Resolved d) w) as (H1 & H2 & H3); try done.
  { by rewrite Hp. }
  split; try done. intros it' d' Hp'. by rewrite Hp' in H2.
Qed.

Lemma processQueue_sched t now w :
  sched_core t w -> t <= now ->
  (isProcessingQueue (gov w) = false <-> phase w = Idle) ->
  let w' := processQueue now w in
  sched_core now w' /\ (isProcessingQueue (gov w') = false <-> phase w' = Idle).
Proof.
  intros Hc Ht Hf. cbv zeta. unfold processQueue.
  destruct (isProcessingQueue (gov w)) eqn:Hb; cbn [orb].
  { split; [by eapply sched_core_mono|by rewrite Hb]. }
  destruct (requestQueue (gov w)) eqn:Hq.
  { split; [by eapply sched_core_mono|by rewrite Hb]. }
  destruct Hf as [Hf _]. specialize (Hf eq_refl).
  set (w1 := on_gov _ _).
  pose proof (loop_head_drives now w1) as Hd.
  split.
  - eapply (drives_sched _ t now); [| lia | | exact Hd]; [|done].
    destruct Hc as [H1 H2 H3 H4 H5 H6].
    subst w1. destruct w as [[c q' b l0 p r d] ph n s lg]. wsimpl. subst.
    by split.
  - eapply drives_flag; [exact Hd|].
    subst w1. by destruct w as [[c q' b l0 p r d] ph n s lg].
Qed.

Lemma thunk_after_fetch_view now it r w :
  sched_view (on_gov (fun _ => (thunk_after_fetch now it r (gov w)).1) w)
  = sched_view w.
Proof. destruct w as [[c q b l p rl d] ph n s lg]. by destruct r. Qed.

Lemma sched_inv_step t now ev w :
  sched_inv t w -> t <= now -> timer_ok now ev w = true ->
  sched_inv now (step now ev w).
Proof.
  intros [Hc Hf Hth] Ht Hok. destruct ev as [e ps| |r|]; cbn [step].
  - unfold fetchWithCache. generalize (Url.cacheKey e ps). intros k.
    destruct (cache_lookup now k (gov w));
      [by split; [eapply sched_core_mono| |]|].
    destruct (pendingRequests (gov w) !! k);
      [by split; [eapply sched_core_mono| |]|].
    unfold queueRequest. cbn [fst snd].
    set (w0 := mkWorld _ _ _ _ _).
    destruct (processQueue_sched t now w0) as [Hc1 Hf1]; try done.
    { destruct Hc as [H1 H2 H3 H4 H5 H6].
      subst w0. destruct w as [[c q b l p rl d] ph n s lg]. wsimpl.
      split; wsimpl; log_simpl; try done. by rewrite H1, app_assoc. }
    set (w1 := processQueue now w0) in *.
    apply (resume_thunk_sched now now); [|lia|].
    + eapply sched_core_ext; [|exact Hc1]. by destruct w1 as [[]].
    + by destruct w1 as [[]].
  - assert (Hon : sched_core now (on_timer now w)
              /\ (isProcessingQueue (gov (on_timer now w)) = false
                  <-> phase (on_timer now w) = Idle)).
    { unfold on_timer, timer_ok in *.
      destruct (phase w) as [|wake|wake|it|it d] eqn:Hp;
        try (split; [by eapply sched_core_mono|by rewrite Hp]).
      - pose proof (after_rate_wait_drives now w) as Hd. split.
        + eapply (drives_sched _ t now); [| lia | | exact Hd]; [|done].
          destruct Hc as [H1 H2 H3 H4 H5 H6].
          destruct w as [[c q b l p rl d] ph n s lg]. wsimpl. subst.
          by split.
        + eapply drives_flag; [exact Hd|].
          destruct (isProcessingQueue (gov w)); [done|].
          destruct Hf as [Hf _]. by specialize (Hf eq_refl).
      - pose proof (dispatch_drives now w) as Hd. split.
        + eapply (drives_sched _ t now); [| lia | | exact Hd].
          * destruct Hc as [H1 H2 H3 H4 H5 H6].
            destruct w as [[c q b l p rl d] ph n s lg]. wsimpl. subst.
            by split.
          * intros _. apply Z.leb_le in Hok.
            pose proof (si_wake _ _ Hc wake Hp). lia.
        + eapply drives_flag; [exact Hd|].
          destruct (isProcessingQueue (gov w)); [done|].
          destruct Hf as [Hf _]. by specialize (Hf eq_refl). }
    destruct Hon. by apply (resume_thunk_sched now now); [|lia|].
  - assert (Hon : sched_core now (on_response now r w)
              /\ (isProcessingQueue (gov (on_response now r w)) = false
                  <-> phase (on_response now r w) = Idle)).
    { unfold on_response.
      destruct (phase w) as [|wake|wake|it|it d] eqn:Hp;
        try (split; [by eapply sched_core_mono|by rewrite Hp]).
      pose proof (thunk_after_fetch_view now it r w) as Hv.
      destruct (thunk_after_fetch now it r (gov w)) as [g o]. cbn [fst] in Hv.
      set (w1 := on_gov _ w) in *.
      assert (Hv3 : phase w1 = phase w) by (by subst w1; destruct w).
      assert (Hv5 : isProcessingQueue (gov w1) = isProcessingQueue (gov w)).
      { apply (f_equal snd) in Hv. exact Hv. }
      destruct (complete_sched t now it o w1) as (H1 & H2 & H3); try done.
      - by eapply sched_core_ext.
      - by rewrite Hv3, Hp.
      - rewrite Hv5. destruct (isProcessingQueue (gov w)); [done|].
        destruct Hf as [Hf _]. by specialize (Hf eq_refl). }
    destruct Hon. by apply (resume_thunk_sched now now); [|lia|].
  - destruct Hc as [H1 H2 H3 H4 H5 H6].
    destruct w as [[c q b l p rl d] ph n s lg]. unfold clearCache.
    split; [split|..]; wsimpl; try done.
    intros d0 Hd0. specialize (H4 d0 Hd0). destruct (in_flight ph); lia.
Qed.

Lemma sched_inv_run tr : forall t w,
  sched_inv t w -> well_timed t tr w = true ->
  sched_inv (end_time t tr) (run tr w).
Proof.
  induction tr as [|[now ev] tr IH]; intros t w Hinv Hwt; [done|].
  cbn [well_timed run] in *.
  apply andb_prop in Hwt as [Hwt Hrest]. apply andb_prop in Hwt as [Hle Hok].
  apply Z.leb_le in Hle.
  cbn [end_time]. apply IH; [|done]. by eapply sched_inv_step.
Qed.

Lemma resume_thunk_keeps now w : keeps w (resume_thunk now w).
Proof.
  unfold resume_thunk. destruct (phase w); auto using keeps_refl, complete_keeps.
Qed.

Lemma processQueue_keeps now w : keeps w (processQueue now w).
Proof.
  unfold processQueue.
  destruct (_ || _); [apply keeps_refl|].
  eapply keeps_trans; [|eapply drives_keeps, loop_head_drives].
  destruct w as [[c q b l p r d] ph n s lg]. split; wsimpl; auto.
Qed.

Lemma on_timer_keeps now w : keeps w (on_timer now w).
Proof.
  unfold on_timer. destruct (phase w); try apply keeps_refl.
  - eapply drives_keeps, after_rate_wait_drives.
  - eapply drives_keeps, dispatch_drives.
Qed.

(** What a call of [fetchWithCache] does when it neither finds the cache
    filled nor a promise registered. *)
Lemma fetchWithCache_miss now endpoint params w :
  let k := Url.cacheKey endpoint params in
  cache_lookup now k (gov w) = None ->
  pendingRequests (gov w) !! k = None ->
  exists w',
    fetchWithCache now endpoint params w = (w', Await (nextPromise w))
    /\ cache (gov w') = cache (gov w)
    /\ rateLimitedUntil (gov w') = rateLimitedUntil (gov w)
    /\ (retryDelay (gov w') = retryDelay (gov w) \/ retryDelay (gov w') = 5000)
    /\ pendingRequests (gov w') = <[k := nextPromise w]> (pendingRequests (gov w))
    /\ enqueued (log w')
       = enqueued (log w) ++ [mkItem k endpoint params (nextPromise w)]
    /\ nextPromise w' = S (nextPromise w).
Proof.
  cbv zeta. unfold fetchWithCache. generalize (Url.cacheKey endpoint params).
  intros k Hc Hp. rewrite Hc, Hp.
  unfold queueRequest.
  set (w0 := mkWorld _ _ _ _ _).
  pose proof (processQueue_keeps now w0) as K1.
  set (w1 := processQueue now w0) in *.
  set (w2 := on_gov _ w1).
  pose proof (resume_thunk_keeps now w2) as K2.
  destruct K1 as [A1 A2 A3 A4 A5 A6], K2 as [B1 B2 B3 B4 B5 B6].
  assert (E : cache (gov w2) = cache (gov w1)
              /\ pendingRequests (gov w2) = <[k := nextPromise w]> (pendingRequests (gov w1))
              /\ nextPromise w2 = nextPromise w1
              /\ rateLimitedUntil (gov w2) = rateLimitedUntil (gov w1)
              /\ retryDelay (gov w2) = retryDelay (gov w1)
              /\ log w2 = log w1).
  { subst w2. by destruct w1 as [[]]. }
  destruct E as (E1 & E2 & E3 & E4 & E5 & E6).
  assert (F : cache (gov w0) = cache (gov w)
              /\ pendingRequests (gov w0) = pendingRequests (gov w)
              /\ nextPromise w0 = S (nextPromise w)
              /\ rateLimitedUntil (gov w0) = rateLimitedUntil (gov w)
              /\ retryDelay (gov w0) = retryDelay (gov w)
              /\ enqueued (log w0)
                 = enqueued (log w) ++ [mkItem k endpoint params (nextPromise w)]).
  { subst w0. destruct w as [[c q b l p r d] ph n s lg]. wsimpl. log_simpl.
    done. }
  destruct F as (F1 & F2 & F3 & F4 & F5 & F6).
  eexists. split; [reflexivity|].
  split; [congruence|]. split; [congruence|].
  split; [destruct A5, B5; [left|right|right|right]; congruence|].
  repeat split; congruence.
Qed.

Lemma fetchWithCache_store now endpoint params w :
  let k := Url.cacheKey endpoint params in
  let w' := (fetchWithCache now endpoint params w).1 in
  cache (gov w') = cache (gov w)
  /\ rateLimitedUntil (gov w') = rateLimitedUntil (gov w)
  /\ (retryDelay (gov w') = retryDelay (gov w) \/ retryDelay (gov w') = 5000)
  /\ ((pendingRequests (gov w') = pendingRequests (gov w)
       /\ enqueued (log w') = enqueued (log w))
      \/ (cache_lookup now k (gov w) = None
          /\ pendingRequests (gov w')
             = <[k := nextPromise w]> (pendingRequests (gov w))
          /\ enqueued (log w')
             = enqueued (log w) ++ [mkItem k endpoint params (nextPromise w)])).
Proof.
  cbv zeta.
  destruct (cache_lookup now (Url.cacheKey endpoint params) (gov w)) eqn:Hc.
  { unfold fetchWithCache. rewrite Hc. by auto 10. }
  destruct (pendingRequests (gov w) !! Url.cacheKey endpoint params) eqn:Hp.
  { unfold fetchWithCache. rewrite Hc, Hp. by auto 10. }
  destruct (fetchWithCache_miss now endpoint params w Hc Hp)
    as (w' & -> & H1 & H2 & H3 & H4 & H5 & H6).
  cbn [fst]. auto 10.
Qed.

Lemma cache_lookup_ext now k g g' :
  cache g' = cache g -> cache_lookup now k g' = cache_lookup now k g.
Proof. unfold cache_lookup. by intros ->. Qed.

Lemma cache_lookup_stale now now' k g :
  cache_lookup now k g = None -> now <= now' -> cache_lookup now' k g = None.
Proof.
  unfold cache_lookup. destruct (cache g !! k) as [[d ts]|]; [|done].
  destruct (Z.ltb_spec (now - ts) CACHE_DURATION); [done|]. intros _ Hle.
  destruct (Z.ltb_spec (now' - ts) CACHE_DURATION); [lia|done].
Qed.

Lemma registry_inv_init : registry_inv 0 (init (Data:=Data)).
Proof. split; intros k p; cbn; by rewrite lookup_empty. Qed.

Lemma registry_inv_keeps t now w w' :
  keeps w w' -> t <= now -> registry_inv t w -> registry_inv now w'.
Proof.
  intros [K1 K2 K3 K4 K5 K6] Ht [H1 H2]. split.
  - intros k p now' Hp Hn. rewrite K2 in Hp.
    rewrite (cache_lookup_ext _ _ _ _ K1). eapply H1; [done|lia].
  - intros k p Hp. rewrite K2 in Hp. rewrite K6. eauto.
Qed.

Lemma registry_inv_step t now ev w :
  registry_inv t w -> t <= now -> registry_inv now (step now ev w).
Proof.
  intros Hinv Ht. destruct ev as [e ps| |r|]; cbn [step].
  - destruct (fetchWithCache_store now e ps w) as (Hc & _ & _ & Hp).
    destruct Hinv as [H1 H2].
    destruct Hp as [(Hp & He)|(Hl & Hp & He)].
    + split.
      * intros k p now' Hk Hn. rewrite Hp in Hk.
        rewrite (cache_lookup_ext _ _ _ _ Hc). eapply H1; [done|lia].
      * intros k p Hk. rewrite Hp in Hk. rewrite He. eauto.
    + split.
      * intros k p now' Hk Hn'. rewrite Hp in Hk.
        rewrite (cache_lookup_ext _ _ _ _ Hc).
        destruct (decide (Url.cacheKey e ps = k)) as [<-|Hne].
        -- by eapply cache_lookup_stale.
        -- rewrite lookup_insert_ne in Hk by done. eapply H1; [done|lia].
      * intros k p Hk. rewrite Hp in Hk. rewrite He.
        destruct (decide (Url.cacheKey e ps = k)) as [<-|Hne].
        -- rewrite lookup_insert_eq in Hk. injection Hk as <-.
           exists (mkItem (Url.cacheKey e ps) e ps (nextPromise w)).
           split; [set_solver|done].
        -- rewrite lookup_insert_ne in Hk by done.
           destruct (H2 _ _ Hk) as (it & Hin & Hit1 & Hit2). exists it.
           split; [set_solver|done].
  - eapply registry_inv_keeps; [|exact Ht|exact Hinv].
    eapply keeps_trans; [apply on_timer_keeps|apply resume_thunk_keeps].
  - eapply (registry_inv_keeps now now); [apply resume_thunk_keeps|lia|].
    unfold on_response.
    destruct (phase w) as [|wake|wake|it|it d] eqn:Hph;
      try (by eapply (registry_inv_keeps t now); [apply keeps_refl|..]).
    destruct (thunk_after_fetch now it r (gov w)) as [g o] eqn:Hth.
    eapply (registry_inv_keeps now now); [apply complete_keeps|lia|].
    destruct Hinv as [H1 H2].
    destruct w as [[c q b l p rl d] ph n s lg]. wsimpl.
    unfold cache_lookup in *. wsimpl.
    destruct r; cbn [thunk_after_fetch] in Hth; injection Hth as <- <-;
      (split; wsimpl; [intros k p0 now' Hk Hn'|intros k p0 Hk]).
    all: unfold cache_lookup in *; wsimpl.
    all: try (eapply H1; [done|lia]).
    all: try (by eapply H2).
    + apply lookup_delete_Some in Hk as [Hne Hk]. eapply H1; [done|lia].
    + apply lookup_delete_Some in Hk as [Hne Hk]. by eapply H2.
    + apply lookup_delete_Some in Hk as [Hne Hk].
      rewrite lookup_insert_ne by done. eapply H1; [done|lia].
    + apply lookup_delete_Some in Hk as [Hne Hk]. by eapply H2.
  - destruct w as [[c q b l p rl d] ph n s lg]. unfold clearCache.
    split; wsimpl; intros k p0; by rewrite lookup_empty.
Qed.


(** The back-off fields of the governor never move. *)
Lemma backoff_step now ev w :
  rateLimitedUntil (gov w) = 0 /\ retryDelay (gov w) = 5000 ->
  rateLimitedUntil (gov (step now ev w)) = 0
  /\ retryDelay (gov (step now ev w)) = 5000.
Proof.
  intros [Hr Hd].
  assert (K : forall w', keeps w w' ->
            rateLimitedUntil (gov w') = 0 /\ retryDelay (gov w') = 5000).
  { intros w' [K1 K2 K3 K4 K5 K6]. split; [congruence|].
    destruct K5; congruence. }
  destruct ev as [e ps| |r|]; cbn [step].
  - destruct (fetchWithCache_store now e ps w) as (_ & H1 & H2 & _).
    split; [congruence|]. destruct H2; congruence.
  - apply K. eapply keeps_trans; [apply on_timer_keeps|apply resume_thunk_keeps].
  - pose proof (resume_thunk_keeps now (on_response now r w)) as [K1 K2 K3 K4 K5 K6].
    assert (rateLimitedUntil (gov (on_response now r w)) = 0
            /\ retryDelay (gov (on_response now r w)) = 5000) as [E1 E2].
    { unfold on_response. destruct (phase w); try done.
      destruct (thunk_after_fetch now it r (gov w)) as [g o] eqn:Hth.
      pose proof (complete_keeps now it o (on_gov (fun _ => g) w)) as [C1 C2 C3 C4 C5 C6].
      assert (rateLimitedUntil g = 0 /\ retryDelay g = 5000) as [G1 G2].
      { destruct w as [[c q b l p rl d] ph n s lg]. wsimpl. subst.
        destruct r; cbn [thunk_after_fetch] in Hth; injection Hth as <- <-; done. }
      assert (gov (on_gov (fun _ => g) w) = g) as Hg by (by destruct w).
      rewrite Hg in *. split; [congruence|]. destruct C5; congruence. }
    split; [congruence|]. destruct K5; congruence.
  - by destruct w as [[c q b l p rl d] ph n s lg].
Qed.

Lemma backoff_inert tr : forall w,
  rateLimitedUntil (gov w) = 0 /\ retryDelay (gov w) = 5000 ->
  rateLimitedUntil (gov (run tr w)) = 0 /\ retryDelay (gov (run tr w)) = 5000.
Proof.
  induction tr as [|[now ev] tr IH]; intros w H; [done|].
  cbn [run]. apply IH. by apply backoff_step.
Qed.

(** After a closure has ended, [processQueue] does not take the next one
    in the same run: the spacing wait comes first. *)
Lemma complete_spec now it o w :
  let w' := complete now it o w in
  cache (gov w') = cache (gov w)
  /\ pendingRequests (gov w') = pendingRequests (gov w)
  /\ requestQueue (gov w') = requestQueue (gov w)
  /\ lastRequestTime (gov w') = now
  /\ settled w' = <[q_promise it := o]> (settled w)
  /\ log w' = log w ++ [ObsComplete it now]
  /\ in_flight (phase w') = [].
Proof.
  cbv zeta. rewrite complete_unfold.
  set (w1 := observe _ _).
  pose proof (loop_head_drives now w1) as Hd.
  assert (E : cache (gov w1) = cache (gov w)
              /\ pendingRequests (gov w1) = pendingRequests (gov w)
              /\ requestQueue (gov w1) = requestQueue (gov w)
              /\ lastRequestTime (gov w1) = now
              /\ settled w1 = <[q_promise it := o]> (settled w)
              /\ log w1 = log w ++ [ObsComplete it now]).
  { subst w1. by destruct w as [[c q b l p r d] ph n s lg]. }
  destruct E as (E1 & E2 & E3 & E4 & E5 & E6).
  rewrite <- E1, <- E2, <- E3, <- E5, <- E6. rewrite E4 in Hd.
  destruct w1 as [[c q b l p r d] ph n s lg].
  destruct Hd as [|wake|wake Hw|it' rest Hk Hq]; wsimpl; try done.
  unfold MIN_REQUEST_INTERVAL in Hk. lia.
Qed.

(** What the closure does to the registry and to the cache, by the answer
    of the transport. *)
Lemma thunk_after_fetch_store now it r g :
  pendingRequests (thunk_after_fetch now it r g).1
  = match r with
    | HttpOk _ | HttpNotOk _ _ => delete (q_key it) (pendingRequests g)
    | _ => pendingRequests g
    end
  /\ cache (thunk_after_fetch now it r g).1
     = match r with
       | HttpOk data => <[q_key it := (data, now)]> (cache g)
       | _ => cache g
       end.
Proof. by destruct r. Qed.

(** One resumption is all there is to run: no closure is left returned and
    waiting. *)
Lemma resume_thunk_done now w it d :
  phase (resume_thunk now w) <> AwaitThunk it d.
Proof.
  unfold resume_thunk. destruct (phase w) as [| | | |it' d'] eqn:Hp;
    try (by rewrite Hp).
  destruct (complete_spec now it' (Resolved d') w) as (_ & _ & _ & _ & _ & _ & E).
  intros Hp'. by rewrite Hp' in E.
Qed.

(** The closure [queueRequest] pushes never throws, so the [catch] of
    [processQueue] is never entered. *)
Lemma wrapper_returns it (o : Outcome Data) w :
  (wrapper it o w).2 = Resolved tt.
Proof. by destruct o. Qed.

(** The answer of the transport settles the promise of the closure in
    flight with what the closure returns or throws. *)
Lemma response_settles now it r w :
  phase w = AwaitFetch it ->
  settled (step now (EvResponse r) w)
  = <[q_promise it := (thunk_after_fetch now it r (gov w)).2]> (settled w).
Proof.
  intros Hp. cbn [step]. unfold on_response. rewrite Hp.
  destruct (thunk_after_fetch now it r (gov w)) as [g o]. cbn [snd].
  destruct (complete_spec now it o (on_gov (fun _ => g) w))
    as (_ & _ & _ & _ & E5 & _ & E7).
  unfold resume_thunk.
  destruct (phase (complete now it o (on_gov (fun _ => g) w))); try done;
    rewrite E5; by destruct w.
Qed.

End WithPayload.

(** *** The closures alive and the registry *)

Lemma sublist_fmap_l {A B : Type} (f : A -> B) (l k : list A) :
  l `sublist_of` k -> (f <$> l) `sublist_of` (f <$> k).
Proof. induction 1; cbn; by constructor. Qed.

Section Closures.
Context {Data : Type}.
Implicit Types (w : World (Data:=Data)) (g : Fields (Data:=Data)).

Lemma drives_alive (ok : Prop) now w w' :
  drives ok now w w' -> alive w' = requestQueue (gov w).
Proof.
  destruct w as [[c q b l p r d] ph n s lg].
  intros [|wake|wake Hw|it rest Hk Hq]; unfold alive; wsimpl; try done.
  destruct (start_thunk_cases now it
      (observe (ObsDispatch it now)
         (on_gov (with_queue rest)
            (mkWorld (mkFields c q b l p r d) ph n s lg))))
      as [[dd ->] | ->]; wsimpl; by subst.
Qed.

Lemma queue_sublist_alive w : requestQueue (gov w) `sublist_of` alive w.
Proof. by apply sublist_inserts_l. Qed.

Lemma complete_alive now it o w :
  alive (complete now it o w) = requestQueue (gov w).
Proof.
  destruct (complete_spec now it o w) as (_ & _ & E3 & _ & _ & _ & E7).
  unfold alive. by rewrite E7, E3.
Qed.

Lemma resume_thunk_alive now w :
  alive (resume_thunk now w) `sublist_of` alive w.
Proof.
  unfold resume_thunk. destruct (phase w) eqn:Hp; try done.
  rewrite complete_alive. apply queue_sublist_alive.
Qed.

Lemma processQueue_alive now w :
  alive (processQueue now w) `sublist_of` alive w.
Proof.
  unfold processQueue. destruct (_ || _); [done|].
  rewrite (drives_alive _ _ _ _ (loop_head_drives now _)).
  replace (requestQueue (gov (on_gov (with_processing true) w)))
    with (requestQueue (gov w)) by (by destruct w as [[]]).
  apply queue_sublist_alive.
Qed.

Lemma on_timer_alive now w : alive (on_timer now w) `sublist_of` alive w.
Proof.
  unfold on_timer. destruct (phase w); try done.
  - rewrite (drives_alive _ _ _ _ (after_rate_wait_drives now w)).
    apply queue_sublist_alive.
  - rewrite (drives_alive _ _ _ _ (dispatch_drives now w)).
    apply queue_sublist_alive.
Qed.

(** How an event changes the closures alive, the registry and the next
    promise. *)
Lemma step_closures now ev w :
  let w' := step now ev w in
  (alive w' `sublist_of` alive w /\ nextPromise w' = nextPromise w
   /\ match ev with
      | EvCall _ _ | EvTimer =>
          pendingRequests (gov w') = pendingRequests (gov w)
      | EvResponse _ =>
          pendingRequests (gov w') = pendingRequests (gov w)
          \/ exists it, phase w = AwaitFetch it
               /\ alive w' `sublist_of` requestQueue (gov w)
               /\ pendingRequests (gov w')
                  = delete (q_key it) (pendingRequests (gov w))
      | EvClearCache => True
      end)
  \/ (exists endpoint params,
        let k := Url.cacheKey endpoint params in
        let it := mkItem k endpoint params (nextPromise w) in
        ev = EvCall endpoint params
        /\ pendingRequests (gov w) !! k = None
        /\ alive w' `sublist_of` alive w ++ [it]
        /\ nextPromise w' = S (nextPromise w)
        /\ pendingRequests (gov w') = <[k := nextPromise w]> (pendingRequests (gov w))).
Proof.
  cbv zeta. destruct ev as [e ps| |r|]; cbn [step].
  - unfold fetchWithCache.
    destruct (cache_lookup now (Url.cacheKey e ps) (gov w)) eqn:Hc;
      [by left|].
    destruct (pendingRequests (gov w) !! Url.cacheKey e ps) eqn:Hp;
      [by left|].
    right. exists e, ps. cbv zeta. split; [done|]. split; [done|].
    destruct (fetchWithCache_miss now e ps w Hc Hp)
      as (w' & Hf & _ & _ & _ & H4 & _ & H6).
    unfold fetchWithCache in Hf. rewrite Hc, Hp in Hf.
    revert Hf H4 H6. generalize (Url.cacheKey e ps). intros k Hf H4 H6.
    unfold queueRequest in *. cbn [fst].
    injection Hf as Hf. rewrite Hf. split; [|done].
    rewrite <- Hf.
    etrans; [apply resume_thunk_alive|].
    set (w0 := mkWorld _ _ _ _ _).
    replace (alive (on_gov _ (processQueue now w0)))
      with (alive (processQueue now w0))
      by (by destruct (processQueue now w0) as [[]]).
    etrans; [apply processQueue_alive|].
    subst w0. destruct w as [[c q b l p rl d] ph n s lg]. unfold alive. wsimpl.
    by rewrite app_assoc.
  - left. pose proof (on_timer_keeps now w) as K1.
    pose proof (resume_thunk_keeps now (on_timer now w)) as K2.
    destruct (keeps_trans _ _ _ K1 K2) as [_ Kp Kn _ _ _].
    repeat split; try done.
    etrans; [apply resume_thunk_alive|apply on_timer_alive].
  - left.
    pose proof (resume_thunk_keeps now (on_response now r w)) as [_ Kp Kn _ _ _].
    pose proof (resume_thunk_alive now (on_response now r w)) as Ha.
    rewrite Kp, Kn. unfold on_response in *.
    destruct (phase w) as [| | |it|] eqn:Hph; try (by repeat split; auto).
    destruct (thunk_after_fetch now it r (gov w)) as [g o] eqn:Hth.
    pose proof (complete_keeps now it o (on_gov (fun _ => g) w)) as [_ Cp Cn _ _ _].
    rewrite complete_alive in Ha.
    replace (requestQueue (gov (on_gov (fun _ => g) w)))
      with (requestQueue g) in Ha by (by destruct w).
    replace (pendingRequests (gov (on_gov (fun _ => g) w)))
      with (pendingRequests g) in Cp by (by destruct w).
    replace (nextPromise (on_gov (fun _ => g) w))
      with (nextPromise w) in Cn by (by destruct w).
    assert (Hq : requestQueue g = requestQueue (gov w)).
    { destruct w as [[c q b l p rl d] ph n s lg].
      destruct r; cbn [thunk_after_fetch] in Hth; by injection Hth as <- <-. }
    rewrite Hq in Ha. rewrite Cp, Cn.
    split; [etrans; [exact Ha|apply queue_sublist_alive]|]. split; [done|].
    destruct w as [[c q b l p rl d] ph n s lg]. wsimpl.
    destruct r; cbn [thunk_after_fetch] in Hth; injection Hth as <- <-; wsimpl;
      first [by left | right; by exists it].
  - left. by destruct w as [[c q b l p rl d] ph n s lg].
Qed.

Lemma closure_inv_init : closure_inv (init (Data:=Data)).
Proof. split; cbn; [constructor|]. intros it Hin. by apply elem_of_nil in Hin. Qed.

Lemma closure_inv_step now ev w :
  closure_inv w -> closure_inv (step now ev w).
Proof.
  intros [Hn Hb].
  destruct (step_closures now ev w)
    as [(Ha & Hnext & _)|(e & ps & _ & _ & Ha & Hnext & _)].
  - split.
    + eapply sublist_NoDup; [exact Hn|]. by apply sublist_fmap_l.
    + intros it Hin. rewrite Hnext. apply Hb. by eapply elem_of_sublist.
  - split.
    + eapply sublist_NoDup; [|apply sublist_fmap_l; exact Ha].
      rewrite fmap_app. apply NoDup_app. split; [done|]. split.
      * intros p Hp Hp'. apply list_elem_of_fmap in Hp as (it & -> & Hin).
        apply Hb in Hin. cbn in Hp'. apply list_elem_of_singleton in Hp'. lia.
      * cbn. apply NoDup_singleton.
    + intros it Hin. rewrite Hnext.
      apply (elem_of_sublist _ _ _ Hin) in Ha.
      apply elem_of_app in Ha as [Ha|Ha].
      * apply Hb in Ha. lia.
      * apply list_elem_of_singleton in Ha. subst it. cbn. lia.
Qed.


(** Two closures alive and registered for one key are one closure. *)
Lemma registered_unique w i j it1 it2 :
  closure_inv w ->
  alive w !! i = Some it1 -> alive w !! j = Some it2 ->
  registered w it1 -> registered w it2 ->
  q_key it1 = q_key it2 -> i = j.
Proof.
  intros [Hn _] H1 H2 R1 R2 Hk. unfold registered in *.
  rewrite Hk, R2 in R1. injection R1 as Hp.
  eapply (NoDup_lookup _ i j (q_promise it1) Hn).
  - by rewrite list_lookup_fmap, H1.
  - rewrite list_lookup_fmap, H2. cbn. congruence.
Qed.

Lemma registered_step now ev w :
  match ev with EvClearCache => false | _ => true end = true ->
  closure_inv w ->
  (forall it, it ∈ alive w -> registered w it) ->
  forall it, it ∈ alive (step now ev w) -> registered (step now ev w) it.
Proof.
  intros Hev Hci Hreg it Hin. unfold registered in *.
  destruct (step_closures now ev w)
    as [(Ha & Hnext & Hp)|(e & ps & -> & Hnone & Ha & Hnext & Hp)].
  - destruct ev as [e ps| |r|]; try done.
    + rewrite Hp. apply Hreg. by eapply elem_of_sublist.
    + rewrite Hp. apply Hreg. by eapply elem_of_sublist.
    + destruct Hp as [Hp|(it0 & Hph & Hq & Hp)].
      * rewrite Hp. apply Hreg. by eapply elem_of_sublist.
      * rewrite Hp. apply (elem_of_sublist _ _ _ Hin) in Hq.
        apply list_elem_of_lookup in Hq as [j Hj].
        assert (Hal : alive w = it0 :: requestQueue (gov w)).
        { unfold alive. by rewrite Hph. }
        assert (H0 : alive w !! 0%nat = Some it0) by (by rewrite Hal).
        assert (HS : alive w !! S j = Some it) by (by rewrite Hal).
        assert (R0 : registered w it0).
        { apply Hreg. rewrite Hal. by left. }
        assert (R1 : registered w it).
        { apply Hreg. by eapply list_elem_of_lookup_2. }
        rewrite lookup_delete_ne; [exact R1|].
        intros Hk.
        by pose proof (registered_unique w 0 (S j) it0 it Hci H0 HS R0 R1 Hk).
  - rewrite Hp. apply (elem_of_sublist _ _ _ Hin) in Ha.
    apply elem_of_app in Ha as [Ha|Ha].
    + specialize (Hreg _ Ha).
      rewrite lookup_insert_ne; [done|]. intros Hk. cbv zeta in Hnone.
      rewrite Hk in Hnone. congruence.
    + apply list_elem_of_singleton in Ha. subst it. cbn [q_key q_promise].
      by rewrite lookup_insert_eq.
Qed.

Lemma registered_run tr : forall w,
  never_cleared tr = true -> closure_inv w ->
  (forall it, it ∈ alive w -> registered w it) ->
  forall it, it ∈ alive (run tr w) -> registered (run tr w) it.
Proof.
  induction tr as [|[now ev] tr IH]; intros w Hnc Hci Hreg; [done|].
  cbn [run never_cleared forallb snd] in *.
  apply andb_prop in Hnc as [Hev Hnc].
  apply IH; [done|by apply closure_inv_step|].
  by apply registered_step.
Qed.

End Closures.

(** C3: queued calls leave the queue in the order they entered it, one at
    a time (whatever was dispatched has completed, except at most the one
    closure in flight, and every network call belongs to a dispatched
    closure), and two successive dispatches are at least 2000 ms apart,
    on every run whose clock does not go back and whose timers are not
    early. *)
Theorem dispatch_fifo_serial_spaced {Data : Type}
  (tr : list (Z * Event (Data:=Data))) :
  well_timed 0 tr init = true ->
  let w := run tr init in
  enqueued (log w) = dispatched (log w) ++ requestQueue (gov w)
  /\ dispatched (log w) = completed (log w) ++ in_flight (phase w)
  /\ (length (in_flight (phase w)) <= 1)%nat
  /\ net_calls (log w) `sublist_of` dispatched (log w)
  /\ forall i a b,
       dispatch_times (log w) !! i = Some a ->
       dispatch_times (log w) !! S i = Some b ->
       a + 2000 <= b.
Proof.
  intros Hwt. cbv zeta.
  destruct (sched_inv_run tr 0 init sched_inv_init Hwt) as [[H1 H2 H3 H4 H5 H6] _ _].
  repeat split; try done.
  - destruct (phase (run tr init)); cbn; lia.
  - intros i a b Ha Hb. by eapply (spaced_lookup _ i a b H3).
Qed.

Lemma dispatch_fifo_serial_spaced_witness :
  let w := run three_calls init in
  enqueued (log w) = dispatched (log w) ++ requestQueue (gov w)
  /\ dispatched (log w) = completed (log w) ++ in_flight (phase w)
  /\ (length (in_flight (phase w)) <= 1)%nat
  /\ net_calls (log w) `sublist_of` dispatched (log w)
  /\ forall i a b,
       dispatch_times (log w) !! i = Some a ->
       dispatch_times (log w) !! S i = Some b ->
       a + 2000 <= b.
Proof. apply (dispatch_fifo_serial_spaced three_calls). reflexivity. Defined.

Example three_calls_times :
  dispatch_times (log (run three_calls init)) = [5000; 7300; 9450]
  /\ map q_endpoint (dispatched (log (run three_calls init)))
     = ["/stock"; "/trending"; "/NSE_most_active"].
Proof. by vm_compute. Qed.



(** After [clearCache] a closure in flight is no longer registered: the
    next call for its key queues a second closure. *)
Example two_closures_after_clearCache :
  let w := run [(5000, EvCall "/trending" []); (5001, EvClearCache);
                (5002, EvCall "/trending" [])] (init (Data:=nat)) in
  q_key <$> alive w = ["/trending?"; "/trending?"]
  /\ q_promise <$> alive w = [0%nat; 1%nat]
  /\ pendingRequests (gov w) !! "/trending?" = Some 1%nat.
Proof. by vm_compute. Qed.


Section Calls.
Context {Data : Type}.
Implicit Types (w : World (Data:=Data)) (g : Fields (Data:=Data)).

Lemma start_thunk_miss now it w :
  cache_lookup now (q_key it) (gov w) = None ->
  start_thunk now it w
  = with_phase (AwaitFetch it) (observe (ObsNetCall it now) w).
Proof. unfold start_thunk. by intros ->. Qed.

(** C10: when a closure is taken off the queue while the cache holds a
    valid entry for its key, its promise is resolved with the cached
    payload and no network call is made. *)
Theorem queued_item_served_from_cache now w it rest d :
  requestQueue (gov w) = it :: rest ->
  cache_lookup now (q_key it) (gov w) = Some d ->
  let w' := resume_thunk now (dispatch now w) in
  settled w' = <[q_promise it := Resolved d]> (settled w)
  /\ net_calls (log w') = net_calls (log w)
  /\ dispatched (log w') = dispatched (log w) ++ [it]
  /\ completed (log w') = completed (log w) ++ [it]
  /\ requestQueue (gov w') = rest
  /\ cache (gov w') = cache (gov w).
Proof.
  intros Hq Hc. cbv zeta. unfold dispatch. rewrite Hq.
  set (w1 := observe _ _).
  assert (Hc1 : cache_lookup now (q_key it) (gov w1) = Some d).
  { subst w1. by destruct w as [[c q b l p r dl] ph n s lg]. }
  unfold start_thunk. rewrite Hc1.
  unfold resume_thunk. cbn [phase with_phase].
  destruct (complete_spec now it (Resolved d) (with_phase (AwaitThunk it d) w1))
    as (E1 & E2 & E3 & E4 & E5 & E6 & E7).
  rewrite E1, E3, E5, E6. subst w1.
  destruct w as [[c q b l p r dl] ph n s lg]. wsimpl. log_simpl. done.
Qed.

(** A call that misses and joins nothing while the dispatcher is idle:
    its closure calls the network at once, or the spacing timer is set
    and the closure calls the network when the timer fires. *)
Lemma miss_on_idle_dispatcher now endpoint params w :
  let key := Url.cacheKey endpoint params in
  let it := mkItem key endpoint params (nextPromise w) in
  cache_lookup now key (gov w) = None ->
  pendingRequests (gov w) !! key = None ->
  phase w = Idle -> isProcessingQueue (gov w) = false ->
  requestQueue (gov w) = [] -> rateLimitedUntil (gov w) <= now ->
  let w' := (fetchWithCache now endpoint params w).1 in
  if now - lastRequestTime (gov w) <? MIN_REQUEST_INTERVAL
  then (exists wake, phase w' = WaitSpacing wake)
       /\ net_calls (log w') = net_calls (log w)
       /\ forall now', cache_lookup now' key (gov w) = None ->
            net_calls (log (step now' EvTimer w')) = net_calls (log w) ++ [it]
  else phase w' = AwaitFetch it
       /\ net_calls (log w') = net_calls (log w) ++ [it].
Proof.
  cbv zeta. unfold fetchWithCache. generalize (Url.cacheKey endpoint params).
  intros k Hc Hp Hph Hb Hq Hr. rewrite Hc, Hp.
  destruct w as [[c q b l p r d] ph n s lg]. wsimpl. subst ph b q.
  unfold queueRequest, processQueue. wsimpl. cbn [app orb].
  unfold loop_head. wsimpl.
  rewrite (proj2 (Z.ltb_ge now r) Hr).
  unfold after_rate_wait. wsimpl.
  destruct (now - l <? MIN_REQUEST_INTERVAL).
  - wsimpl. unfold resume_thunk. wsimpl. split; [by eexists|].
    split; [by log_simpl|].
    intros now' Hc'. cbn [step]. unfold on_timer. wsimpl.
    unfold dispatch. wsimpl. unfold start_thunk.
    unfold cache_lookup in *. wsimpl. rewrite Hc'.
    wsimpl. unfold resume_thunk. wsimpl.
    log_simpl. done.
  - unfold dispatch. wsimpl. unfold start_thunk.
    unfold cache_lookup in *. wsimpl. rewrite Hc. wsimpl.
    unfold resume_thunk. wsimpl. log_simpl. done.
Qed.

(** The same call while the dispatcher is busy: the closure is put behind
    the queue and nothing else happens. *)
Lemma miss_on_busy_dispatcher now endpoint params w :
  let key := Url.cacheKey endpoint params in
  let it := mkItem key endpoint params (nextPromise w) in
  cache_lookup now key (gov w) = None ->
  pendingRequests (gov w) !! key = None ->
  isProcessingQueue (gov w) = true ->
  (forall it' d, phase w <> AwaitThunk it' d) ->
  let w' := (fetchWithCache now endpoint params w).1 in
  requestQueue (gov w') = requestQueue (gov w) ++ [it]
  /\ phase w' = phase w
  /\ net_calls (log w') = net_calls (log w).
Proof.
  cbv zeta. unfold fetchWithCache. generalize (Url.cacheKey endpoint params).
  intros k Hc Hp Hb Hph. rewrite Hc, Hp.
  destruct w as [[c q b l p r d] ph n s lg]. wsimpl. subst b.
  unfold queueRequest, processQueue. wsimpl. cbn [orb].
  unfold resume_thunk. wsimpl.
  destruct ph as [| | |it0|it0 d0]; wsimpl; log_simpl; try done.
  by destruct (Hph it0 d0).
Qed.

(** C5, amended: a call finds the entry stored at [ts] while less than the
    cache duration has passed, and then returns its payload and changes
    nothing.  From then on the entry is a miss and stays in the cache.  A
    call for a key that is registered joins the registered promise and
    nothing is queued or fetched; otherwise a new closure is queued and
    registered: with the dispatcher idle it calls the network at once, or
    when the spacing timer fires; with the dispatcher busy it waits in the
    queue; and whenever a closure for the key is dispatched with the entry
    still there, it calls the network. *)
Theorem cache_validity_window now endpoint params w d ts :
  cache (gov w) !! Url.cacheKey endpoint params = Some (d, ts) ->
  (now - ts < CACHE_DURATION ->
   fetchWithCache now endpoint params w = (w, Hit d))
  /\ (CACHE_DURATION <= now - ts ->
      let key := Url.cacheKey endpoint params in
      exists w' p,
        fetchWithCache now endpoint params w = (w', Await p)
        /\ cache (gov w') = cache (gov w)
        /\ (pendingRequests (gov w) !! key = Some p /\ w' = w
            \/ pendingRequests (gov w) !! key = None /\ p = nextPromise w
               /\ enqueued (log w')
                  = enqueued (log w) ++ [mkItem key endpoint params p]
               /\ (phase w = Idle -> isProcessingQueue (gov w) = false ->
                   requestQueue (gov w) = [] -> rateLimitedUntil (gov w) <= now ->
                   if now - lastRequestTime (gov w) <? MIN_REQUEST_INTERVAL
                   then (exists wake, phase w' = WaitSpacing wake)
                        /\ net_calls (log w') = net_calls (log w)
                        /\ forall now', now <= now' ->
                             net_calls (log (step now' EvTimer w'))
                             = net_calls (log w) ++ [mkItem key endpoint params p]
                   else phase w' = AwaitFetch (mkItem key endpoint params p)
                        /\ net_calls (log w')
                           = net_calls (log w) ++ [mkItem key endpoint params p])
               /\ (isProcessingQueue (gov w) = true ->
                   (forall it d', phase w <> AwaitThunk it d') ->
                   requestQueue (gov w')
                   = requestQueue (gov w) ++ [mkItem key endpoint params p]
                   /\ phase w' = phase w
                   /\ net_calls (log w') = net_calls (log w)))
        /\ forall now' it w'',
             now <= now' -> q_key it = key ->
             cache (gov w'') = cache (gov w) ->
             start_thunk now' it w''
             = with_phase (AwaitFetch it) (observe (ObsNetCall it now') w'')).
Proof.
  intros Hc. split.
  - intros Hlt. unfold fetchWithCache, cache_lookup. rewrite Hc.
    destruct (Z.ltb_spec (now - ts) CACHE_DURATION); [done|lia].
  - intros Hge key.
    assert (Hmiss : forall now', now <= now' ->
              cache_lookup now' key (gov w) = None).
    { intros now' Hn. unfold cache_lookup. subst key. rewrite Hc.
      destruct (Z.ltb_spec (now' - ts) CACHE_DURATION); [lia|done]. }
    assert (Hthunk : forall now' it w'',
             now <= now' -> q_key it = key ->
             cache (gov w'') = cache (gov w) ->
             start_thunk now' it w''
             = with_phase (AwaitFetch it) (observe (ObsNetCall it now') w'')).
    { intros now' it w'' Hn Hk Hcw. apply start_thunk_miss.
      rewrite Hk, (cache_lookup_ext _ _ _ _ Hcw). by apply Hmiss. }
    destruct (pendingRequests (gov w) !! key) as [p|] eqn:Hpend.
    + exists w, p. unfold fetchWithCache. fold key.
      rewrite (Hmiss now), Hpend by lia. repeat split; auto.
    + destruct (fetchWithCache_miss now endpoint params w)
        as (w' & Hf & H1 & H2 & H3 & H4 & H5 & H6); [apply Hmiss; lia|done|].
      assert (Hw' : w' = (fetchWithCache now endpoint params w).1)
        by (by rewrite Hf).
      exists w', (nextPromise w).
      split; [done|]. split; [done|]. split; [|done]. right.
      split; [done|]. split; [done|]. split; [done|]. split.
      * intros Hph Hb Hq Hr.
        pose proof (miss_on_idle_dispatcher now endpoint params w
                      (Hmiss now (Z.le_refl _)) Hpend Hph Hb Hq Hr) as Hidle.
        cbv zeta in Hidle. rewrite <- Hw' in Hidle.
        destruct (now - lastRequestTime (gov w) <? MIN_REQUEST_INTERVAL).
        -- destruct Hidle as (Hwake & Hnet & Htimer).
           split; [done|]. split; [done|].
           intros now' Hn. apply Htimer. by apply Hmiss.
        -- done.
      * intros Hb Hph. rewrite Hw'.
        by apply (miss_on_busy_dispatcher now endpoint params w
                    (Hmiss now (Z.le_refl _)) Hpend Hb Hph).
Qed.

(** C9, amended: [clearCache] empties the cache and the registry and puts
    the back-off fields to 0 and 5000.  After it no lock-out is in effect,
    and a call for any key is a miss that joins nothing: a new closure is
    queued for it.  When the dispatcher was idle, that closure calls the
    network, at once or after the spacing wait; when it was busy, the
    closure waits behind the queue and no network call is made for it
    yet. *)
Theorem clearCache_resets w :
  let w' := clearCache w in
  cache (gov w') = ∅
  /\ pendingRequests (gov w') = ∅
  /\ rateLimitedUntil (gov w') = 0
  /\ retryDelay (gov w') = 5000
  /\ (forall now, 0 <= now -> (now <? rateLimitedUntil (gov w')) = false)
  /\ (forall now endpoint params,
        let it := mkItem (Url.cacheKey endpoint params) endpoint params
                    (nextPromise w) in
        exists w'',
          fetchWithCache now endpoint params w' = (w'', Await (nextPromise w))
          /\ enqueued (log w'') = enqueued (log w) ++ [it]
          /\ (phase w = Idle -> isProcessingQueue (gov w) = false ->
              requestQueue (gov w) = [] -> 0 <= now ->
              if now - lastRequestTime (gov w) <? MIN_REQUEST_INTERVAL
              then (exists wake, phase w'' = WaitSpacing wake)
                   /\ forall now', net_calls (log (step now' EvTimer w''))
                                   = net_calls (log w) ++ [it]
              else phase w'' = AwaitFetch it
                   /\ net_calls (log w'') = net_calls (log w) ++ [it])
          /\ (isProcessingQueue (gov w) = true ->
              (forall it' d, phase w <> AwaitThunk it' d) ->
              requestQueue (gov w'') = requestQueue (gov w) ++ [it]
              /\ phase w'' = phase w
              /\ net_calls (log w'') = net_calls (log w))).
Proof.
  destruct w as [[c q b l p r d] ph n s lg]. cbv zeta. unfold clearCache at 1 2 3 4 5.
  wsimpl. do 4 (split; [done|]). split.
  { intros now Hn. by apply Z.ltb_ge. }
  intros now e ps.
  set (W := clearCache _).
  assert (Hc : cache_lookup now (Url.cacheKey e ps) (gov W) = None).
  { unfold cache_lookup, W, clearCache. wsimpl. by rewrite lookup_empty. }
  assert (Hp : pendingRequests (gov W) !! Url.cacheKey e ps = None).
  { unfold W, clearCache. wsimpl. by rewrite lookup_empty. }
  destruct (fetchWithCache_miss now e ps W Hc Hp)
    as (w'' & Hf & H1 & H2 & H3 & H4 & H5 & H6).
  exists w''. split; [exact Hf|]. split; [exact H5|].
  assert (Hw : w'' = (fetchWithCache now e ps W).1) by (by rewrite Hf).
  split.
  - intros -> -> -> Hn.
    clear Hf H1 H2 H3 H4 H5 H6.
    unfold fetchWithCache in Hw. rewrite Hc, Hp in Hw.
    generalize dependent (Url.cacheKey e ps). intros k _ _ Hw.
    unfold queueRequest, W, clearCache, processQueue in Hw. wsimpl.
    cbn [app orb] in Hw. unfold loop_head in Hw. wsimpl.
    rewrite (proj2 (Z.ltb_ge now 0) Hn) in Hw.
    unfold after_rate_wait in Hw. wsimpl.
    destruct (now - l <? MIN_REQUEST_INTERVAL).
    + wsimpl. unfold resume_thunk in Hw. wsimpl. subst w''. split; [by eexists|].
      intros now'. cbn [step]. unfold on_timer. wsimpl.
      unfold dispatch. wsimpl. unfold start_thunk, cache_lookup. wsimpl.
      rewrite lookup_empty. wsimpl. unfold resume_thunk. wsimpl.
      log_simpl. done.
    + unfold dispatch in Hw. wsimpl. unfold start_thunk, cache_lookup in Hw.
      wsimpl. rewrite lookup_empty in Hw. wsimpl.
      unfold resume_thunk in Hw. wsimpl. subst w''. wsimpl. log_simpl. done.
  - intros Hb Hph. rewrite Hw.
    apply (miss_on_busy_dispatcher now e ps W Hc Hp); [exact Hb|exact Hph].
Qed.

End Calls.

(** C2, at a transport error: [fetch] throws for the only queued closure.
    Its promise is rejected and the dispatcher is idle again, yet the key
    is still in the registry, so the next call for the key, however late,
    is handed the rejected promise and nothing is fetched. *)
Theorem transport_error_keeps_registration :
  let w := run transport_error init in
  phase w = Idle
  /\ settled w !! 0%nat = Some (Rejected (Error "Failed to fetch"))
  /\ pendingRequests (gov w) !! "/trending?" = Some 0%nat
  /\ fetchWithCache 900000 "/trending" [] w = (w, Await 0%nat).
Proof. by vm_compute. Qed.

(** The same closure, answered with a status that is not ok: the key
    leaves the registry. *)
Example http_error_clears_registration :
  let w := run [(5000, EvCall "/trending" []);
                (5100, EvResponse (HttpNotOk 500 "down"))]
               (init (Data:=nat)) in
  pendingRequests (gov w) !! "/trending?" = None.
Proof. by vm_compute. Qed.

(** C4, at a rate-limit failure: the closure is answered with status 429.
    The error, whose message contains 429, reaches the caller's promise,
    but [processQueue] sees the closure return normally: no lock-out is
    set and the retry delay stays 5000. *)
Theorem rate_limit_failure_sets_no_backoff :
  let w := run rate_limited init in
  settled w !! 0%nat
  = Some (Rejected (Error "API request failed: 429 - Too Many Requests"))
  /\ includes "429" "API request failed: 429 - Too Many Requests" = true
  /\ rateLimitedUntil (gov w) = 0
  /\ retryDelay (gov w) = 5000
  /\ rateLimitedUntil (gov w) <> 5100 + 5000
  /\ retryDelay (gov w) <> Z.min (5000 * 2) 60000.
Proof. by vm_compute. Qed.

Lemma queued_item_served_from_cache_witness :
  let w := run served_twice init in
  let w' := resume_thunk 7100 (dispatch 7100 w) in
  settled w' = <[1%nat := Resolved 7%nat]> (settled w)
  /\ net_calls (log w') = net_calls (log w)
  /\ dispatched (log w') = dispatched (log w) ++ [mkItem "/trending?" "/trending" [] 1]
  /\ completed (log w') = completed (log w) ++ [mkItem "/trending?" "/trending" [] 1]
  /\ requestQueue (gov w') = []
  /\ cache (gov w') = cache (gov w).
Proof.
  apply (queued_item_served_from_cache 7100 (run served_twice init)
           (mkItem "/trending?" "/trending" [] 1) [] 7%nat); reflexivity.
Defined.

Lemma cache_validity_window_witness :
  let w := run cached_once init in
  fetchWithCache 305099 "/trending" [] w = (w, Hit 7%nat)
  /\ exists w' p,
       fetchWithCache 305100 "/trending" [] w = (w', Await p)
       /\ cache (gov w') = cache (gov w)
       /\ net_calls (log w')
          = net_calls (log w) ++ [mkItem "/trending?" "/trending" [] p].
Proof.
  cbv zeta.
  destruct (cache_validity_window 305099 "/trending" [] (run cached_once init)
              7%nat 5100 eq_refl) as [Hhit _].
  destruct (cache_validity_window 305100 "/trending" [] (run cached_once init)
              7%nat 5100 eq_refl) as [_ Hmiss].
  split.
  - apply Hhit. reflexivity.
  - destruct Hmiss as (w' & p & Hf & Hc & [[Hp _]|(_ & _ & _ & Hidle & _)] & _);
      [discriminate|discriminate|].
    exists w', p. split; [exact Hf|]. split; [exact Hc|].
    apply (Hidle eq_refl eq_refl eq_refl). discriminate.
Defined.

(** C5, as stated, fails: a lookup after the window need not trigger a
    network request.  On [stale_and_in_flight] the entry stored at 5100 is
    stale and a request for its key is in flight; the lookup at 305101
    joins that request: it changes nothing, and once the request is
    answered the log holds the two network calls it held before. *)
Lemma stale_lookup_joins_pending_request :
  let w := run stale_and_in_flight init in
  cache (gov w) !! "/trending?" = Some (7%nat, 5100)
  /\ CACHE_DURATION <= 305101 - 5100
  /\ fetchWithCache 305101 "/trending" [] w = (w, Await 1%nat)
  /\ net_calls (log w)
     = [mkItem "/trending?" "/trending" [] 0; mkItem "/trending?" "/trending" [] 1]
  /\ let w' := run [(305101, EvCall "/trending" []);
                    (305200, EvResponse (HttpOk 8%nat))] w in
     phase w' = Idle /\ requestQueue (gov w') = []
     /\ net_calls (log w') = net_calls (log w)
     /\ settled w' !! 1%nat = Some (Resolved 8%nat).
Proof. by vm_compute. Qed.

(** C9, as stated, fails: a request repeated right after [clearCache] need
    not trigger a network call.  On [cleared_in_flight] the response was
    cached, [clearCache] is called while a later request for the key is in
    flight, and the repeated call queues a third closure; the answer to
    the request in flight fills the cache again, and the third closure is
    served from it: three closures end, two network calls were made, both
    before [clearCache]. *)
Lemma repeated_call_after_clearCache_not_fetched :
  let cached := run cached_once init in
  let cleared := run (take 4 cleared_in_flight) init in
  let w := run cleared_in_flight init in
  well_timed 0 cleared_in_flight init = true
  /\ cache (gov cached) !! "/trending?" = Some (7%nat, 5100)
  /\ cache (gov cleared) = ∅ /\ pendingRequests (gov cleared) = ∅
  /\ (fetchWithCache 305102 "/trending" [] cleared).2 = Await 2%nat
  /\ requestQueue (gov (fetchWithCache 305102 "/trending" [] cleared).1)
     = [mkItem "/trending?" "/trending" [] 2]
  /\ phase w = Idle /\ requestQueue (gov w) = []
  /\ settled w !! 2%nat = Some (Resolved 8%nat)
  /\ completed (log w)
     = [mkItem "/trending?" "/trending" [] 0; mkItem "/trending?" "/trending" [] 1;
        mkItem "/trending?" "/trending" [] 2]
  /\ net_calls (log w)
     = [mkItem "/trending?" "/trending" [] 0; mkItem "/trending?" "/trending" [] 1]
  /\ net_calls (log w) = net_calls (log cleared).
Proof. by vm_compute. Qed.

End GovernorFacts.

(** * The public operations *)

Module ClientFacts.
Import Governor Js Client Examples.

Lemma catch_all_resolves {A : Type} (body : Outcome (list A)) :
  exists l, catch_all body = Resolved l
            /\ ((exists e, body = Rejected e) -> l = []).
Proof.
  destruct body as [l|e]; cbn.
  - exists l. split; [done|]. by intros [e [=]].
  - by exists [].
Qed.

Lemma bind_rejected {A B : Type} (f : A -> Outcome B) (m : Outcome A) e :
  m = Rejected e -> (x ← m; f x) = Rejected e.
Proof. by intros ->. Qed.

(** C6: each of the four data operations resolves, whatever the awaited
    fetch gives; it resolves to the empty list when the fetch is rejected
    and when its own code throws on the payload.  The promise of the
    closure in flight is rejected for every answer of the transport but an
    ok status with a body that parses. *)
Theorem public_operations_never_reject {N : Numbers} :
  (forall name fetched, exists l,
      getStockData name fetched = Resolved l
      /\ ((exists e, (data ← fetched; stock_body name data) = Rejected e)
          -> l = []))
  /\ (forall fetched, exists l,
      getTrendingStocks fetched = Resolved l
      /\ ((exists e, (data ← fetched; trending_body data) = Rejected e)
          -> l = []))
  /\ (forall fetched, exists l,
      getMostActiveStocks fetched = Resolved l
      /\ ((exists e, (data ← fetched; most_active_body data) = Rejected e)
          -> l = []))
  /\ (forall fetched, exists l,
      getHistoricalData fetched = Resolved l
      /\ ((exists e, (data ← fetched; historical_body data) = Rejected e)
          -> l = []))
  /\ (forall name period e,
        getStockData name (Rejected e) = Resolved []
        /\ getTrendingStocks (Rejected e) = Resolved []
        /\ getMostActiveStocks (Rejected e) = Resolved []
        /\ getHistoricalData (Rejected e) = Resolved []
        /\ Client.historical_request name period
           = ("/historical_data",
              [("stock_name", name); ("period", period); ("filter", "price")]))
  /\ (forall now it (r : Response (Data:=Val)) w,
        phase w = AwaitFetch it ->
        match r with
        | HttpOk data =>
            settled (step now (EvResponse r) w) !! q_promise it
            = Some (Resolved data)
        | _ =>
            exists e,
              settled (step now (EvResponse r) w) !! q_promise it
              = Some (Rejected e)
        end).
Proof.
  do 4 (split; [intros; apply catch_all_resolves|]).
  split; [done|].
  intros now it r w Hp. rewrite (GovernorFacts.response_settles now it r w Hp).
  rewrite lookup_insert_eq. destruct r; cbn [thunk_after_fetch snd]; eauto.
Qed.

(** The transport throws for [getTrendingStocks] on a new client: the
    operation resolves to the empty list. *)
Example trending_survives_transport_error :
  let (w1, r) := fetchWithCache (Data:=Val (N:=Integers)) 5000 "/trending" []
                   init in
  let w2 := step 5100 (EvResponse (FetchThrows (Error "Failed to fetch"))) w1 in
  option_map getTrendingStocks (awaited w2 r) = Some (Resolved []).
Proof. reflexivity. Qed.

(** A payload on which the code of [getTrendingStocks] throws. *)
Example trending_throws_on_null_element :
  trending_body gainer_null
  = Rejected (Error "Cannot read properties of null")
  /\ getTrendingStocks (Resolved gainer_null) = Resolved [].
Proof. split; reflexivity. Qed.

(** C8, as stated, fails: a price that is not numeric gives [NaN], not 0. *)
Lemma text_price_is_not_zero :
  exists c,
    getTrendingStocks (Resolved gainer_with_text_price) = Resolved [c]
    /\ cd_value c = NaN /\ cd_value c <> zero.
Proof. eexists. split; [reflexivity|]. by split. Qed.

Section WithNumbers.
Context {N : Numbers}.

Lemma number_or_zero_falsy (x : Val) :
  truthy x = false -> number_or_zero x = zero.
Proof. unfold number_or_zero, or_else. by intros ->. Qed.

Lemma number_or_zero_number (n : num) :
  num_truthy n = true -> number_or_zero (VNum n) = n.
Proof. unfold number_or_zero, or_else. cbn [truthy]. by intros ->. Qed.

Lemma card_fields sk nk ty (s : Val) c :
  card sk nk ty s = Resolved c ->
  exists sym nm price chg pct vol,
    get s sk = Resolved sym /\ get s nk = Resolved nm
    /\ get s "price" = Resolved price /\ get s "net_change" = Resolved chg
    /\ get s "percent_change" = Resolved pct /\ get s "volume" = Resolved vol
    /\ c = mkCard (or_else sym (VStr EmptyString)) (or_else nm (VStr EmptyString))
             (number_or_zero price) (number_or_zero chg)
             (number_or_zero pct) (number_or_zero vol) ty.
Proof.
  unfold card.
  destruct (get s sk) as [sym|]; [|done].
  destruct (get s nk) as [nm|]; [|done].
  destruct (get s "price") as [price|]; [|done].
  destruct (get s "net_change") as [chg|]; [|done].
  destruct (get s "percent_change") as [pct|]; [|done].
  destruct (get s "volume") as [vol|]; [|done].
  cbn. intros [= <-]. by exists sym, nm, price, chg, pct, vol.
Qed.

Lemma or_else_truthy (a b : Val) : truthy a = true -> or_else a b = a.
Proof. unfold or_else. by intros ->. Qed.

Lemma or_else_falsy (a b : Val) : truthy a = false -> or_else a b = b.
Proof. unfold or_else. by intros ->. Qed.

Lemma get_of_truthy (v : Val) name :
  truthy v = true -> exists x, get v name = Resolved x.
Proof. destruct v; try done; cbn; eauto. Qed.

Lemma stock_fields name (data : Val) l :
  stock_body name data = Resolved l -> l <> [] ->
  exists currentPrice nse bse details tickerId companyName change
         percentChange volume yearHigh yearLow,
    opt_get data "currentPrice" = Resolved currentPrice
    /\ get currentPrice "NSE" = Resolved nse
    /\ get currentPrice "BSE" = Resolved bse
    /\ get data "stockDetailsReusableData" = Resolved details
    /\ opt_get details "tickerId" = Resolved tickerId
    /\ get data "companyName" = Resolved companyName
    /\ opt_get details "change" = Resolved change
    /\ get data "percentChange" = Resolved percentChange
    /\ opt_get details "volume" = Resolved volume
    /\ get data "yearHigh" = Resolved yearHigh
    /\ get data "yearLow" = Resolved yearLow
    /\ let price := to_number (or_else nse (or_else bse (VNum zero))) in
       l = [mkStock (or_else tickerId (VStr name))
              (or_else companyName (VStr name)) price
              (number_or_zero change) (number_or_zero percentChange)
              (number_or_zero volume) zero (number_or_zero yearHigh)
              (number_or_zero yearLow) price price].
Proof.
  unfold stock_body.
  destruct (opt_get data "currentPrice") as [cp|] eqn:E0; [|done].
  cbn [mbind outcome_bind].
  destruct (truthy cp) eqn:Hcp; cbn [negb]; [|by intros [= <-]].
  destruct (get_of_truthy cp "NSE" Hcp) as [nse Hnse].
  destruct (get_of_truthy cp "BSE" Hcp) as [bse Hbse].
  rewrite Hnse. cbn [mbind outcome_bind].
  assert (Hp : (if truthy nse then Resolved nse
                else bse0 ← get cp "BSE"; Resolved (or_else bse0 (VNum zero)))
               = Resolved (or_else nse (or_else bse (VNum zero)))).
  { destruct (truthy nse) eqn:Hn.
    - by rewrite (or_else_truthy nse).
    - rewrite Hbse. cbn [mbind outcome_bind]. by rewrite (or_else_falsy nse). }
  rewrite Hp. cbn [mbind outcome_bind].
  destruct (get data "stockDetailsReusableData") as [details|] eqn:E1; [|done].
  cbn [mbind outcome_bind].
  destruct (opt_get details "tickerId") as [tickerId|] eqn:E2; [|done].
  cbn [mbind outcome_bind].
  destruct (get data "companyName") as [companyName|] eqn:E3; [|done].
  cbn [mbind outcome_bind].
  destruct (opt_get details "change") as [change|] eqn:E4; [|done].
  cbn [mbind outcome_bind].
  destruct (get data "percentChange") as [percentChange|] eqn:E5; [|done].
  cbn [mbind outcome_bind].
  destruct (opt_get details "volume") as [volume|] eqn:E6; [|done].
  cbn [mbind outcome_bind].
  destruct (get data "yearHigh") as [yearHigh|] eqn:E7; [|done].
  cbn [mbind outcome_bind].
  destruct (get data "yearLow") as [yearLow|] eqn:E8; [|done].
  cbn [mbind outcome_bind]. intros [= <-] _.
  exists cp, nse, bse, details, tickerId, companyName, change,
    percentChange, volume, yearHigh, yearLow.
  by repeat (split; [done|]).
Qed.

Lemma each_price_entry (entries : list (list Val)) :
  each Legacy.price_entry (map VArr entries)
  = Resolved (map (fun e => if (2 <=? List.length e)%nat
                            then [Legacy.entry_bar (nth 0 e VUndef) (nth 1 e VUndef)]
                            else []) entries).
Proof.
  induction entries as [|e entries IH]; [done|].
  cbn [map each]. rewrite IH. unfold Legacy.price_entry at 1.
  cbn [length_of index to_number mbind outcome_bind].
  rewrite at_least_two_of_nat. by destruct (2 <=? List.length e)%nat.
Qed.

Lemma concat_filter_entries (entries : list (list Val)) :
  concat (map (fun e => if (2 <=? List.length e)%nat
                        then [Legacy.entry_bar (nth 0 e VUndef) (nth 1 e VUndef)]
                        else []) entries)
  = map (fun e => Legacy.entry_bar (nth 0 e VUndef) (nth 1 e VUndef))
      (List.filter (fun e => (2 <=? List.length e)%nat) entries).
Proof.
  induction entries as [|e entries IH]; [done|].
  cbn [map concat List.filter]. rewrite IH.
  by destruct (2 <=? List.length e)%nat.
Qed.

Lemma legacy_historical_well_shaped (data : Val) ds fs entries :
  get data "datasets" = Resolved (VArr ds) -> ds <> [] ->
  find_price ds = Resolved (VObj fs) ->
  own fs "values" = VArr (map VArr entries) ->
  Legacy.getHistoricalData (Resolved data)
  = Resolved
      (rev (map (fun e => Legacy.entry_bar (nth 0 e VUndef) (nth 1 e VUndef))
              (List.filter (fun e => (2 <=? List.length e)%nat) entries))).
Proof.
  intros Hds Hne Hfind Hvals.
  unfold Legacy.getHistoricalData, Legacy.historical_body.
  cbn [mbind outcome_bind]. rewrite Hds.
  cbn [mbind outcome_bind truthy length_of to_number].
  rewrite positive_of_nat. destruct ds as [|d ds]; [done|].
  cbn [List.length Nat.eqb negb find_method]. rewrite Hfind.
  cbn [mbind outcome_bind truthy get]. rewrite Hvals.
  cbn [truthy Legacy.forEach_method mbind outcome_bind].
  rewrite each_price_entry. cbn [mbind outcome_bind catch_all].
  by rewrite concat_filter_entries.
Qed.

Lemma bar_date (v : Val) b :
  bar v = Resolved b -> index v 0 = Resolved (ch_date b).
Proof.
  unfold bar. destruct (index v 0) as [date|]; [|done].
  destruct (index v 1) as [price|]; [|done]. cbn. by intros [= <-].
Qed.

Lemma data_item_fields (item : Val) b :
  Legacy.data_item item = Resolved b ->
  exists date timestamp open high low close price volume,
    get item "date" = Resolved date
    /\ get item "timestamp" = Resolved timestamp
    /\ get item "open" = Resolved open /\ get item "high" = Resolved high
    /\ get item "low" = Resolved low /\ get item "close" = Resolved close
    /\ get item "price" = Resolved price /\ get item "volume" = Resolved volume
    /\ let or_price (x : Val) := or_else (or_else x price) (VStr "0") in
       b = mkChart (or_else date timestamp)
             (Legacy.parseFloat (or_price open)) (Legacy.parseFloat (or_price high))
             (Legacy.parseFloat (or_price low)) (Legacy.parseFloat (or_price close))
             (Legacy.parseInt (or_else volume (VStr "0"))).
Proof.
  intros H.
  assert (Hg : forall name, exists x, get item name = Resolved x).
  { intros name. destruct item; try (by cbn; eauto); by cbn in H. }
  destruct (Hg "date") as [date Hd], (Hg "timestamp") as [ts Hts],
    (Hg "open") as [open Ho], (Hg "high") as [high Hh], (Hg "low") as [low Hl],
    (Hg "close") as [close Hcl], (Hg "price") as [price Hp],
    (Hg "volume") as [volume Hv].
  exists date, ts, open, high, low, close, price, volume.
  do 8 (split; [done|]).
  unfold Legacy.data_item in H. rewrite Hd in H. cbn [mbind outcome_bind] in H.
  assert (Hdate : (if truthy date then Resolved date else get item "timestamp")
                  = Resolved (or_else date ts)).
  { unfold or_else. by destruct (truthy date). }
  rewrite Hdate, Ho, Hp, Hh, Hl, Hcl, Hv in H. cbn [mbind outcome_bind] in H.
  by injection H as <-.
Qed.

Lemma legacy_historical_other_format (data datasets : Val) items :
  get data "datasets" = Resolved datasets ->
  truthy datasets = false \/ datasets = VArr [] ->
  get data "data" = Resolved (VArr items) ->
  Legacy.getHistoricalData (Resolved data)
  = catch_all (bars ← each Legacy.data_item items; Resolved (rev bars)).
Proof.
  intros Hds Hempty Hdata.
  unfold Legacy.getHistoricalData, Legacy.historical_body.
  cbn [mbind outcome_bind]. rewrite Hds. cbn [mbind outcome_bind].
  assert (Hno : (if truthy datasets
                 then len ← length_of datasets;
                      Resolved (positive (to_number len))
                 else Resolved false) = Resolved false).
  { destruct Hempty as [->| ->]; [done|].
    cbn [truthy length_of mbind outcome_bind to_number List.length].
    by rewrite positive_of_nat. }
  rewrite Hno. cbn [mbind outcome_bind]. rewrite Hdata.
  cbn [mbind outcome_bind truthy is_array andb Legacy.forEach_method].
  by destruct (each Legacy.data_item items).
Qed.

End WithNumbers.

(** C8, amended: a numeric field read as [Number(x || 0)], as every
    numeric field of a quote and of a card is, is 0 when the property is
    [null], [undefined], absent or otherwise falsy, and the number itself
    when it is a number other than 0 and [NaN]; the symbol and the name are
    the property when it is truthy and the fallback otherwise, the empty
    string in a card and the requested name in a quote; the date of a bar
    is taken from the entry as it is, without a fallback.  In
    [src/lib/indian-api.ts], [getHistoricalData] drops the entries of the
    price series shorter than two, and a price there that [parseFloat] does
    not read becomes 0; in its other response format every item gives a
    bar, dated [item.date || item.timestamp], whose prices are
    [parseFloat(x || item.price || '0')] with nothing put in the place of a
    value that does not parse. *)
Theorem normalisation_defaults {N : Numbers} :
  (forall x : Val, truthy x = false -> number_or_zero x = zero)
  /\ (forall n : num, num_truthy n = true -> number_or_zero (VNum n) = n)
  /\ (forall a fallback : Val,
        or_else a fallback = if truthy a then a else fallback)
  /\ (forall sk nk ty (s : Val) c,
        card sk nk ty s = Resolved c ->
        exists sym nm price chg pct vol,
          get s sk = Resolved sym /\ get s nk = Resolved nm
          /\ get s "price" = Resolved price /\ get s "net_change" = Resolved chg
          /\ get s "percent_change" = Resolved pct /\ get s "volume" = Resolved vol
          /\ c = mkCard (or_else sym (VStr EmptyString)) (or_else nm (VStr EmptyString))
                   (number_or_zero price) (number_or_zero chg)
                   (number_or_zero pct) (number_or_zero vol) ty)
  /\ (forall name (data : Val) l,
        stock_body name data = Resolved l -> l <> [] ->
        exists currentPrice nse bse details tickerId companyName change
               percentChange volume yearHigh yearLow,
          opt_get data "currentPrice" = Resolved currentPrice
          /\ get currentPrice "NSE" = Resolved nse
          /\ get currentPrice "BSE" = Resolved bse
          /\ get data "stockDetailsReusableData" = Resolved details
          /\ opt_get details "tickerId" = Resolved tickerId
          /\ get data "companyName" = Resolved companyName
          /\ opt_get details "change" = Resolved change
          /\ get data "percentChange" = Resolved percentChange
          /\ opt_get details "volume" = Resolved volume
          /\ get data "yearHigh" = Resolved yearHigh
          /\ get data "yearLow" = Resolved yearLow
          /\ let price := to_number (or_else nse (or_else bse (VNum zero))) in
             l = [mkStock (or_else tickerId (VStr name))
                    (or_else companyName (VStr name)) price
                    (number_or_zero change) (number_or_zero percentChange)
                    (number_or_zero volume) zero (number_or_zero yearHigh)
                    (number_or_zero yearLow) price price])
  /\ (forall (data : Val) ds fs entries,
        get data "datasets" = Resolved (VArr ds) -> ds <> [] ->
        find_price ds = Resolved (VObj fs) ->
        own fs "values" = VArr (map VArr entries) ->
        Legacy.getHistoricalData (Resolved data)
        = Resolved
            (rev (map (fun e => Legacy.entry_bar (nth 0 e VUndef) (nth 1 e VUndef))
                    (List.filter (fun e => (2 <=? List.length e)%nat) entries))))
  /\ (forall price : Val,
        Legacy.parseFloat price = NaN -> Legacy.float_or_zero price = zero)
  /\ (forall (v : Val) b, bar v = Resolved b -> index v 0 = Resolved (ch_date b))
  /\ (forall date price : Val, ch_date (Legacy.entry_bar date price) = date)
  /\ (forall (data datasets : Val) items,
        get data "datasets" = Resolved datasets ->
        truthy datasets = false \/ datasets = VArr [] ->
        get data "data" = Resolved (VArr items) ->
        Legacy.getHistoricalData (Resolved data)
        = catch_all (bars ← each Legacy.data_item items; Resolved (rev bars)))
  /\ (forall (item : Val) b,
        Legacy.data_item item = Resolved b ->
        exists date timestamp open high low close price volume,
          get item "date" = Resolved date
          /\ get item "timestamp" = Resolved timestamp
          /\ get item "open" = Resolved open /\ get item "high" = Resolved high
          /\ get item "low" = Resolved low /\ get item "close" = Resolved close
          /\ get item "price" = Resolved price
          /\ get item "volume" = Resolved volume
          /\ let or_price (x : Val) := or_else (or_else x price) (VStr "0") in
             b = mkChart (or_else date timestamp)
                   (Legacy.parseFloat (or_price open))
                   (Legacy.parseFloat (or_price high))
                   (Legacy.parseFloat (or_price low))
                   (Legacy.parseFloat (or_price close))
                   (Legacy.parseInt (or_else volume (VStr "0")))).
Proof.
  split; [apply @number_or_zero_falsy|].
  split; [apply @number_or_zero_number|].
  split; [done|].
  split; [apply @card_fields|].
  split; [apply @stock_fields|].
  split; [apply @legacy_historical_well_shaped|].
  split.
  { intros price Hnan. unfold Legacy.float_or_zero. rewrite Hnan.
    by rewrite truthy_NaN. }
  split; [apply @bar_date|].
  split; [done|].
  split; [apply @legacy_historical_other_format|apply @data_item_fields].
Qed.

(** The series of the example: [src/lib/indian-api.ts] drops the short
    entry and reads the price [x] as 0. *)
Example legacy_drops_short_entry :
  Legacy.getHistoricalData (Resolved series_with_short_entry)
  = Resolved [Legacy.entry_bar (VStr "2024-01-01") (VStr "x");
              Legacy.entry_bar (VStr "2024-01-03") (VStr "12")]
  /\ Legacy.float_or_zero (N:=Integers) (VStr "x") = zero.
Proof. split; reflexivity. Qed.

(** An item of the other response format whose [open] does not parse:
    the bar has [NaN] there and the [price] elsewhere. *)
Example legacy_item_price_not_read :
  Legacy.getHistoricalData (Resolved item_with_text_open)
  = Resolved [mkChart (VStr "2024-01-01") NaN (of_nat 12) (of_nat 12)
                (of_nat 12) zero].
Proof. reflexivity. Qed.

(** The same series in the governor's client: every entry gives a bar. *)
Example governor_maps_every_entry :
  getHistoricalData (Resolved series_with_short_entry)
  = Resolved [mkChart (VStr "2024-01-01") NaN NaN NaN NaN zero;
              mkChart (VStr "2024-01-02") NaN NaN NaN NaN zero;
              mkChart (VStr "2024-01-03") (of_nat 12) (of_nat 12) (of_nat 12)
                (of_nat 12) zero].
Proof. reflexivity. Qed.

End ClientFacts.

(** * Further properties of the governor's runs *)

Module GovernorRuns.
Import Governor Examples GovernorFacts GovernorRunsDefs.

Section WithPayload.
Context {Data : Type}.
Implicit Types (w : World (Data:=Data)) (g : Fields (Data:=Data)).

(** *** The shape of a world after the loop of [processQueue] *)

Lemma start_thunk_view now it w :
  requestQueue (gov (start_thunk now it w)) = requestQueue (gov w)
  /\ isProcessingQueue (gov (start_thunk now it w)) = isProcessingQueue (gov w)
  /\ rateLimitedUntil (gov (start_thunk now it w)) = rateLimitedUntil (gov w)
  /\ in_flight (phase (start_thunk now it w)) = [it].
Proof.
  destruct (start_thunk_cases now it w) as [[d ->]| ->];
    by destruct w as [[c q b l p r dl] ph n s lg].
Qed.

Lemma dispatch_shape now w :
  isProcessingQueue (gov w) = true ->
  match requestQueue (gov w) with
  | [] => phase (dispatch now w) = Idle
          /\ isProcessingQueue (gov (dispatch now w)) = false
          /\ requestQueue (gov (dispatch now w)) = []
  | it :: rest => in_flight (phase (dispatch now w)) = [it]
          /\ isProcessingQueue (gov (dispatch now w)) = true
          /\ requestQueue (gov (dispatch now w)) = rest
  end.
Proof.
  intros Hb. unfold dispatch. destruct (requestQueue (gov w)) as [|it rest] eqn:Hq.
  - destruct w as [[c q b l p r dl] ph n s lg]. wsimpl. by subst.
  - destruct (start_thunk_view now it
      (observe (ObsDispatch it now) (on_gov (with_queue rest) w)))
      as (E1 & E2 & _ & E4).
    rewrite E1, E2, E4. by destruct w as [[c q b l p r dl] ph n s lg].
Qed.


Lemma idle_inv_ext w w' :
  sched_view w' = sched_view w -> idle_inv w -> idle_inv w'.
Proof.
  unfold sched_view. intros [= Hl Hq Hp Ht Hb] [H1 H2].
  split; rewrite ?Hq, ?Hp, ?Hb; done.
Qed.

Lemma dispatch_idle now w :
  isProcessingQueue (gov w) = true -> idle_inv (dispatch now w).
Proof.
  intros Hb. pose proof (dispatch_shape now w Hb) as H.
  destruct (requestQueue (gov w)) as [|it rest].
  - destruct H as (H1 & H2 & H3). by split.
  - destruct H as (H1 & H2 & H3). split.
    + rewrite H2. split; [done|]. intros Hp. by rewrite Hp in H1.
    + intros Hp. by rewrite Hp in H1.
Qed.

Lemma waiting_idle ph w :
  isProcessingQueue (gov w) = true -> ph <> Idle -> idle_inv (with_phase ph w).
Proof.
  intros Hb Hph. destruct w as [[c q b l p r dl] ph' n s lg]. wsimpl. subst.
  by split.
Qed.

Lemma after_rate_wait_idle now w :
  isProcessingQueue (gov w) = true -> idle_inv (after_rate_wait now w).
Proof.
  intros Hb. unfold after_rate_wait.
  destruct (_ <? _); [by apply waiting_idle|by apply dispatch_idle].
Qed.

Lemma loop_head_idle now w :
  isProcessingQueue (gov w) = true -> idle_inv (loop_head now w).
Proof.
  intros Hb. unfold loop_head.
  destruct (requestQueue (gov w)) as [|it rest] eqn:Hq.
  - destruct w as [[c q b l p r dl] ph n s lg]. wsimpl. by subst.
  - destruct (_ <? _); [by apply waiting_idle|by apply after_rate_wait_idle].
Qed.

Lemma complete_idle now it o w :
  isProcessingQueue (gov w) = true -> idle_inv (complete now it o w).
Proof.
  intros Hb. rewrite complete_unfold. apply loop_head_idle.
  by destruct w as [[c q b l p r dl] ph n s lg].
Qed.

Lemma busy_flag w :
  idle_inv w -> phase w <> Idle -> isProcessingQueue (gov w) = true.
Proof.
  intros [H1 _] Hp. destruct (isProcessingQueue (gov w)); [done|].
  destruct Hp. by apply H1.
Qed.

Lemma resume_thunk_idle now w : idle_inv w -> idle_inv (resume_thunk now w).
Proof.
  intros Hi. unfold resume_thunk. destruct (phase w) eqn:Hp; try done.
  apply complete_idle, busy_flag; [done|by rewrite Hp].
Qed.

Lemma processQueue_idle now w :
  (isProcessingQueue (gov w) = false <-> phase w = Idle) ->
  requestQueue (gov w) <> [] -> idle_inv (processQueue now w).
Proof.
  intros Hf Hq. unfold processQueue.
  destruct (isProcessingQueue (gov w)) eqn:Hb; cbn [orb].
  { split; [by rewrite Hb|]. intros Hp. apply Hf in Hp. congruence. }
  destruct (requestQueue (gov w)) as [|it0 rest0] eqn:Hq'; [done|].
  apply loop_head_idle. by destruct w as [[c q b l0 p r dl] ph n s lg].
Qed.

Lemma on_timer_idle now w : idle_inv w -> idle_inv (on_timer now w).
Proof.
  intros Hi. unfold on_timer. destruct (phase w) eqn:Hp; try done.
  - apply after_rate_wait_idle, busy_flag; [done|by rewrite Hp].
  - apply dispatch_idle, busy_flag; [done|by rewrite Hp].
Qed.

Lemma on_response_idle now r w : idle_inv w -> idle_inv (on_response now r w).
Proof.
  intros Hi. unfold on_response. destruct (phase w) as [| | |it|] eqn:Hp; try done.
  pose proof (thunk_after_fetch_view now it r w) as Hv.
  destruct (thunk_after_fetch now it r (gov w)) as [g o]. cbn [fst] in Hv.
  apply complete_idle.
  transitivity (isProcessingQueue (gov w)).
  - apply (f_equal snd) in Hv. exact Hv.
  - apply busy_flag; [done|by rewrite Hp].
Qed.

Lemma idle_inv_step now ev w : idle_inv w -> idle_inv (step now ev w).
Proof.
  intros Hi. destruct ev as [e ps| |r|]; cbn [step].
  - unfold fetchWithCache. generalize (Url.cacheKey e ps). intros k.
    destruct (cache_lookup now k (gov w)); [done|].
    destruct (pendingRequests (gov w) !! k); [done|].
    unfold queueRequest. cbn [fst snd].
    set (w0 := mkWorld _ _ _ _ _).
    assert (H0 : idle_inv (processQueue now w0)).
    { apply processQueue_idle.
      - destruct Hi as [H1 _]. subst w0.
        by destruct w as [[c q b l p rl d] ph n s lg].
      - subst w0. destruct w as [[c q b l p rl d] ph n s lg]. wsimpl.
        by destruct q. }
    apply resume_thunk_idle. eapply idle_inv_ext; [|exact H0].
    by destruct (processQueue now w0) as [[]].
  - by apply resume_thunk_idle, on_timer_idle.
  - by apply resume_thunk_idle, on_response_idle.
  - eapply idle_inv_ext; [|exact Hi].
    by destruct w as [[c q b l p rl d] ph n s lg].
Qed.

Lemma idle_inv_run tr : forall w, idle_inv w -> idle_inv (run tr w).
Proof.
  induction tr as [|[now ev] tr IH]; intros w H; [done|].
  cbn [run]. apply IH. by apply idle_inv_step.
Qed.

Lemma idle_inv_init : idle_inv (init (Data:=Data)).
Proof. by split. Qed.


(** *** The rate-limit wait *)

Lemma dispatch_not_rate now w wake : phase (dispatch now w) <> WaitRateLimit wake.
Proof.
  unfold dispatch. destruct (requestQueue (gov w)) as [|it rest].
  - by destruct w as [[c q b l p r dl] ph n s lg].
  - destruct (start_thunk_view now it
      (observe (ObsDispatch it now) (on_gov (with_queue rest) w)))
      as (_ & _ & _ & E4).
    intros Hp. by rewrite Hp in E4.
Qed.

Lemma after_rate_wait_not_rate now w wake :
  phase (after_rate_wait now w) <> WaitRateLimit wake.
Proof.
  unfold after_rate_wait. destruct (_ <? _); [|apply dispatch_not_rate].
  by destruct w as [[c q b l p r dl] ph n s lg].
Qed.

Lemma loop_head_not_rate now w wake :
  rateLimitedUntil (gov w) <= now -> phase (loop_head now w) <> WaitRateLimit wake.
Proof.
  intros Hr. unfold loop_head. destruct (requestQueue (gov w)) as [|it rest].
  - by destruct w as [[c q b l p r dl] ph n s lg].
  - destruct (Z.ltb_spec now (rateLimitedUntil (gov w))); [lia|].
    apply after_rate_wait_not_rate.
Qed.

Lemma complete_not_rate now it o w wake :
  rateLimitedUntil (gov w) <= now -> phase (complete now it o w) <> WaitRateLimit wake.
Proof.
  intros Hr. rewrite complete_unfold. apply loop_head_not_rate.
  by destruct w as [[c q b l p r dl] ph n s lg].
Qed.

Lemma resume_thunk_not_rate now w :
  rateLimitedUntil (gov w) <= now ->
  (forall wake, phase w <> WaitRateLimit wake) ->
  forall wake, phase (resume_thunk now w) <> WaitRateLimit wake.
Proof.
  intros Hr Hp wake. unfold resume_thunk.
  destruct (phase w) eqn:E; try (rewrite E; done).
  by apply complete_not_rate.
Qed.

Lemma processQueue_not_rate now w :
  rateLimitedUntil (gov w) <= now ->
  (forall wake, phase w <> WaitRateLimit wake) ->
  forall wake, phase (processQueue now w) <> WaitRateLimit wake.
Proof.
  intros Hr Hp wake. unfold processQueue. destruct (_ || _); [done|].
  apply loop_head_not_rate. by destruct w as [[c q b l p r dl] ph n s lg].
Qed.

Lemma unlimited_step now ev w :
  0 <= now -> unlimited w -> unlimited (step now ev w).
Proof.
  intros Hn [H1 H2 H3].
  destruct (backoff_step now ev w (conj H1 H2)) as [B1 B2].
  split; [done|done|].
  destruct ev as [e ps| |r|]; cbn [step].
  - unfold fetchWithCache. generalize (Url.cacheKey e ps). intros k.
    destruct (cache_lookup now k (gov w)); [done|].
    destruct (pendingRequests (gov w) !! k); [done|].
    unfold queueRequest. cbn [fst snd].
    set (w0 := mkWorld _ _ _ _ _).
    assert (R0 : rateLimitedUntil (gov w0) = 0 /\ forall wake, phase w0 <> WaitRateLimit wake).
    { subst w0. by destruct w as [[c q b l p rl d] ph n s lg]. }
    destruct R0 as [R0 P0].
    pose proof (processQueue_keeps now w0) as [_ _ _ K4 _ _].
    pose proof (processQueue_not_rate now w0 ltac:(lia) P0) as P1.
    set (w1 := processQueue now w0) in *.
    apply resume_thunk_not_rate.
    + replace (rateLimitedUntil (gov (on_gov _ w1))) with (rateLimitedUntil (gov w1))
        by (by destruct w1 as [[]]). lia.
    + intros wake. specialize (P1 wake). by destruct w1 as [[]].
  - pose proof (on_timer_keeps now w) as [_ _ _ K4 _ _].
    apply resume_thunk_not_rate; [lia|].
    intros wake. unfold on_timer. destruct (phase w) eqn:E; try (rewrite E; done).
    + apply after_rate_wait_not_rate.
    + apply dispatch_not_rate.
  - unfold on_response. destruct (phase w) as [| | |it|] eqn:E;
      try (apply resume_thunk_not_rate; [lia|by rewrite E]).
    pose proof (thunk_after_fetch_store now it r (gov w)) as _.
    assert (Hg : rateLimitedUntil (thunk_after_fetch now it r (gov w)).1 = 0).
    { destruct w as [[c q b l p rl d] ph n s lg]. wsimpl. subst. by destruct r. }
    destruct (thunk_after_fetch now it r (gov w)) as [g o]. cbn [fst] in Hg.
    set (w1 := on_gov _ w).
    assert (R1 : rateLimitedUntil (gov w1) = 0) by (by subst w1; destruct w).
    pose proof (complete_keeps now it o w1) as [_ _ _ K4 _ _].
    apply resume_thunk_not_rate; [lia|].
    intros wake. apply complete_not_rate. lia.
  - by destruct w as [[c q b l p rl d] ph n s lg].
Qed.

Lemma unlimited_run tr : forall t w,
  0 <= t -> well_timed t tr w = true -> unlimited w -> unlimited (run tr w).
Proof.
  induction tr as [|[now ev] tr IH]; intros t w Ht Hwt Hu; [done|].
  cbn [well_timed run] in *.
  apply andb_prop in Hwt as [Hwt Hrest]. apply andb_prop in Hwt as [Hle Hok].
  apply Z.leb_le in Hle.
  apply (IH now); [lia|done|]. apply unlimited_step; [lia|done].
Qed.

Lemma unlimited_init : unlimited (init (Data:=Data)).
Proof. by split. Qed.

(** *** What the answer of the transport does *)

Lemma complete_phase now it o w :
  rateLimitedUntil (gov w) <= now ->
  phase (complete now it o w)
  = match requestQueue (gov w) with
    | [] => Idle
    | _ :: _ => WaitSpacing (now + MIN_REQUEST_INTERVAL)
    end.
Proof.
  intros Hr. rewrite complete_unfold.
  destruct w as [[c q b l p r dl] ph n s lg]. wsimpl.
  unfold loop_head. wsimpl. destruct q as [|it' rest]; [done|].
  destruct (Z.ltb_spec now r); [lia|].
  unfold after_rate_wait. wsimpl.
  destruct (Z.ltb_spec (now - now) MIN_REQUEST_INTERVAL) as [_|Hge];
    [|unfold MIN_REQUEST_INTERVAL in Hge; lia].
  wsimpl. f_equal. lia.
Qed.

Lemma response_spec now it r w :
  phase w = AwaitFetch it ->
  let g1 := (thunk_after_fetch now it r (gov w)).1 in
  let o := (thunk_after_fetch now it r (gov w)).2 in
  let w' := step now (EvResponse r) w in
  cache (gov w') = cache g1
  /\ pendingRequests (gov w') = pendingRequests g1
  /\ requestQueue (gov w') = requestQueue (gov w)
  /\ lastRequestTime (gov w') = now
  /\ settled w' = <[q_promise it := o]> (settled w)
  /\ log w' = log w ++ [ObsComplete it now]
  /\ in_flight (phase w') = []
  /\ (rateLimitedUntil (gov w) <= now ->
      phase w' = match requestQueue (gov w) with
                 | [] => Idle
                 | _ :: _ => WaitSpacing (now + MIN_REQUEST_INTERVAL)
                 end).
Proof.
  intros Hp. cbv zeta. cbn [step]. unfold on_response. rewrite Hp.
  assert (Hq : requestQueue (thunk_after_fetch now it r (gov w)).1
               = requestQueue (gov w)
               /\ rateLimitedUntil (thunk_after_fetch now it r (gov w)).1
                  = rateLimitedUntil (gov w)).
  { destruct w as [[c q b l p rl d] ph n s lg]. by destruct r. }
  destruct (thunk_after_fetch now it r (gov w)) as [g o]. cbn [fst snd] in *.
  destruct Hq as [Hq Hrl].
  set (w1 := on_gov (fun _ => g) w).
  assert (E : gov w1 = g /\ settled w1 = settled w /\ log w1 = log w)
    by (by subst w1; destruct w).
  destruct E as (Eg & Es & El).
  destruct (complete_spec now it o w1) as (E1 & E2 & E3 & E4 & E5 & E6 & E7).
  pose proof (complete_phase now it o w1) as E8.
  rewrite Eg in *. rewrite Es in E5. rewrite El in E6. rewrite Hq in *.
  rewrite Hrl in E8.
  assert (Hres : resume_thunk now (complete now it o w1) = complete now it o w1).
  { unfold resume_thunk. by destruct (phase (complete now it o w1)). }
  rewrite Hres. done.
Qed.


(** *** Network calls *)

Lemma drives_net (ok : Prop) now w w' :
  drives ok now w w' ->
  (forall it rest, requestQueue (gov w) = it :: rest ->
                   cache_lookup now (q_key it) (gov w) = None) ->
  net_calls (log w) = dispatched (log w) ->
  net_calls (log w') = dispatched (log w').
Proof.
  intros Hd Hmiss Hnet.
  destruct Hd as [|wake|wake Hw|it rest Hk Hq].
  - by destruct w as [[c q b l p r d] ph n s lg].
  - by destruct w as [[c q b l p r d] ph n s lg].
  - by destruct w as [[c q b l p r d] ph n s lg].
  - specialize (Hmiss _ _ Hq).
    rewrite start_thunk_miss.
    + destruct w as [[c q b l p r d] ph n s lg]. wsimpl. log_simpl.
      by rewrite Hnet.
    + rewrite <- Hmiss. apply cache_lookup_ext.
      by destruct w as [[c q b l p r d] ph n s lg].
Qed.

Lemma resume_thunk_log now w :
  net_calls (log (resume_thunk now w)) = net_calls (log w)
  /\ dispatched (log (resume_thunk now w)) = dispatched (log w).
Proof.
  unfold resume_thunk. destruct (phase w); try done.
  destruct (complete_spec now it (Resolved d) w) as (_ & _ & _ & _ & _ & E6 & _).
  rewrite E6. by log_simpl.
Qed.

Lemma net_step t now ev w :
  t <= now -> match ev with EvClearCache => false | _ => true end = true ->
  idle_inv w -> registry_inv t w ->
  (forall it, it ∈ alive w -> registered w it) ->
  net_calls (log w) = dispatched (log w) ->
  net_calls (log (step now ev w)) = dispatched (log (step now ev w)).
Proof.
  intros Ht Hev [Hf Hqe] [Hstale _] Hreg Hnet.
  assert (Hhead : forall it rest, requestQueue (gov w) = it :: rest ->
                    cache_lookup now (q_key it) (gov w) = None).
  { intros it rest Hq. eapply Hstale; [|exact Ht].
    apply Hreg. unfold alive. rewrite Hq. apply elem_of_app. right. by left. }
  destruct ev as [e ps| |r|]; try done; cbn [step].
  - unfold fetchWithCache.
    destruct (cache_lookup now (Url.cacheKey e ps) (gov w)) eqn:Hc; [done|].
    destruct (pendingRequests (gov w) !! Url.cacheKey e ps); [done|].
    revert Hc. generalize (Url.cacheKey e ps). intros k Hc.
    unfold queueRequest. cbn [fst snd].
    set (w0 := mkWorld _ _ _ _ _).
    assert (N0 : net_calls (log (processQueue now w0))
                 = dispatched (log (processQueue now w0))).
    { unfold processQueue.
      destruct (isProcessingQueue (gov w0)) eqn:Hb; cbn [orb].
      { subst w0. destruct w as [[c q b l p rl d] ph n s lg]. wsimpl. by log_simpl. }
      destruct (requestQueue (gov w0)) as [|it0 rest0] eqn:Hq0.
      { subst w0. destruct w as [[c q b l p rl d] ph n s lg]. wsimpl. by log_simpl. }
      eapply drives_net; [apply loop_head_drives| |].
      - assert (Hq : requestQueue (gov w) = []).
        { apply Hqe, Hf. subst w0. by destruct w as [[c q b l p rl d] ph n s lg]. }
        intros it rest Hq'. subst w0.
        destruct w as [[c q b l p rl d] ph n s lg]. wsimpl. subst q.
        cbn [app] in Hq'. injection Hq' as <- <-. exact Hc.
      - subst w0. destruct w as [[c q b l p rl d] ph n s lg]. wsimpl. by log_simpl. }
    set (w1 := processQueue now w0) in *.
    destruct (resume_thunk_log now
      (on_gov (fun g => with_pending (<[k:=nextPromise w]> (pendingRequests g)) g) w1))
      as [-> ->].
    by destruct w1 as [[]].
  - destruct (resume_thunk_log now (on_timer now w)) as [-> ->].
    unfold on_timer. destruct (phase w); try done.
    + eapply drives_net; [apply after_rate_wait_drives|done|done].
    + eapply drives_net; [apply dispatch_drives|done|done].
  - destruct (phase w) as [| | |it|] eqn:Hp.
    4:{ destruct (response_spec now it r w Hp) as (_ & _ & _ & _ & _ & E6 & _).
        cbn [step] in E6. rewrite E6. by log_simpl. }
    all: destruct (resume_thunk_log now (on_response now r w)) as [-> ->];
      unfold on_response; by rewrite Hp.
Qed.

Lemma net_run tr : forall t w,
  well_timed t tr w = true -> never_cleared tr = true ->
  idle_inv w -> registry_inv t w -> closure_inv w ->
  (forall it, it ∈ alive w -> registered w it) ->
  net_calls (log w) = dispatched (log w) ->
  net_calls (log (run tr w)) = dispatched (log (run tr w)).
Proof.
  induction tr as [|[now ev] tr IH]; intros t w Hwt Hnc Hi Hr Hc Hreg Hnet; [done|].
  cbn [well_timed run never_cleared forallb snd] in *.
  apply andb_prop in Hwt as [Hwt Hrest]. apply andb_prop in Hwt as [Hle Hok].
  apply Z.leb_le in Hle. apply andb_prop in Hnc as [Hev Hnc].
  apply (IH now); try done.
  - by apply idle_inv_step.
  - by eapply registry_inv_step.
  - by apply closure_inv_step.
  - by apply registered_step.
  - by eapply net_step.
Qed.

(** *** Promises *)

Lemma settled_ok_ext w w' :
  settled w' = settled w -> completed (log w') = completed (log w) ->
  settled_ok w -> settled_ok w'.
Proof. unfold settled_ok. by intros -> ->. Qed.

Lemma drives_quiet (ok : Prop) now w w' :
  drives ok now w w' ->
  settled w' = settled w /\ completed (log w') = completed (log w).
Proof.
  destruct w as [[c q b l p r d] ph n s lg].
  intros [|wake|wake Hw|it rest Hk Hq]; wsimpl; try done.
  destruct (start_thunk_cases now it
      (observe (ObsDispatch it now)
         (on_gov (with_queue rest)
            (mkWorld (mkFields c q b l p r d) ph n s lg))))
      as [[dd ->] | ->]; wsimpl; by log_simpl.
Qed.

Lemma complete_settled_ok now it o w :
  settled_ok w -> settled_ok (complete now it o w).
Proof.
  intros H p. unfold settled_ok in H.
  destruct (complete_spec now it o w) as (_ & _ & _ & _ & E5 & E6 & _).
  rewrite E5, E6. log_simpl. rewrite fmap_app, elem_of_app. cbn [fmap list_fmap].
  rewrite list_elem_of_singleton, <- H.
  destruct (decide (p = q_promise it)) as [->|Hne].
  - rewrite lookup_insert_eq. split; [by right|by eauto].
  - rewrite lookup_insert_ne by done. split; [by left|by intros [|]].
Qed.

Lemma resume_thunk_settled_ok now w :
  settled_ok w -> settled_ok (resume_thunk now w).
Proof.
  intros H. unfold resume_thunk. destruct (phase w); try done.
  by apply complete_settled_ok.
Qed.

Lemma settled_ok_step now ev w : settled_ok w -> settled_ok (step now ev w).
Proof.
  intros H. destruct ev as [e ps| |r|]; cbn [step].
  - unfold fetchWithCache. generalize (Url.cacheKey e ps). intros k.
    destruct (cache_lookup now k (gov w)); [done|].
    destruct (pendingRequests (gov w) !! k); [done|].
    unfold queueRequest. cbn [fst snd].
    set (w0 := mkWorld _ _ _ _ _).
    assert (H0 : settled_ok w0).
    { eapply settled_ok_ext; [| |exact H]; subst w0;
        destruct w as [[c q b l p rl d] ph n s lg]; wsimpl; by log_simpl. }
    assert (H1 : settled_ok (processQueue now w0)).
    { unfold processQueue. destruct (_ || _); [done|].
      destruct (drives_quiet _ _ _ _
        (loop_head_drives now (on_gov (with_processing true) w0))) as [E1 E2].
      eapply settled_ok_ext; [exact E1|exact E2|].
      eapply settled_ok_ext; [| |exact H0]; by destruct w0 as [[]]. }
    apply resume_thunk_settled_ok.
    eapply settled_ok_ext; [| |exact H1]; by destruct (processQueue now w0) as [[]].
  - apply resume_thunk_settled_ok. unfold on_timer. destruct (phase w); try done.
    + destruct (drives_quiet _ _ _ _ (after_rate_wait_drives now w)) as [E1 E2].
      by eapply settled_ok_ext.
    + destruct (drives_quiet _ _ _ _ (dispatch_drives now w)) as [E1 E2].
      by eapply settled_ok_ext.
  - apply resume_thunk_settled_ok. unfold on_response.
    destruct (phase w); try done.
    destruct (thunk_after_fetch now it r (gov w)) as [g o].
    apply complete_settled_ok.
    eapply settled_ok_ext; [| |exact H]; by destruct w.
  - eapply settled_ok_ext; [| |exact H];
      by destruct w as [[c q b l p rl d] ph n s lg].
Qed.

Lemma step_enqueued now ev w :
  (enqueued (log (step now ev w)) = enqueued (log w)
   /\ nextPromise (step now ev w) = nextPromise w)
  \/ (exists it, q_promise it = nextPromise w
        /\ enqueued (log (step now ev w)) = enqueued (log w) ++ [it]
        /\ nextPromise (step now ev w) = S (nextPromise w)).
Proof.
  destruct ev as [e ps| |r|]; cbn [step].
  - unfold fetchWithCache.
    destruct (cache_lookup now (Url.cacheKey e ps) (gov w)) eqn:Hc; [by left|].
    destruct (pendingRequests (gov w) !! Url.cacheKey e ps) eqn:Hp; [by left|].
    destruct (fetchWithCache_miss now e ps w Hc Hp)
      as (w' & Hf & _ & _ & _ & _ & H5 & H6).
    unfold fetchWithCache in Hf. rewrite Hc, Hp in Hf. rewrite Hf. cbn [fst].
    right. by eexists (mkItem _ _ _ _).
  - left.
    destruct (keeps_trans _ _ _ (on_timer_keeps now w)
                (resume_thunk_keeps now (on_timer now w))) as [_ _ Kn _ _ Ke].
    done.
  - left. destruct (phase w) as [| | |it|] eqn:Hp.
    4:{ destruct (response_spec now it r w Hp) as (_ & _ & _ & _ & _ & E6 & _).
        cbn [step] in E6. rewrite E6. log_simpl. split; [done|].
        destruct (step_closures now (EvResponse r) w)
          as [(_ & Hn & _)|(e & ps & [=] & _)]. exact Hn. }
    all: unfold on_response; rewrite Hp;
      by destruct (resume_thunk_keeps now w) as [_ _ Kn _ _ Ke].
  - left. by destruct w as [[c q b l p rl d] ph n s lg].
Qed.

Lemma promise_inv_step now ev w : promise_inv w -> promise_inv (step now ev w).
Proof.
  intros [H1 H2 H3]. split; [| |by apply settled_ok_step].
  - destruct (step_enqueued now ev w) as [[-> _]|(it & Hit & -> & _)]; [done|].
    rewrite fmap_app. apply NoDup_app. split; [done|]. split.
    + intros p Hp Hp'. apply list_elem_of_fmap in Hp as (it' & -> & Hin).
      apply H2 in Hin. cbn in Hp'. apply list_elem_of_singleton in Hp'. lia.
    + cbn. apply NoDup_singleton.
  - intros it Hin.
    destruct (step_enqueued now ev w) as [[He Hn]|(it' & Hit & He & Hn)];
      rewrite He in Hin; rewrite Hn.
    + by apply H2.
    + apply elem_of_app in Hin as [Hin|Hin].
      * apply H2 in Hin. lia.
      * apply list_elem_of_singleton in Hin. subst it'. lia.
Qed.

Lemma promise_inv_run tr : forall w, promise_inv w -> promise_inv (run tr w).
Proof.
  induction tr as [|[now ev] tr IH]; intros w H; [done|].
  cbn [run]. apply IH. by apply promise_inv_step.
Qed.

Lemma promise_inv_init : promise_inv (init (Data:=Data)).
Proof.
  split; cbn.
  - constructor.
  - intros it Hin. by apply elem_of_nil in Hin.
  - intros p. cbn. rewrite lookup_empty. split; [by intros [? [=]]|].
    intros Hin. by apply elem_of_nil in Hin.
Qed.


Lemma timer_dispatches now w wake it rest :
  phase w = WaitSpacing wake -> requestQueue (gov w) = it :: rest ->
  dispatched (log (step now EvTimer w)) = dispatched (log w) ++ [it]
  /\ requestQueue (gov (step now EvTimer w)) = rest.
Proof.
  intros Hp Hq. cbn [step].
  destruct (resume_thunk_log now (on_timer now w)) as [_ ->].
  assert (Hd : dispatched (log (on_timer now w)) = dispatched (log w) ++ [it]
               /\ requestQueue (gov (on_timer now w)) = rest).
  { unfold on_timer. rewrite Hp. unfold dispatch. rewrite Hq.
    destruct (start_thunk_cases now it
      (observe (ObsDispatch it now) (on_gov (with_queue rest) w)))
      as [[dd ->] | ->];
      destruct w as [[c q b l p r d] ph n s lg]; wsimpl; by log_simpl. }
  destruct Hd as [Hd1 Hd2]. split; [done|].
  unfold resume_thunk. destruct (phase (on_timer now w)); try done.
  by destruct (complete_spec now it0 (Resolved d) (on_timer now w))
    as (_ & _ & -> & _).
Qed.

End WithPayload.
End GovernorRuns.

Module GovernorRuns2.
Import Governor Examples GovernorFacts GovernorRunsDefs GovernorRuns.

Section WithPayload.
Context {Data : Type}.
Implicit Types (w : World (Data:=Data)) (g : Fields (Data:=Data)).

(** *** A call that is not answered *)

Lemma stalled_step now (ev : Event (Data:=Data)) w it :
  idle_inv w -> phase w = AwaitFetch it ->
  match ev with EvResponse _ => false | _ => true end = true ->
  let w' := step now ev w in
  phase w' = AwaitFetch it
  /\ dispatched (log w') = dispatched (log w)
  /\ net_calls (log w') = net_calls (log w)
  /\ completed (log w') = completed (log w)
  /\ settled w' = settled w
  /\ requestQueue (gov w) `prefix_of` requestQueue (gov w').
Proof.
  intros Hi Hp Hev. cbv zeta.
  assert (Hb : isProcessingQueue (gov w) = true).
  { apply busy_flag; [done|by rewrite Hp]. }
  destruct ev as [e ps| |r|]; [| | done|]; cbn [step].
  - unfold fetchWithCache. generalize (Url.cacheKey e ps). intros k.
    destruct (cache_lookup now k (gov w)); [done|].
    destruct (pendingRequests (gov w) !! k); [done|].
    unfold queueRequest, processQueue. cbn [fst snd].
    destruct w as [[c q b l p rl d] ph n s lg]. wsimpl. subst.
    cbn [orb]. unfold resume_thunk. wsimpl. log_simpl.
    repeat split; try done. by apply prefix_app_r.
  - unfold on_timer. rewrite Hp. unfold resume_thunk. by rewrite Hp.
  - destruct w as [[c q b l p rl d] ph n s lg]. unfold clearCache. wsimpl.
    by subst.
Qed.

Lemma stalled_run tr : forall w it,
  idle_inv w -> phase w = AwaitFetch it -> unanswered tr = true ->
  phase (run tr w) = AwaitFetch it
  /\ dispatched (log (run tr w)) = dispatched (log w)
  /\ net_calls (log (run tr w)) = net_calls (log w)
  /\ completed (log (run tr w)) = completed (log w)
  /\ settled (run tr w) = settled w
  /\ requestQueue (gov w) `prefix_of` requestQueue (gov (run tr w)).
Proof.
  induction tr as [|[now ev] tr IH]; intros w it Hi Hp Hun; [done|].
  cbn [run unanswered forallb snd] in *.
  apply andb_prop in Hun as [Hev Hun].
  destruct (stalled_step now ev w it Hi Hp Hev) as (S1 & S3 & S4 & S5 & S6 & S7).
  destruct (IH (step now ev w) it) as (R1 & R3 & R4 & R5 & R6 & R7);
    [by apply idle_inv_step|done|done|].
  repeat split; try congruence. by etrans.
Qed.


(** *** Emptying the queue *)

Lemma drives_conserve (ok : Prop) now w w' :
  drives ok now w w' -> in_flight (phase w) = [] ->
  completed (log w') ++ alive w' = completed (log w) ++ alive w.
Proof.
  intros Hd Hfl. destruct (drives_quiet _ _ _ _ Hd) as [_ ->].
  rewrite (drives_alive _ _ _ _ Hd). unfold alive. by rewrite Hfl.
Qed.

Lemma complete_conserve now it o w :
  in_flight (phase w) = [it] ->
  completed (log (complete now it o w)) ++ alive (complete now it o w)
  = completed (log w) ++ alive w.
Proof.
  intros Hfl. rewrite complete_alive.
  destruct (complete_spec now it o w) as (_ & _ & _ & _ & _ & -> & _).
  log_simpl. unfold alive. by rewrite Hfl, <- app_assoc.
Qed.

Lemma resume_thunk_conserve now w :
  completed (log (resume_thunk now w)) ++ alive (resume_thunk now w)
  = completed (log w) ++ alive w.
Proof.
  unfold resume_thunk. destruct (phase w) eqn:Hp; try done.
  apply complete_conserve. by rewrite Hp.
Qed.

Lemma step_conserve now (ev : Event (Data:=Data)) w :
  match ev with EvTimer | EvResponse _ => true | _ => false end = true ->
  completed (log (step now ev w)) ++ alive (step now ev w)
  = completed (log w) ++ alive w.
Proof.
  intros Hev. destruct ev as [e ps| |r|]; try done; cbn [step];
    rewrite resume_thunk_conserve.
  - unfold on_timer. destruct (phase w) eqn:Hp; try done.
    + eapply drives_conserve; [apply after_rate_wait_drives|by rewrite Hp].
    + eapply drives_conserve; [apply dispatch_drives|by rewrite Hp].
  - unfold on_response. destruct (phase w) as [| | |it|] eqn:Hp; try done.
    assert (Hv : requestQueue (thunk_after_fetch now it r (gov w)).1
                 = requestQueue (gov w)).
    { destruct w as [[c q b l p rl d] ph n s lg]. by destruct r. }
    destruct (thunk_after_fetch now it r (gov w)) as [g o]. cbn [fst] in Hv.
    rewrite complete_conserve by (by destruct w; cbn in *; subst).
    unfold alive. destruct w; cbn in *. by rewrite Hv.
Qed.

Lemma waiting_work w :
  in_flight (phase w) = [] ->
  (work w <= 3 * length (requestQueue (gov w)) + 2)%nat.
Proof. unfold work. destruct (phase w); cbn; try done; lia. Qed.

Lemma complete_work now it o w :
  (work (complete now it o w) <= 3 * length (requestQueue (gov w)) + 2)%nat.
Proof.
  destruct (complete_spec now it o w) as (_ & _ & E3 & _ & _ & _ & E7).
  rewrite <- E3. by apply waiting_work.
Qed.

Lemma resume_thunk_work now w :
  (work (resume_thunk now w) <= work w)%nat.
Proof.
  unfold resume_thunk. destruct (phase w) eqn:Hp; try done.
  etrans; [apply complete_work|]. unfold work. rewrite Hp. lia.
Qed.

Lemma dispatch_work now w :
  isProcessingQueue (gov w) = true ->
  (work (dispatch now w) <= 3 * length (requestQueue (gov w)))%nat.
Proof.
  intros Hb. pose proof (dispatch_shape now w Hb) as H. unfold work.
  destruct (requestQueue (gov w)) as [|it rest].
  - destruct H as (-> & _ & ->). cbn. lia.
  - destruct H as (H1 & _ & ->).
    destruct (phase (dispatch now w)); cbn [length]; try done; lia.
Qed.

Lemma after_rate_wait_work now w :
  isProcessingQueue (gov w) = true ->
  (work (after_rate_wait now w) <= 3 * length (requestQueue (gov w)) + 1)%nat.
Proof.
  intros Hb. unfold after_rate_wait. destruct (_ <? _).
  - destruct w as [[c q b l p rl d] ph n s lg]. unfold work. wsimpl. lia.
  - etrans; [by apply dispatch_work|]. lia.
Qed.

Lemma event_work now (ev : Event (Data:=Data)) w :
  idle_inv w ->
  match ev, phase w with
  | EvTimer, (WaitRateLimit _ | WaitSpacing _) => true
  | EvResponse _, AwaitFetch _ => true
  | _, _ => false
  end = true ->
  (work (step now ev w) < work w)%nat.
Proof.
  intros Hi Hev. destruct ev as [e ps| |r|]; try done; cbn [step];
    (eapply Nat.le_lt_trans; [apply resume_thunk_work|]).
  - unfold on_timer.
    destruct (phase w) as [|wake|wake| |] eqn:Hp; try done.
    + eapply Nat.le_lt_trans; [apply after_rate_wait_work|].
      * apply busy_flag; [done|by rewrite Hp].
      * unfold work. rewrite Hp. lia.
    + eapply Nat.le_lt_trans; [apply dispatch_work|].
      * apply busy_flag; [done|by rewrite Hp].
      * unfold work. rewrite Hp. lia.
  - unfold on_response. destruct (phase w) as [| | |it|] eqn:Hp; try done.
    assert (Hv : requestQueue (thunk_after_fetch now it r (gov w)).1
                 = requestQueue (gov w)).
    { destruct w as [[c q b l p rl d] ph n s lg]. by destruct r. }
    destruct (thunk_after_fetch now it r (gov w)) as [g o]. cbn [fst] in Hv.
    eapply Nat.le_lt_trans; [apply complete_work|].
    unfold work. rewrite Hp.
    replace (requestQueue (gov (on_gov (fun _ => g) w))) with (requestQueue g)
      by (by destruct w).
    rewrite Hv. lia.
Qed.

Lemma step_no_thunk now (ev : Event (Data:=Data)) w :
  match ev with EvTimer | EvResponse _ => true | _ => false end = true ->
  forall it d, phase (step now ev w) <> AwaitThunk it d.
Proof.
  intros Hev it d. destruct ev; try done; cbn [step]; apply resume_thunk_done.
Qed.

Lemma drain_spec (answer : QItem -> Response (Data:=Data)) latency :
  0 <= latency ->
  forall fuel t w,
    idle_inv w -> (forall it d, phase w <> AwaitThunk it d) ->
    (work w <= fuel)%nat ->
    let tr := drain answer latency fuel t w in
    well_timed t tr w = true
    /\ phase (run tr w) = Idle
    /\ requestQueue (gov (run tr w)) = []
    /\ completed (log (run tr w)) = completed (log w) ++ alive w.
Proof.
  intros Hlat. induction fuel as [|fuel IH]; intros t w Hi Hth Hw; cbv zeta.
  - assert (Hp : phase w = Idle).
    { unfold work in Hw. destruct (phase w); try done; lia. }
    cbn [drain well_timed run]. destruct Hi as [_ Hq]. specialize (Hq Hp).
    unfold alive. rewrite Hp, Hq. cbn [in_flight app]. by rewrite app_nil_r.
  - cbn [drain].
    destruct (phase w) as [|wake|wake|it|it d] eqn:Hp.
    + cbn [well_timed run]. destruct Hi as [_ Hq]. specialize (Hq Hp).
      unfold alive. rewrite Hp, Hq. cbn [in_flight app]. by rewrite app_nil_r.
    + cbv zeta. set (now := Z.max t wake).
      pose proof (event_work now EvTimer w Hi) as Hlt. rewrite Hp in Hlt.
      specialize (Hlt eq_refl).
      destruct (IH now (step now EvTimer w)) as (I1 & I2 & I3 & I4).
      { by apply idle_inv_step. }
      { by apply step_no_thunk. }
      { lia. }
      cbn [well_timed run timer_ok]. rewrite Hp, I1.
      split; [|split; [done|split; [done|]]].
      * apply andb_true_intro. split; [|done].
        apply andb_true_intro. split; apply Z.leb_le; lia.
      * rewrite I4. by apply step_conserve.
    + cbv zeta. set (now := Z.max t wake).
      pose proof (event_work now EvTimer w Hi) as Hlt. rewrite Hp in Hlt.
      specialize (Hlt eq_refl).
      destruct (IH now (step now EvTimer w)) as (I1 & I2 & I3 & I4).
      { by apply idle_inv_step. }
      { by apply step_no_thunk. }
      { lia. }
      cbn [well_timed run timer_ok]. rewrite Hp, I1.
      split; [|split; [done|split; [done|]]].
      * apply andb_true_intro. split; [|done].
        apply andb_true_intro. split; apply Z.leb_le; lia.
      * rewrite I4. by apply step_conserve.
    + cbv zeta. set (now := t + latency).
      pose proof (event_work now (EvResponse (answer it)) w Hi) as Hlt.
      rewrite Hp in Hlt. specialize (Hlt eq_refl).
      destruct (IH now (step now (EvResponse (answer it)) w)) as (I1 & I2 & I3 & I4).
      { by apply idle_inv_step. }
      { by apply step_no_thunk. }
      { lia. }
      cbn [well_timed run timer_ok]. rewrite I1.
      split; [|split; [done|split; [done|]]].
      * apply andb_true_intro. split; [|done].
        apply andb_true_intro. split; [apply Z.leb_le; lia|done].
      * rewrite I4. by apply step_conserve.
    + by destruct (Hth it d).
Qed.

Lemma settled_ok_run tr : forall w, settled_ok w -> settled_ok (run tr w).
Proof.
  induction tr as [|[now ev] tr IH]; intros w H; [done|].
  cbn [run]. apply IH. by apply settled_ok_step.
Qed.

End WithPayload.
End GovernorRuns2.

Module GovernorRuns3.
Import Governor Examples GovernorFacts GovernorRunsDefs GovernorRuns.

Lemma complete_times_snoc (l : list Obs) o :
  complete_times (l ++ [o]) =
  complete_times l ++ match o with ObsComplete _ t => [t] | _ => [] end.
Proof. unfold complete_times. rewrite omap_app. by destruct o. Qed.

Lemma lookup_snoc_Some {A : Type} (l : list A) x i y :
  (l ++ [x]) !! i = Some y ->
  l !! i = Some y \/ (i = length l /\ y = x).
Proof.
  intros H. destruct (decide (i < length l)%nat) as [Hlt|Hge].
  - left. by rewrite lookup_app_l in H.
  - right. rewrite lookup_app_r in H by lia.
    destruct (i - length l)%nat as [|k] eqn:E; cbn in H; [|done].
    split; [lia|congruence].
Qed.

Lemma lookup_last_index {A : Type} (l : list A) i y :
  l !! i = Some y -> S i = length l -> last l = Some y.
Proof. intros H Hl. rewrite last_lookup, <- Hl. exact H. Qed.

Ltac times_simpl :=
  log_simpl; rewrite ?complete_times_snoc in *; cbn iota in *;
  rewrite ?app_nil_r in *.

Section WithPayload.
Context {Data : Type}.
Implicit Types (w : World (Data:=Data)) (g : Fields (Data:=Data)).

Lemma gap_inv_mono t t' w : gap_inv t w -> t <= t' -> gap_inv t' w.
Proof.
  intros [H1 H2 H3 H4 H5 H6] Ht. split; try done.
  intros d Hfl Hd. specialize (H3 d Hfl Hd). lia.
Qed.

Lemma gap_inv_ext t w w' :
  log w' = log w -> phase w' = phase w ->
  lastRequestTime (gov w') = lastRequestTime (gov w) ->
  gap_inv t w -> gap_inv t w'.
Proof.
  intros Hl Hp Ht [H1 H2 H3 H4 H5 H6].
  split; rewrite ?Hl, ?Hp, ?Ht; done.
Qed.

Lemma gap_inv_view t w w' :
  sched_view w' = sched_view w -> gap_inv t w -> gap_inv t w'.
Proof.
  unfold sched_view. intros [= Hl Hq Hp Ht Hb]. by apply gap_inv_ext.
Qed.

Lemma drives_gap (ok : Prop) t now w w' :
  gap_inv t (with_phase Idle w) -> t <= now ->
  (ok -> lastRequestTime (gov w) + MIN_REQUEST_INTERVAL <= now) ->
  drives ok now w w' ->
  gap_inv now w'.
Proof.
  intros [H1 H2 H3 H4 H5 H6] Ht Hok Hd.
  destruct w as [[c q b l p r d] ph n s lg]. wsimpl.
  destruct Hd as [|wake|wake Hw|it rest Hk Hq]; wsimpl.
  - split; wsimpl; try done.
  - split; wsimpl; try done.
  - split; wsimpl; try done. by intros ? [= <-].
  - subst q. specialize (Hok Hk).
    assert (G : gap_inv now
              (mkWorld (mkFields c rest b l p r d) (AwaitFetch it) n s
                 (lg ++ [ObsDispatch it now]))).
    { split; wsimpl; times_simpl; try done.
      - rewrite length_app. cbn [length] in *. lia.
      - intros d0 _. rewrite last_snoc. intros [= <-]. lia.
      - intros i c0 d0 Hc Hd0.
        apply lookup_snoc_Some in Hd0 as [Hd0|[Hi ->]]; [by eapply H5|].
        assert (Hlast : last (complete_times lg) = Some c0).
        { eapply lookup_last_index; [exact Hc|]. cbn [length] in H1. lia. }
        specialize (H2 _ Hlast). lia.
      - intros i d0 c0 Hd0 Hc.
        apply lookup_snoc_Some in Hd0 as [Hd0|[Hi ->]]; [by eapply H6|].
        apply lookup_lt_Some in Hc. cbn [length] in H1. lia. }
    destruct (start_thunk_cases now it
      (observe (ObsDispatch it now)
         (on_gov (with_queue rest)
            (mkWorld (mkFields c (it :: rest) b l p r d) ph n s lg))))
      as [[dd ->] | ->]; wsimpl.
    + destruct G as [G1 G2 G3 G4 G5 G6]. wsimpl. split; wsimpl; done.
    + destruct G as [G1 G2 G3 G4 G5 G6]. wsimpl.
      split; wsimpl; times_simpl; done.
Qed.

Lemma complete_gap t now it o w :
  gap_inv t w -> in_flight (phase w) = [it] -> t <= now ->
  gap_inv now (complete now it o w).
Proof.
  intros [H1 H2 H3 H4 H5 H6] Hfl Ht. rewrite complete_unfold.
  set (w1 := observe _ _).
  pose proof (loop_head_drives now w1) as Hd.
  assert (Hl : lastRequestTime (gov w1) = now).
  { subst w1. by destruct w as [[c q b l p r d] ph n s lg]. }
  rewrite Hl in Hd.
  eapply (drives_gap _ now now); [| lia | | exact Hd]; [|rewrite Hl; done].
  subst w1. destruct w as [[c q b l p r d] ph n s lg]. wsimpl.
  rewrite Hfl in *. cbn [length] in H1.
  split; wsimpl; times_simpl; try done.
  - rewrite length_app. cbn [length]. lia.
  - intros c0. rewrite last_snoc. intros [= <-]. lia.
  - intros i c0 d0 Hc Hd0.
    apply lookup_snoc_Some in Hc as [Hc|[Hi ->]]; [by eapply H5|].
    apply lookup_lt_Some in Hd0. lia.
  - intros i d0 c0 Hd0 Hc.
    apply lookup_snoc_Some in Hc as [Hc|[Hi ->]]; [by eapply H6|].
    assert (Hlast : last (dispatch_times lg) = Some d0).
    { eapply lookup_last_index; [exact Hd0|]. lia. }
    specialize (H3 d0 ltac:(done) Hlast). lia.
Qed.

Lemma resume_thunk_gap t now w :
  gap_inv t w -> t <= now -> gap_inv now (resume_thunk now w).
Proof.
  intros Hg Ht. unfold resume_thunk.
  destruct (phase w) eqn:Hp; try (by eapply gap_inv_mono).
  eapply complete_gap; [exact Hg|by rewrite Hp|done].
Qed.

Lemma idle_phase_gap t w :
  gap_inv t w -> in_flight (phase w) = [] -> gap_inv t (with_phase Idle w).
Proof.
  intros [H1 H2 H3 H4 H5 H6] Hfl.
  destruct w as [[c q b l p r d] ph n s lg]. wsimpl. rewrite Hfl in *.
  split; wsimpl; done.
Qed.

Lemma gap_inv_step t now (ev : Event (Data:=Data)) w :
  idle_inv w -> gap_inv t w -> t <= now -> timer_ok now ev w = true ->
  gap_inv now (step now ev w).
Proof.
  intros Hi Hg Ht Hok. destruct ev as [e ps| |r|]; cbn [step].
  - unfold fetchWithCache. generalize (Url.cacheKey e ps). intros k.
    destruct (cache_lookup now k (gov w)); [by eapply gap_inv_mono|].
    destruct (pendingRequests (gov w) !! k); [by eapply gap_inv_mono|].
    unfold queueRequest. cbn [fst snd].
    set (w0 := mkWorld _ _ _ _ _).
    assert (G0 : gap_inv t w0).
    { destruct Hg as [H1 H2 H3 H4 H5 H6].
      subst w0. destruct w as [[c q b l p rl d] ph n s lg]. wsimpl.
      split; wsimpl; times_simpl; done. }
    assert (G1 : gap_inv now (processQueue now w0)).
    { unfold processQueue.
      destruct (isProcessingQueue (gov w0)) eqn:Hb; cbn [orb];
        [by eapply gap_inv_mono|].
      destruct (requestQueue (gov w0)) as [|it0 rest0] eqn:Hq0;
        [by eapply gap_inv_mono|].
      assert (Hp0 : phase w0 = Idle).
      { destruct Hi as [Hf _]. subst w0.
        destruct w as [[c q b l p rl d] ph n s lg]. wsimpl. by apply Hf. }
      eapply (drives_gap _ t now); [|lia| |apply loop_head_drives]; [|done].
      eapply gap_inv_ext; [| | |apply (idle_phase_gap t w0 G0); by rewrite Hp0];
        by destruct w0 as [[]]. }
    set (w1 := processQueue now w0) in *.
    apply (resume_thunk_gap now now); [|lia].
    eapply gap_inv_ext; [| | |exact G1]; by destruct w1 as [[]].
  - apply (resume_thunk_gap now now); [|lia].
    unfold on_timer, timer_ok in *.
    destruct (phase w) as [|wake|wake|it|it d] eqn:Hp;
      try (by eapply gap_inv_mono).
    + eapply (drives_gap _ t now); [|lia| |apply after_rate_wait_drives]; [|done].
      apply idle_phase_gap; [done|by rewrite Hp].
    + eapply (drives_gap _ t now); [|lia| |apply dispatch_drives].
      * apply idle_phase_gap; [done|by rewrite Hp].
      * intros _. apply Z.leb_le in Hok.
        pose proof (gi_wake _ _ Hg wake Hp). lia.
  - apply (resume_thunk_gap now now); [|lia].
    unfold on_response.
    destruct (phase w) as [|wake|wake|it|it d] eqn:Hp;
      try (by eapply gap_inv_mono).
    pose proof (thunk_after_fetch_view now it r w) as Hv.
    destruct (thunk_after_fetch now it r (gov w)) as [g o]. cbn [fst] in Hv.
    eapply (complete_gap t now); [|by destruct w; cbn in *; subst|done].
    by eapply gap_inv_view.
  - eapply gap_inv_mono; [|exact Ht].
    eapply gap_inv_ext; [| | |exact Hg];
      by destruct w as [[c q b l p rl d] ph n s lg].
Qed.

Lemma gap_inv_run tr : forall t w,
  idle_inv w -> gap_inv t w -> well_timed t tr w = true ->
  gap_inv (end_time t tr) (run tr w).
Proof.
  induction tr as [|[now ev] tr IH]; intros t w Hi Hg Hwt; [done|].
  cbn [well_timed run end_time] in *.
  apply andb_prop in Hwt as [Hwt Hrest]. apply andb_prop in Hwt as [Hle Hok].
  apply Z.leb_le in Hle. apply IH; [by apply idle_inv_step| |done].
  by eapply gap_inv_step.
Qed.

Lemma gap_inv_init : gap_inv 0 (init (Data:=Data)).
Proof. split; try done. Qed.

End WithPayload.
End GovernorRuns3.

Module GovernorRuns4.
Import Governor Examples GovernorFacts GovernorRunsDefs GovernorRuns.

Section WithPayload.
Context {Data : Type}.
Implicit Types (w : World (Data:=Data)) (g : Fields (Data:=Data)).

Lemma reached_init : reached 0 (init (Data:=Data)).
Proof.
  split; [apply sched_inv_init|apply idle_inv_init|apply registry_inv_init
         |apply closure_inv_init|apply promise_inv_init].
Qed.

Lemma reached_step t now (ev : Event (Data:=Data)) w :
  reached t w -> t <= now -> timer_ok now ev w = true ->
  reached now (step now ev w).
Proof.
  intros [H1 H2 H3 H4 H5] Ht Hok. split.
  - by eapply sched_inv_step.
  - by apply idle_inv_step.
  - by eapply registry_inv_step.
  - by apply closure_inv_step.
  - by apply promise_inv_step.
Qed.

Lemma reached_run tr : forall t w,
  reached t w -> well_timed t tr w = true ->
  reached (end_time t tr) (run tr w).
Proof.
  induction tr as [|[now ev] tr IH]; intros t w Hr Hwt; [done|].
  cbn [well_timed run end_time] in *.
  apply andb_prop in Hwt as [Hwt Hrest]. apply andb_prop in Hwt as [Hle Hok].
  apply Z.leb_le in Hle. apply IH; [|done]. by eapply reached_step.
Qed.

Lemma well_timed_app tr tr' : forall t w,
  well_timed t (tr ++ tr') w
  = well_timed t tr w && well_timed (end_time t tr) tr' (run tr w).
Proof.
  induction tr as [|[now ev] tr IH]; intros t w; [done|].
  cbn [app well_timed end_time run]. rewrite IH. by rewrite andb_assoc.
Qed.

Lemma run_app (tr tr' : list (Z * Event (Data:=Data))) : forall w,
  run (tr ++ tr') w = run tr' (run tr w).
Proof. induction tr as [|[now ev] tr IH]; intros w; [done|]. apply IH. Qed.

Lemma end_time_app (tr tr' : list (Z * Event (Data:=Data))) : forall t,
  end_time t (tr ++ tr') = end_time (end_time t tr) tr'.
Proof. induction tr as [|[now ev] tr IH]; intros t; [done|]. apply IH. Qed.

Lemma end_time_le (tr : list (Z * Event (Data:=Data))) : forall t w,
  well_timed t tr w = true -> t <= end_time t tr.
Proof.
  induction tr as [|[now ev] tr IH]; intros t w Hwt; [done|].
  cbn [well_timed end_time] in *.
  apply andb_prop in Hwt as [Hwt Hrest]. apply andb_prop in Hwt as [Hle Hok].
  apply Z.leb_le in Hle. specialize (IH _ _ Hrest). lia.
Qed.

(** The closures that were queued are those that ended and those
    alive. *)
Lemma enqueued_split t w :
  sched_inv t w -> enqueued (log w) = completed (log w) ++ alive w.
Proof.
  intros [[S1 S2 _ _ _ _] _ _]. unfold alive. by rewrite S1, S2, app_assoc.
Qed.

Lemma alive_unsettled t w it :
  sched_inv t w -> promise_inv w -> it ∈ alive w ->
  settled w !! q_promise it = None.
Proof.
  intros Hs [H1 _ H3] Hin. rewrite (enqueued_split t w Hs), fmap_app in H1.
  apply NoDup_app in H1 as (_ & N2 & _).
  apply eq_None_not_Some. intros Hsome. apply H3 in Hsome.
  eapply N2; [exact Hsome|]. by apply list_elem_of_fmap_2.
Qed.

Lemma completed_nodup t w :
  sched_inv t w -> promise_inv w -> NoDup (q_promise <$> completed (log w)).
Proof.
  intros Hs [H1 _ _]. rewrite (enqueued_split t w Hs), fmap_app in H1.
  by apply NoDup_app in H1 as (N1 & _ & _).
Qed.

(** An event ends at most one closure. *)
Lemma resume_thunk_settles now w :
  (settled (resume_thunk now w) = settled w
   /\ completed (log (resume_thunk now w)) = completed (log w))
  \/ (exists it o,
        settled (resume_thunk now w) = <[q_promise it := o]> (settled w)
        /\ completed (log (resume_thunk now w)) = completed (log w) ++ [it]).
Proof.
  unfold resume_thunk. destruct (phase w); try (by left).
  right. exists it, (Resolved d).
  destruct (complete_spec now it (Resolved d) w) as (_ & _ & _ & _ & E5 & E6 & _).
  rewrite E5, E6. by log_simpl.
Qed.

Lemma step_settles now (ev : Event (Data:=Data)) w :
  (settled (step now ev w) = settled w
   /\ completed (log (step now ev w)) = completed (log w))
  \/ (exists it o,
        settled (step now ev w) = <[q_promise it := o]> (settled w)
        /\ completed (log (step now ev w)) = completed (log w) ++ [it]).
Proof.
  assert (Hres : forall w0,
            settled w0 = settled w -> completed (log w0) = completed (log w) ->
            (settled (resume_thunk now w0) = settled w
             /\ completed (log (resume_thunk now w0)) = completed (log w))
            \/ (exists it o,
                  settled (resume_thunk now w0) = <[q_promise it := o]> (settled w)
                  /\ completed (log (resume_thunk now w0))
                     = completed (log w) ++ [it])).
  { intros w0 <- <-. apply resume_thunk_settles. }
  destruct ev as [e ps| |r|]; cbn [step].
  - unfold fetchWithCache. generalize (Url.cacheKey e ps). intros k.
    destruct (cache_lookup now k (gov w)); [by left|].
    destruct (pendingRequests (gov w) !! k); [by left|].
    unfold queueRequest. cbn [fst snd].
    set (w0 := mkWorld _ _ _ _ _).
    assert (H0 : settled (processQueue now w0) = settled w
                 /\ completed (log (processQueue now w0)) = completed (log w)).
    { assert (E0 : settled w0 = settled w
                   /\ completed (log w0) = completed (log w)).
      { subst w0. destruct w as [[c q b l p rl d] ph n s lg]. wsimpl.
        by log_simpl. }
      unfold processQueue. destruct (_ || _); [done|].
      destruct (drives_quiet _ _ _ _
        (loop_head_drives now (on_gov (with_processing true) w0))) as [-> ->].
      destruct E0 as [<- <-]. by destruct w0 as [[]]. }
    destruct H0 as [H0 H0'].
    apply Hres; by destruct (processQueue now w0) as [[]].
  - apply Hres; unfold on_timer; destruct (phase w); try done.
    + by destruct (drives_quiet _ _ _ _ (after_rate_wait_drives now w)).
    + by destruct (drives_quiet _ _ _ _ (dispatch_drives now w)).
    + by destruct (drives_quiet _ _ _ _ (after_rate_wait_drives now w)).
    + by destruct (drives_quiet _ _ _ _ (dispatch_drives now w)).
  - destruct (phase w) as [| | |it|] eqn:Hp.
    4:{ right. exists it, (thunk_after_fetch now it r (gov w)).2.
        destruct (response_spec now it r w Hp) as (_ & _ & _ & _ & E5 & E6 & _).
        cbn [step] in E5, E6. rewrite E5, E6. by log_simpl. }
    all: apply Hres; unfold on_response; by rewrite Hp.
  - left. by destruct w as [[c q b l p rl d] ph n s lg].
Qed.

(** A settled promise keeps its outcome. *)
Lemma settled_stable_step t now (ev : Event (Data:=Data)) w p o :
  reached t w -> t <= now -> timer_ok now ev w = true ->
  settled w !! p = Some o -> settled (step now ev w) !! p = Some o.
Proof.
  intros Hr Ht Hok Hp.
  pose proof (reached_step t now ev w Hr Ht Hok) as [Hs' _ _ _ Hp'].
  pose proof (completed_nodup _ _ Hs' Hp') as Hnd.
  destruct Hr as [_ _ _ _ [_ _ Hset]].
  destruct (step_settles now ev w) as [[-> _]|(it & o' & -> & Hc)]; [done|].
  rewrite Hc, fmap_app in Hnd. apply NoDup_app in Hnd as (_ & N2 & _).
  rewrite lookup_insert_ne; [done|]. intros <-.
  eapply N2; [|by left]. apply Hset. by eexists.
Qed.

Lemma settled_stable_run tr : forall t w p o,
  reached t w -> well_timed t tr w = true ->
  settled w !! p = Some o -> settled (run tr w) !! p = Some o.
Proof.
  induction tr as [|[now ev] tr IH]; intros t w p o Hr Hwt Hp; [done|].
  cbn [well_timed run] in *.
  apply andb_prop in Hwt as [Hwt Hrest]. apply andb_prop in Hwt as [Hle Hok].
  apply Z.leb_le in Hle. apply (IH now); [by eapply reached_step|done|].
  by eapply settled_stable_step.
Qed.

(** *** A key whose closure threw *)

Lemma alive_keys_nodup w :
  closure_inv w -> (forall it, it ∈ alive w -> registered w it) ->
  NoDup (q_key <$> alive w).
Proof.
  intros Hci Hreg. apply NoDup_alt. intros i j k Hi Hj.
  rewrite list_lookup_fmap in Hi, Hj.
  destruct (alive w !! i) as [it1|] eqn:E1; [|done].
  destruct (alive w !! j) as [it2|] eqn:E2; [|done].
  cbn in Hi, Hj. injection Hi as Hi. injection Hj as Hj.
  eapply (registered_unique w i j it1 it2); try done.
  - apply Hreg. by eapply list_elem_of_lookup_2.
  - apply Hreg. by eapply list_elem_of_lookup_2.
  - congruence.
Qed.

Lemma poisoned_step t now (ev : Event (Data:=Data)) w k p e :
  match ev with EvClearCache => false | _ => true end = true ->
  reached t w -> t <= now -> timer_ok now ev w = true ->
  poisoned k p e w -> poisoned k p e (step now ev w).
Proof.
  intros Hev Hr Ht Hok [P1 P2 P3]. split.
  - destruct (step_closures now ev w)
      as [(Ha & _ & Hp)|(e' & ps & -> & Hnone & Ha & _ & Hp)].
    + destruct ev as [e' ps| |r|]; try done; try (by rewrite Hp).
      destruct Hp as [Hp|(it0 & Hph & _ & Hp)]; [by rewrite Hp|].
      rewrite Hp, lookup_delete_ne; [done|].
      apply P3. unfold alive. rewrite Hph. by left.
    + rewrite Hp, lookup_insert_ne; [done|].
      intros Hk. cbv zeta in Hnone. rewrite Hk in Hnone. congruence.
  - by eapply settled_stable_step.
  - intros it Hin.
    destruct (step_closures now ev w)
      as [(Ha & _ & _)|(e' & ps & -> & Hnone & Ha & _ & _)].
    + apply P3. by eapply elem_of_sublist.
    + apply (elem_of_sublist _ _ _ Hin) in Ha.
      apply elem_of_app in Ha as [Ha|Ha]; [by apply P3|].
      apply list_elem_of_singleton in Ha. subst it. cbn [q_key].
      intros Hk. cbv zeta in Hnone. rewrite Hk in Hnone. congruence.
Qed.

Lemma poisoned_run tr : forall t w k p e,
  never_cleared tr = true -> reached t w -> well_timed t tr w = true ->
  poisoned k p e w -> poisoned k p e (run tr w).
Proof.
  induction tr as [|[now ev] tr IH]; intros t w k p e Hnc Hr Hwt Hp; [done|].
  cbn [well_timed run never_cleared forallb snd] in *.
  apply andb_prop in Hwt as [Hwt Hrest]. apply andb_prop in Hwt as [Hle Hok].
  apply Z.leb_le in Hle. apply andb_prop in Hnc as [Hev Hnc].
  apply (IH now); [done|by eapply reached_step|done|].
  by eapply poisoned_step.
Qed.

Lemma thrown_poisons t now r e it w :
  reached t w -> (forall it', it' ∈ alive w -> registered w it') ->
  phase w = AwaitFetch it -> thrown r = Some e ->
  poisoned (q_key it) (q_promise it) e (step now (EvResponse r) w).
Proof.
  intros Hr Hreg Hp Hth.
  destruct (response_spec now it r w Hp) as (_ & E2 & E3 & _ & E5 & _ & E7 & _).
  destruct (thunk_after_fetch_store now it r (gov w)) as [T1 _].
  assert (Hal : alive w = it :: requestQueue (gov w)).
  { unfold alive. by rewrite Hp. }
  pose proof (alive_keys_nodup w (re_closures _ _ Hr) Hreg) as Hnd.
  rewrite Hal in Hnd. cbn in Hnd. apply NoDup_cons in Hnd as [Hnotin _].
  split.
  - rewrite E2, T1.
    replace (match r with
             | HttpNotOk _ _ | HttpOk _ => delete (q_key it) (pendingRequests (gov w))
             | _ => pendingRequests (gov w)
             end) with (pendingRequests (gov w)) by (by destruct r).
    apply Hreg. rewrite Hal. by left.
  - rewrite E5, lookup_insert_eq. f_equal.
    destruct r; cbn in Hth; try done; by injection Hth as <-.
  - intros it' Hin Hk. apply Hnotin. rewrite <- Hk.
    apply list_elem_of_fmap_2. unfold alive in Hin. by rewrite E7, E3 in Hin.
Qed.

End WithPayload.
End GovernorRuns4.

Module GovernorTheorems.
Import Governor Examples GovernorFacts GovernorRunsDefs GovernorRuns.

(** X1: on every run from a new client, [processQueue] is running exactly
    while its flag is set, and whenever it is not running the queue is
    empty: no closure is left queued without a dispatcher. *)
Theorem idle_dispatcher_has_empty_queue {Data : Type}
  (tr : list (Z * Event (Data:=Data))) :
  let w := run tr init in
  (isProcessingQueue (gov w) = false <-> phase w = Idle)
  /\ (phase w = Idle -> requestQueue (gov w) = [])
  /\ (requestQueue (gov w) <> [] -> isProcessingQueue (gov w) = true).
Proof.
  cbv zeta. destruct (idle_inv_run tr init idle_inv_init) as [H1 H2].
  split; [done|]. split; [done|]. intros Hq.
  destruct (isProcessingQueue (gov (run tr init))); [done|].
  destruct Hq. by apply H2, H1.
Qed.

(** X2: as long as [clearCache] is not called, the second look at the
    cache inside a queued closure never finds an entry: every closure
    taken off the queue calls the network. *)
Theorem every_dispatch_calls_the_network {Data : Type}
  (tr : list (Z * Event (Data:=Data))) :
  well_timed 0 tr init = true -> never_cleared tr = true ->
  net_calls (log (run tr init)) = dispatched (log (run tr init)).
Proof.
  intros Hwt Hnc.
  apply (net_run tr 0 init Hwt Hnc idle_inv_init registry_inv_init
           closure_inv_init); [|done].
  intros it Hin. by apply elem_of_nil in Hin.
Qed.

Lemma every_dispatch_calls_the_network_witness :
  net_calls (log (run three_calls init)) = dispatched (log (run three_calls init)).
Proof. apply (every_dispatch_calls_the_network three_calls); reflexivity. Defined.

(** X3: on every run whose clock starts at 0 or later, no lock-out is
    ever set, the retry delay stays 5000 and [processQueue] is never in
    its rate-limit wait, whatever the transport answers. *)
Theorem rate_limit_wait_is_never_entered {Data : Type}
  (tr : list (Z * Event (Data:=Data))) :
  well_timed 0 tr init = true ->
  let w := run tr init in
  rateLimitedUntil (gov w) = 0 /\ retryDelay (gov w) = 5000
  /\ forall wake, phase w <> WaitRateLimit wake.
Proof.
  intros Hwt. cbv zeta.
  by destruct (unlimited_run tr 0 init ltac:(lia) Hwt unlimited_init).
Qed.

Lemma rate_limit_wait_is_never_entered_witness :
  let w := run rate_limited init in
  rateLimitedUntil (gov w) = 0 /\ retryDelay (gov w) = 5000
  /\ forall wake, phase w <> WaitRateLimit wake.
Proof. apply (rate_limit_wait_is_never_entered rate_limited). reflexivity. Defined.

(** X4: whatever the transport answers for the closure in flight, the
    queue goes on: the closure is logged as ended, the queue is as it was,
    [lastRequestTime] is the time of the answer, and [processQueue] is
    idle when the queue is empty and otherwise in the spacing wait that is
    over 2000 ms later; the timer then takes the head of the queue. *)
Theorem response_hands_over_to_next {Data : Type} now it
  (r : Response (Data:=Data)) w :
  phase w = AwaitFetch it -> rateLimitedUntil (gov w) <= now ->
  let w' := step now (EvResponse r) w in
  requestQueue (gov w') = requestQueue (gov w)
  /\ lastRequestTime (gov w') = now
  /\ completed (log w') = completed (log w) ++ [it]
  /\ phase w' = match requestQueue (gov w) with
                | [] => Idle
                | _ :: _ => WaitSpacing (now + MIN_REQUEST_INTERVAL)
                end
  /\ forall it' rest now',
       requestQueue (gov w) = it' :: rest ->
       dispatched (log (step now' EvTimer w')) = dispatched (log w) ++ [it']
       /\ requestQueue (gov (step now' EvTimer w')) = rest.
Proof.
  intros Hp Hr. cbv zeta.
  destruct (response_spec now it r w Hp) as (_ & _ & E3 & E4 & _ & E6 & _ & E8).
  specialize (E8 Hr).
  split; [done|]. split; [done|]. split; [rewrite E6; by log_simpl|].
  split; [done|]. intros it' rest now' Hq.
  rewrite Hq in E8.
  destruct (timer_dispatches now' _ _ it' rest E8) as [T1 T2].
  { by rewrite E3. }
  split; [|done]. rewrite T1, E6. by log_simpl.
Qed.

Lemma response_hands_over_to_next_witness :
  let w := run two_callers init in
  let w' := step 5300 (EvResponse (HttpNotOk 500 "oops")) w in
  requestQueue (gov w') = requestQueue (gov w)
  /\ lastRequestTime (gov w') = 5300
  /\ completed (log w')
     = completed (log w) ++ [mkItem "/stock?name=TCS" "/stock" [("name", "TCS")] 0]
  /\ phase w' = match requestQueue (gov w) with
                | [] => Idle
                | _ :: _ => WaitSpacing (5300 + MIN_REQUEST_INTERVAL)
                end
  /\ forall it' rest now',
       requestQueue (gov w) = it' :: rest ->
       dispatched (log (step now' EvTimer w')) = dispatched (log w) ++ [it']
       /\ requestQueue (gov (step now' EvTimer w')) = rest.
Proof.
  apply (response_hands_over_to_next 5300
           (mkItem "/stock?name=TCS" "/stock" [("name", "TCS")] 0)
           (HttpNotOk 500 "oops") (run two_callers init)).
  - reflexivity.
  - vm_compute. discriminate.
Defined.

(** X6: an ok answer resolves the promise of the closure in flight with
    the payload, stores the payload under the closure's key with the time
    of the answer and takes the key out of the registry; a call that
    computes this key less than the cache duration later returns the
    payload and changes nothing. *)
Theorem ok_response_round_trip {Data : Type} now now' it (d : Data)
  endpoint params w :
  phase w = AwaitFetch it -> q_key it = Url.cacheKey endpoint params ->
  now' - now < CACHE_DURATION ->
  let w' := step now (EvResponse (HttpOk d)) w in
  settled w' !! q_promise it = Some (Resolved d)
  /\ cache (gov w') !! q_key it = Some (d, now)
  /\ pendingRequests (gov w') !! q_key it = None
  /\ fetchWithCache now' endpoint params w' = (w', Hit d).
Proof.
  intros Hp Hk Hlt. cbv zeta.
  destruct (response_spec now it (HttpOk d) w Hp) as (E1 & E2 & _ & _ & E5 & _).
  destruct (thunk_after_fetch_store now it (HttpOk d) (gov w)) as [T1 T2].
  rewrite T1 in E2. rewrite T2 in E1. cbn [thunk_after_fetch snd] in E5.
  assert (Hc : cache (gov (step now (EvResponse (HttpOk d)) w)) !! q_key it
               = Some (d, now)) by (by rewrite E1, lookup_insert_eq).
  split; [by rewrite E5, lookup_insert_eq|]. split; [done|].
  split; [by rewrite E2, lookup_delete_eq|].
  unfold fetchWithCache, cache_lookup. rewrite <- Hk, Hc.
  by destruct (Z.ltb_spec (now' - now) CACHE_DURATION); [|lia].
Qed.

Lemma ok_response_round_trip_witness :
  let w := run [(5000, EvCall "/trending" [])] (init (Data:=nat)) in
  let it := mkItem "/trending?" "/trending" [] 0 in
  let w' := step 5100 (EvResponse (HttpOk 7%nat)) w in
  settled w' !! q_promise it = Some (Resolved 7%nat)
  /\ cache (gov w') !! q_key it = Some (7%nat, 5100)
  /\ pendingRequests (gov w') !! q_key it = None
  /\ fetchWithCache 305099 "/trending" [] w' = (w', Hit 7%nat).
Proof.
  apply (ok_response_round_trip 5100 305099 (mkItem "/trending?" "/trending" [] 0)
           7%nat "/trending" [] (run [(5000, EvCall "/trending" [])] init));
    reflexivity.
Defined.

(** X7: the cache is written in two places only.  An ok answer for the
    closure in flight stores its payload under the closure's key with the
    time of the answer, [clearCache] empties the cache; calls, timers and
    every other answer leave the cache as it is. *)
Theorem cache_changes_only_by_ok_response_or_clear {Data : Type} now
  (ev : Event (Data:=Data)) w :
  cache (gov (step now ev w))
  = match ev, phase w with
    | EvResponse (HttpOk d), AwaitFetch it => <[q_key it := (d, now)]> (cache (gov w))
    | EvClearCache, _ => ∅
    | _, _ => cache (gov w)
    end.
Proof.
  destruct ev as [e ps| |r|].
  - destruct (fetchWithCache_store now e ps w) as (Hc & _). exact Hc.
  - cbn [step].
    destruct (keeps_trans _ _ _ (on_timer_keeps now w)
                (resume_thunk_keeps now (on_timer now w))) as [Hc _ _ _ _ _].
    exact Hc.
  - destruct (phase w) as [| | |it|] eqn:Hp.
    4:{ destruct (response_spec now it r w Hp) as (E1 & _).
        rewrite E1. destruct (thunk_after_fetch_store now it r (gov w)) as [_ ->].
        by destruct r. }
    all: cbn [step]; unfold on_response; rewrite Hp;
      destruct (resume_thunk_keeps now w) as [Hc _ _ _ _ _]; rewrite Hc;
      by destruct r.
  - by destruct w as [[c q b l p rl d] ph n s lg].
Qed.

(** X8: [getIndianApiClient] hands out a governor in the state the
    constructor leaves, whatever client there was before.  The first call
    through it, at any time from 2000 on, is a miss that is taken off the
    queue and sent to the network at once: nothing an earlier client has
    cached, registered or timed is seen. *)
Theorem new_client_fetches_at_once {Data : Type}
  (prev : option (World (Data:=Data))) now endpoint params :
  MIN_REQUEST_INTERVAL <= now ->
  let c := (getIndianApiClient prev).2 in
  let it := mkItem (Url.cacheKey endpoint params) endpoint params 0 in
  c = init
  /\ exists w',
       fetchWithCache now endpoint params c = (w', Await 0%nat)
       /\ phase w' = AwaitFetch it
       /\ log w' = [ObsEnqueue it; ObsDispatch it now; ObsNetCall it now]
       /\ requestQueue (gov w') = [].
Proof.
  intros Hn. cbv zeta. split; [done|].
  unfold getIndianApiClient. cbn [snd].
  unfold fetchWithCache. generalize (Url.cacheKey endpoint params). intros k.
  unfold clearCache, init, init_fields, cache_lookup. wsimpl.
  rewrite !lookup_empty. unfold queueRequest, processQueue. wsimpl.
  cbn [app orb]. unfold loop_head. wsimpl.
  destruct (Z.ltb_spec now 0); [unfold MIN_REQUEST_INTERVAL in Hn; lia|].
  unfold after_rate_wait. wsimpl.
  destruct (Z.ltb_spec (now - 0) MIN_REQUEST_INTERVAL); [lia|].
  unfold dispatch. wsimpl. unfold start_thunk, cache_lookup. wsimpl.
  rewrite lookup_empty. wsimpl. unfold resume_thunk. wsimpl.
  eexists. split; [reflexivity|]. by wsimpl.
Qed.

Lemma new_client_fetches_at_once_witness :
  let c := (getIndianApiClient (Some (run cached_once init))).2 in
  let it := mkItem (Url.cacheKey "/trending" []) "/trending" [] 0 in
  c = init
  /\ exists w',
       fetchWithCache 5200 "/trending" [] c = (w', Await 0%nat)
       /\ phase w' = AwaitFetch it
       /\ log w' = [ObsEnqueue it; ObsDispatch it 5200; ObsNetCall it 5200]
       /\ requestQueue (gov w') = [].
Proof.
  apply (new_client_fetches_at_once (Some (run cached_once init)) 5200
           "/trending" []).
  vm_compute. discriminate.
Defined.

End GovernorTheorems.

Module GovernorTheorems2.
Import Governor Examples GovernorFacts GovernorRunsDefs GovernorRuns.
Import GovernorRunsDefs GovernorRuns2 GovernorRuns3.

(** X9: a call of [fetch] that is never answered stalls the queue.  While
    no answer arrives, whatever calls, timers and [clearCache] there are,
    the same closure stays in flight, nothing more is taken off the queue
    or sent to the network, no promise is settled, and the queue only
    grows. *)
Theorem unanswered_call_stalls_the_queue {Data : Type}
  (tr tr' : list (Z * Event (Data:=Data))) it :
  phase (run tr init) = AwaitFetch it -> unanswered tr' = true ->
  let w := run tr init in
  let w' := run tr' w in
  phase w' = AwaitFetch it
  /\ dispatched (log w') = dispatched (log w)
  /\ net_calls (log w') = net_calls (log w)
  /\ completed (log w') = completed (log w)
  /\ settled w' = settled w
  /\ requestQueue (gov w) `prefix_of` requestQueue (gov w').
Proof.
  intros Hp Hun. cbv zeta. apply stalled_run; [|done|done].
  apply idle_inv_run, idle_inv_init.
Qed.

Lemma unanswered_call_stalls_the_queue_witness :
  let w := run one_call init in
  let w' := run no_answer w in
  phase w' = AwaitFetch (mkItem "/trending?" "/trending" [] 0)
  /\ dispatched (log w') = dispatched (log w)
  /\ net_calls (log w') = net_calls (log w)
  /\ completed (log w') = completed (log w)
  /\ settled w' = settled w
  /\ requestQueue (gov w) `prefix_of` requestQueue (gov w').
Proof.
  apply (unanswered_call_stalls_the_queue one_call no_answer
           (mkItem "/trending?" "/trending" [] 0)); reflexivity.
Defined.

(** X10: when no further call comes, every timer fires when it is due and
    every call of [fetch] is answered, the governor empties its queue:
    after a bounded number of events [processQueue] is idle, the closures
    that were in flight or queued have ended in the order they were
    queued, and each of their promises is settled, whatever the answers
    were. *)
Theorem queue_is_emptied_in_order {Data : Type}
  (answer : QItem -> Response (Data:=Data)) latency
  (tr : list (Z * Event (Data:=Data))) :
  0 <= latency -> well_timed 0 tr init = true ->
  let w := run tr init in
  let tr' := drain answer latency (work w) (end_time 0 tr) w in
  well_timed (end_time 0 tr) tr' w = true
  /\ phase (run tr' w) = Idle
  /\ requestQueue (gov (run tr' w)) = []
  /\ completed (log (run tr' w)) = completed (log w) ++ alive w
  /\ (forall it, it ∈ alive w -> is_Some (settled (run tr' w) !! q_promise it)).
Proof.
  intros Hlat Hwt. cbv zeta.
  destruct (sched_inv_run tr 0 init sched_inv_init Hwt) as [_ _ Hth].
  pose proof (idle_inv_run tr init idle_inv_init) as Hi.
  destruct (promise_inv_run tr init promise_inv_init) as [_ _ Hs].
  destruct (drain_spec answer latency Hlat (work (run tr init))
              (end_time 0 tr) (run tr init) Hi Hth ltac:(lia))
    as (D1 & D2 & D3 & D4).
  repeat split; try done.
  intros it Hin.
  apply (settled_ok_run (drain answer latency (work (run tr init))
                           (end_time 0 tr) (run tr init)) _ Hs).
  rewrite D4, fmap_app. apply elem_of_app. right. by apply list_elem_of_fmap_2.
Qed.

Lemma queue_is_emptied_in_order_witness :
  let answer := fun it => HttpOk (q_promise it) in
  let w := run three_pending init in
  let tr' := drain answer 100 (work w) (end_time 0 three_pending) w in
  well_timed (end_time 0 three_pending) tr' w = true
  /\ phase (run tr' w) = Idle
  /\ requestQueue (gov (run tr' w)) = []
  /\ completed (log (run tr' w)) = completed (log w) ++ alive w
  /\ (forall it, it ∈ alive w -> is_Some (settled (run tr' w) !! q_promise it)).
Proof.
  apply (queue_is_emptied_in_order (fun it => HttpOk (q_promise it)) 100
           three_pending).
  - lia.
  - reflexivity.
Defined.

(** The events that empty the queue of the example. *)
Example three_pending_drain :
  let w := run three_pending init in
  drain (fun it => HttpOk (q_promise it)) 100 (work w) 5000 w
  = [(5100, EvResponse (HttpOk 0%nat)); (7100, EvTimer);
     (7200, EvResponse (HttpOk 1%nat)); (9200, EvTimer);
     (9300, EvResponse (HttpOk 2%nat))].
Proof. by vm_compute. Qed.

(** X11: the spacing counts from the end of the previous closure.  The
    closures end in the order they were taken off the queue, none before
    it was taken off, and the next one is taken off at least 2000 ms after
    the previous one ended. *)
Theorem next_dispatch_waits_for_the_end {Data : Type}
  (tr : list (Z * Event (Data:=Data))) :
  well_timed 0 tr init = true ->
  let w := run tr init in
  completed (log w) `prefix_of` dispatched (log w)
  /\ (forall i d c,
        dispatch_times (log w) !! i = Some d ->
        complete_times (log w) !! i = Some c -> d <= c)
  /\ (forall i c d,
        complete_times (log w) !! i = Some c ->
        dispatch_times (log w) !! S i = Some d -> c + 2000 <= d).
Proof.
  intros Hwt. cbv zeta.
  destruct (sched_inv_run tr 0 init sched_inv_init Hwt) as [[_ S2 _ _ _ _] _ _].
  destruct (gap_inv_run tr 0 init idle_inv_init gap_inv_init Hwt)
    as [_ _ _ _ G5 G6].
  split; [rewrite S2; by apply prefix_app_r|]. by split.
Qed.

Lemma next_dispatch_waits_for_the_end_witness :
  let w := run three_calls init in
  completed (log w) `prefix_of` dispatched (log w)
  /\ (forall i d c,
        dispatch_times (log w) !! i = Some d ->
        complete_times (log w) !! i = Some c -> d <= c)
  /\ (forall i c d,
        complete_times (log w) !! i = Some c ->
        dispatch_times (log w) !! S i = Some d -> c + 2000 <= d).
Proof. apply (next_dispatch_waits_for_the_end three_calls). reflexivity. Defined.

Example three_calls_end_times :
  complete_times (log (run three_calls init)) = [5300; 7450; 9600].
Proof. by vm_compute. Qed.

End GovernorTheorems2.

Module GovernorTheorems3.
Import Governor Examples GovernorFacts GovernorRunsDefs GovernorRuns
  GovernorRuns4.

(** X5: every promise is settled at most once.  On every run the
    promises of the closures queued so far are distinct, the settled
    promises are exactly those of the closures that have ended, none of
    which ended twice, the promise of a closure still queued or in flight
    is pending, and a settled promise keeps its outcome for the rest of
    the run. *)
Theorem promises_are_settled_once {Data : Type}
  (tr tr' : list (Z * Event (Data:=Data))) :
  well_timed 0 (tr ++ tr') init = true ->
  let w := run tr init in
  NoDup (q_promise <$> enqueued (log w))
  /\ (forall p, is_Some (settled w !! p)
                <-> p ∈ q_promise <$> completed (log w))
  /\ NoDup (q_promise <$> completed (log w))
  /\ (forall it, it ∈ alive w -> settled w !! q_promise it = None)
  /\ (forall p o, settled w !! p = Some o ->
                  settled (run (tr ++ tr') init) !! p = Some o).
Proof.
  intros Hwt. cbv zeta.
  rewrite well_timed_app in Hwt. apply andb_prop in Hwt as [Hwt1 Hwt2].
  pose proof (reached_run tr 0 init reached_init Hwt1) as Hr.
  destruct Hr as [Hs Hi Hg Hc Hp].
  split; [by destruct Hp|]. split; [by destruct Hp|].
  split; [by eapply completed_nodup|]. split.
  - intros it Hin. by eapply alive_unsettled.
  - intros p o Hset. rewrite run_app.
    eapply settled_stable_run; [|exact Hwt2|exact Hset]. by split.
Qed.

Lemma promises_are_settled_once_witness :
  let w := run (take 4 three_calls) init in
  NoDup (q_promise <$> enqueued (log w))
  /\ (forall p, is_Some (settled w !! p)
                <-> p ∈ q_promise <$> completed (log w))
  /\ NoDup (q_promise <$> completed (log w))
  /\ (forall it, it ∈ alive w -> settled w !! q_promise it = None)
  /\ (forall p o, settled w !! p = Some o ->
                  settled (run (take 4 three_calls ++ drop 4 three_calls) init) !! p
                  = Some o).
Proof.
  apply (promises_are_settled_once (take 4 three_calls) (drop 4 three_calls)).
  reflexivity.
Defined.

(** X26: when the closure in flight throws because [fetch] rejects or
    the body cannot be read, its key is lost until [clearCache]: the
    promise is rejected, the key stays registered with it, and on every
    continuation of the run each later call of [fetchWithCache] for the
    key is handed this rejected promise and nothing is fetched. *)
Theorem thrown_fetch_poisons_its_key {Data : Type}
  (tr tr' : list (Z * Event (Data:=Data))) now it r e :
  well_timed 0 (tr ++ (now, EvResponse r) :: tr') init = true ->
  never_cleared (tr ++ tr') = true ->
  phase (run tr init) = AwaitFetch it ->
  thrown r = Some e ->
  let w := run (tr ++ (now, EvResponse r) :: tr') init in
  settled w !! q_promise it = Some (Rejected e)
  /\ pendingRequests (gov w) !! q_key it = Some (q_promise it)
  /\ forall now' endpoint params,
       end_time 0 (tr ++ (now, EvResponse r) :: tr') <= now' ->
       Url.cacheKey endpoint params = q_key it ->
       fetchWithCache now' endpoint params w = (w, Await (q_promise it)).
Proof.
  intros Hwt Hnc Hp Hth. cbv zeta.
  rewrite well_timed_app in Hwt. apply andb_prop in Hwt as [Hwt1 Hwt2].
  unfold never_cleared in Hnc. rewrite forallb_app in Hnc.
  apply andb_prop in Hnc as [Hnc1 Hnc2].
  cbn [well_timed] in Hwt2.
  apply andb_prop in Hwt2 as [Hwt2 Hwt3]. apply andb_prop in Hwt2 as [Hle Hok].
  apply Z.leb_le in Hle.
  rewrite run_app, end_time_app. cbn [run end_time].
  pose proof (reached_run tr 0 init reached_init Hwt1) as Hr.
  set (w0 := run tr init) in *. set (t0 := end_time 0 tr) in *.
  assert (Hreg : forall it', it' ∈ alive w0 -> registered w0 it').
  { apply registered_run; [done|apply closure_inv_init|].
    intros it' Hin. by apply elem_of_nil in Hin. }
  pose proof (thrown_poisons t0 now r e it w0 Hr Hreg Hp Hth) as Hpo.
  pose proof (reached_step t0 now (EvResponse r) w0 Hr Hle Hok) as Hr1.
  pose proof (poisoned_run tr' now _ _ _ _ Hnc2 Hr1 Hwt3 Hpo) as [P1 P2 P3].
  pose proof (reached_run tr' now _ Hr1 Hwt3) as [_ _ [Hstale _] _ _].
  split; [done|]. split; [done|].
  intros now' e' ps Hn Hk. unfold fetchWithCache. rewrite Hk.
  by rewrite (Hstale _ _ now' P1 Hn), P1.
Qed.

Lemma thrown_fetch_poisons_its_key_witness :
  let tr' := [(900000, EvCall "/trending" []); (900001, EvTimer)] in
  let r := FetchThrows (Error "Failed to fetch") in
  let it := mkItem "/trending?" "/trending" [] 0 in
  let w := run ([(5000, EvCall "/trending" [])] ++ (5100, EvResponse r) :: tr')
             (init (Data:=nat)) in
  settled w !! q_promise it = Some (Rejected (Error "Failed to fetch"))
  /\ pendingRequests (gov w) !! q_key it = Some (q_promise it)
  /\ forall now' endpoint params,
       end_time 0 ([(5000, EvCall "/trending" [])] ++ (5100, EvResponse r) :: tr')
       <= now' ->
       Url.cacheKey endpoint params = q_key it ->
       fetchWithCache now' endpoint params w = (w, Await (q_promise it)).
Proof.
  apply (thrown_fetch_poisons_its_key [(5000, EvCall "/trending" [])]
           [(900000, EvCall "/trending" []); (900001, EvTimer)] 5100
           (mkItem "/trending?" "/trending" [] 0)
           (FetchThrows (Error "Failed to fetch")) (Error "Failed to fetch"));
    reflexivity.
Defined.

End GovernorTheorems3.

(** * Further properties of the public operations *)

Module ClientRuns.
Import Js Client Examples Shapes.

Lemma each_total {A B : Type} (f : A -> Outcome B) (l : list A) :
  Forall (fun x => exists y, f x = Resolved y) l ->
  exists ys, each f l = Resolved ys.
Proof.
  induction 1 as [|x l [y Hy] _ [ys IH]]; [by exists []|].
  exists (y :: ys). cbn [each]. by rewrite Hy, IH.
Qed.

Lemma each_lookup {A B : Type} (f : A -> Outcome B) (l : list A) ys :
  each f l = Resolved ys ->
  length ys = length l
  /\ forall i x, l !! i = Some x -> exists y, ys !! i = Some y /\ f x = Resolved y.
Proof.
  revert ys. induction l as [|x l IH]; intros ys H; cbn [each] in H.
  - injection H as <-. split; [done|]. by intros i x.
  - destruct (f x) as [y|e] eqn:Hy; [|done]. cbn [mbind outcome_bind] in H.
    destruct (each f l) as [ys'|e]; [|done]. cbn [mbind outcome_bind] in H.
    injection H as <-. destruct (IH ys' eq_refl) as [Hl Hi].
    split; [cbn; by rewrite Hl|].
    intros [|i] x'; cbn.
    + intros [= <-]. by exists y.
    + apply Hi.
Qed.

Lemma each_rejects {A B : Type} (f : A -> Outcome B) (l : list A) :
  Exists (fun x => exists e, f x = Rejected e) l ->
  exists e, each f l = Rejected e.
Proof.
  induction 1 as [x l [e He]|x l _ [e IH]]; cbn [each].
  - rewrite He. by exists e.
  - destruct (f x) as [y|e']; [|by exists e'].
    cbn [mbind outcome_bind]. rewrite IH. by exists e.
Qed.

Lemma each_forall {A B : Type} (f : A -> Outcome B) (P : B -> Prop) l ys :
  each f l = Resolved ys -> (forall x y, f x = Resolved y -> P y) -> Forall P ys.
Proof.
  intros He HP. destruct (each_lookup f l ys He) as [Hlen Hi].
  apply Forall_lookup. intros i y Hy.
  destruct (l !! i) as [x|] eqn:Hx.
  - destruct (Hi i x Hx) as (y' & Hy' & Hf).
    rewrite Hy in Hy'. injection Hy' as <-. by eapply HP.
  - apply lookup_lt_Some in Hy. apply lookup_ge_None in Hx. lia.
Qed.

Section WithNumbers.
Context {N : Numbers}.

Lemma get_total (v : Val) name :
  nullish v = false -> exists x, get v name = Resolved x.
Proof. destruct v; try done; cbn; eauto. Qed.

Lemma get_nullish (v : Val) name :
  nullish v = true -> exists e, get v name = Rejected e.
Proof. destruct v; try done; cbn; eauto. Qed.

Lemma card_total sk nk ty (s : Val) :
  nullish s = false -> exists c, card sk nk ty s = Resolved c.
Proof.
  intros Hs. unfold card.
  destruct (get_total s sk Hs) as [x1 ->].
  destruct (get_total s nk Hs) as [x2 ->].
  destruct (get_total s "price" Hs) as [x3 ->].
  destruct (get_total s "net_change" Hs) as [x4 ->].
  destruct (get_total s "percent_change" Hs) as [x5 ->].
  destruct (get_total s "volume" Hs) as [x6 ->].
  cbn [mbind outcome_bind]. eauto.
Qed.

Lemma card_nullish sk nk ty (s : Val) :
  nullish s = true -> exists e, card sk nk ty s = Rejected e.
Proof.
  intros Hs. unfold card. destruct (get_nullish s sk Hs) as [e ->]. by exists e.
Qed.

Lemma card_type sk nk ty (s : Val) c :
  card sk nk ty s = Resolved c -> cd_type c = ty.
Proof.
  unfold card.
  destruct (get s sk); [|done]. destruct (get s nk); [|done].
  destruct (get s "price"); [|done]. destruct (get s "net_change"); [|done].
  destruct (get s "percent_change"); [|done]. destruct (get s "volume"); [|done].
  cbn. by intros [= <-].
Qed.

(** The cards of a list without [null] and [undefined]: one per element,
    in order, each with the tag of the list. *)
Lemma cards_of_list sk nk ty (l : list Val) :
  Forall (fun s => nullish s = false) l ->
  exists cs,
    each (card sk nk ty) l = Resolved cs
    /\ length cs = length l
    /\ Forall (fun c => cd_type c = ty) cs
    /\ forall i s, l !! i = Some s ->
         exists c, cs !! i = Some c /\ card sk nk ty s = Resolved c.
Proof.
  intros Hl.
  destruct (each_total (card sk nk ty) l) as [cs Hcs].
  { eapply Forall_impl; [exact Hl|]. intros s Hs. by apply card_total. }
  destruct (each_lookup _ _ _ Hcs) as [Hlen Hi].
  exists cs. split; [done|]. split; [done|]. split; [|done].
  apply Forall_lookup. intros i c Hc.
  destruct (l !! i) as [s|] eqn:Hs.
  - destruct (Hi i s Hs) as (c' & Hc' & Hcard).
    rewrite Hc in Hc'. injection Hc' as <-. by eapply card_type.
  - apply lookup_lt_Some in Hc. apply lookup_ge_None in Hs. lia.
Qed.

Lemma cards_of_list_null sk nk ty (l : list Val) :
  Exists (fun s => nullish s = true) l ->
  exists e, each (card sk nk ty) l = Rejected e.
Proof.
  intros Hl. apply each_rejects.
  eapply Exists_impl; [exact Hl|]. intros s Hs. by apply card_nullish.
Qed.

Lemma bar_total (v : Val) :
  nullish v = false -> exists b, bar v = Resolved b.
Proof. destruct v; try done; cbn; eauto. Qed.

Lemma find_price_first (pre : list Val) d post :
  Forall (fun x => exists m, get x "metric" = Resolved m /\ m <> VStr "Price") pre ->
  get d "metric" = Resolved (VStr "Price") ->
  find_price (pre ++ d :: post) = Resolved d.
Proof.
  intros Hpre Hd. induction Hpre as [|x pre (m & Hm & Hne) _ IH]; cbn [app find_price].
  - by rewrite Hd.
  - rewrite Hm. cbn [mbind outcome_bind]. destruct m; try done.
    destruct (String.eqb_spec s "Price"); [congruence|done].
Qed.

End WithNumbers.
End ClientRuns.

Module ClientTheorems.
Import Js Client Examples Shapes ClientRuns.

(** X12: for a payload whose two lists hold neither [null] nor
    [undefined], [getTrendingStocks] gives one card per element, the
    gainers first and the losers after them, each list in its order, the
    gainers tagged [gainer] and the losers [loser]. *)
Theorem trending_concatenates_gainers_and_losers {N : Numbers}
  (data t : Val) gs ls :
  opt_get data "trending_stocks" = Resolved t ->
  opt_get t "top_gainers" = Resolved (VArr gs) ->
  opt_get t "top_losers" = Resolved (VArr ls) ->
  Forall (fun s => nullish s = false) (gs ++ ls) ->
  exists cg cl,
    getTrendingStocks (Resolved data) = Resolved (cg ++ cl)
    /\ length cg = length gs /\ length cl = length ls
    /\ Forall (fun c => cd_type c = "gainer") cg
    /\ Forall (fun c => cd_type c = "loser") cl
    /\ (forall i s, gs !! i = Some s ->
          exists c, cg !! i = Some c
                    /\ card "ticker_id" "company_name" "gainer" s = Resolved c)
    /\ (forall i s, ls !! i = Some s ->
          exists c, cl !! i = Some c
                    /\ card "ticker_id" "company_name" "loser" s = Resolved c).
Proof.
  intros Ht Hg Hl Hall. apply Forall_app in Hall as [Hgs Hls].
  destruct (cards_of_list "ticker_id" "company_name" "gainer" gs Hgs)
    as (cg & G1 & G2 & G3 & G4).
  destruct (cards_of_list "ticker_id" "company_name" "loser" ls Hls)
    as (cl & L1 & L2 & L3 & L4).
  exists cg, cl. split; [|done].
  unfold getTrendingStocks, trending_body. cbn [mbind outcome_bind].
  rewrite Ht. cbn [mbind outcome_bind]. rewrite Hg. cbn [mbind outcome_bind opt_forEach].
  rewrite G1. cbn [mbind outcome_bind]. rewrite Hl. cbn [mbind outcome_bind opt_forEach].
  by rewrite L1.
Qed.

Lemma trending_concatenates_gainers_and_losers_witness :
  exists cg cl,
    getTrendingStocks (Resolved two_gainers_one_loser) = Resolved (cg ++ cl)
    /\ length cg = 2%nat /\ length cl = 1%nat
    /\ Forall (fun c => cd_type c = "gainer") cg
    /\ Forall (fun c => cd_type c = "loser") cl.
Proof.
  destruct (trending_concatenates_gainers_and_losers two_gainers_one_loser
    (VObj [("top_gainers",
            VArr [VObj [("ticker_id", VStr "TCS"); ("price", VNum (of_nat 12))];
                  VStr "INFY"]);
           ("top_losers",
            VArr [VObj [("ticker_id", VStr "WIPRO"); ("net_change", VStr "-3")]])])
    [VObj [("ticker_id", VStr "TCS"); ("price", VNum (of_nat 12))]; VStr "INFY"]
    [VObj [("ticker_id", VStr "WIPRO"); ("net_change", VStr "-3")]]
    eq_refl eq_refl eq_refl)
    as (cg & cl & H1 & H2 & H3 & H4 & H5 & _).
  - repeat constructor.
  - exists cg, cl. repeat split; assumption.
Defined.

(** X13: one [null] or [undefined] element in either list costs all of
    them: [getTrendingStocks] gives the empty list, also the cards of the
    elements before it. *)
Theorem trending_null_element_empties_the_result {N : Numbers}
  (data t : Val) gs ls :
  opt_get data "trending_stocks" = Resolved t ->
  opt_get t "top_gainers" = Resolved (VArr gs) ->
  opt_get t "top_losers" = Resolved (VArr ls) ->
  Exists (fun s => nullish s = true) (gs ++ ls) ->
  getTrendingStocks (Resolved data) = Resolved [].
Proof.
  intros Ht Hg Hl Hex.
  unfold getTrendingStocks, trending_body. cbn [mbind outcome_bind].
  rewrite Ht. cbn [mbind outcome_bind]. rewrite Hg. cbn [mbind outcome_bind opt_forEach].
  destruct (each (card "ticker_id" "company_name" "gainer") gs) as [cg|e] eqn:Eg;
    [|done].
  cbn [mbind outcome_bind]. rewrite Hl. cbn [mbind outcome_bind opt_forEach].
  apply Exists_app in Hex as [Hex|Hex].
  - destruct (cards_of_list_null "ticker_id" "company_name" "gainer" gs Hex)
      as [e He]. congruence.
  - by destruct (cards_of_list_null "ticker_id" "company_name" "loser" ls Hex)
      as [e ->].
Qed.

Lemma trending_null_element_empties_the_result_witness :
  getTrendingStocks (Resolved loser_null) = Resolved [].
Proof.
  apply (trending_null_element_empties_the_result loser_null
    (VObj [("top_gainers",
            VArr [VObj [("ticker_id", VStr "TCS"); ("price", VNum (of_nat 12))]]);
           ("top_losers", VArr [VObj [("ticker_id", VStr "WIPRO")]; VNull])])
    [VObj [("ticker_id", VStr "TCS"); ("price", VNum (of_nat 12))]]
    [VObj [("ticker_id", VStr "WIPRO")]; VNull] eq_refl eq_refl eq_refl).
  apply Exists_cons_tl, Exists_cons_tl, Exists_cons_hd. reflexivity.
Defined.

(** X14: [getMostActiveStocks] asks for [/NSE_most_active] for the
    exchange NSE and for [/BSE_most_active] otherwise; for an array
    without [null] and [undefined] it gives one card per element in
    order, each tagged [active]; for an array with such an element, and
    for a payload that is no array, it gives the empty list. *)
Theorem most_active_maps_every_element {N : Numbers} :
  (forall exchange,
     (most_active_request exchange).1
     = if String.eqb exchange "NSE" then "/NSE_most_active" else "/BSE_most_active")
  /\ (forall l : list Val,
        Forall (fun s => nullish s = false) l ->
        exists cs,
          getMostActiveStocks (Resolved (VArr l)) = Resolved cs
          /\ length cs = length l
          /\ Forall (fun c => cd_type c = "active") cs
          /\ forall i s, l !! i = Some s ->
               exists c, cs !! i = Some c
                         /\ card "ticker" "company" "active" s = Resolved c)
  /\ (forall l : list Val,
        Exists (fun s => nullish s = true) l ->
        getMostActiveStocks (Resolved (VArr l)) = Resolved [])
  /\ (forall data : Val,
        is_array data = false -> getMostActiveStocks (Resolved data) = Resolved []).
Proof.
  split; [done|]. split; [|split].
  - intros l Hl.
    destruct (cards_of_list "ticker" "company" "active" l Hl) as (cs & H1 & H2).
    exists cs. split; [|done].
    unfold getMostActiveStocks, most_active_body. cbn [mbind outcome_bind map_method].
    by rewrite H1.
  - intros l Hl.
    destruct (cards_of_list_null "ticker" "company" "active" l Hl) as [e He].
    unfold getMostActiveStocks, most_active_body. cbn [mbind outcome_bind map_method].
    by rewrite He.
  - intros data Hd. by destruct data.
Qed.

(** X15: [getHistoricalData] takes the first data set whose metric is
    [Price] and gives one bar per entry of its series, in the reverse
    order: the bar of the entry at place [i] of [n] is at place
    [n - 1 - i]. *)
Theorem historical_reverses_the_price_series {N : Numbers}
  (data : Val) pre priceSet post vs :
  opt_get data "datasets" = Resolved (VArr (pre ++ priceSet :: post)) ->
  Forall (fun x => exists m, get x "metric" = Resolved m /\ m <> VStr "Price") pre ->
  get priceSet "metric" = Resolved (VStr "Price") ->
  opt_get priceSet "values" = Resolved (VArr vs) ->
  Forall (fun v => nullish v = false) vs ->
  exists bars,
    each bar vs = Resolved bars
    /\ getHistoricalData (Resolved data) = Resolved (rev bars)
    /\ length (rev bars) = length vs
    /\ forall i v, vs !! i = Some v ->
         exists b, rev bars !! (length vs - S i)%nat = Some b
                   /\ bar v = Resolved b.
Proof.
  intros Hds Hpre Hps Hvs Hall.
  destruct (each_total bar vs) as [bars Hb].
  { eapply Forall_impl; [exact Hall|]. intros v Hv. by apply bar_total. }
  destruct (each_lookup _ _ _ Hb) as [Hlen Hi].
  exists bars. split; [done|]. split; [|split].
  - unfold getHistoricalData, historical_body. cbn [mbind outcome_bind].
    rewrite Hds. cbn [mbind outcome_bind opt_length length_of truthy].
    rewrite truthy_of_nat, length_app. cbn [length].
    replace (length pre + S (length post) =? 0)%nat with false
      by (symmetry; apply Nat.eqb_neq; lia).
    cbn [negb find_method]. rewrite (find_price_first pre priceSet post Hpre Hps).
    cbn [mbind outcome_bind]. unfold opt_values_map. rewrite Hvs.
    cbn [mbind outcome_bind]. by rewrite Hb.
  - by rewrite List.length_rev.
  - intros i v Hv. destruct (Hi i v Hv) as (b & Hbi & Hbar).
    exists b. split; [|done].
    rewrite rev_alt. change (rev_append bars []) with (reverse bars).
    pose proof (lookup_lt_Some _ _ _ Hv) as Hlt.
    rewrite reverse_lookup by lia. rewrite Hlen.
    replace (length vs - S (length vs - S i))%nat with i by lia. done.
Qed.

Lemma historical_reverses_the_price_series_witness :
  exists bars,
    getHistoricalData (Resolved newest_first) = Resolved (rev bars)
    /\ length (rev bars) = 3%nat.
Proof.
  destruct (historical_reverses_the_price_series newest_first
    [VObj [("metric", VStr "Volume");
           ("values", VArr [VArr [VStr "2024-01-03"; VNum (of_nat 5)]])]]
    (VObj [("metric", VStr "Price");
           ("values",
            VArr [VArr [VStr "2024-01-03"; VNum (of_nat 30)];
                  VArr [VStr "2024-01-02"; VNum (of_nat 20)];
                  VArr [VStr "2024-01-01"; VNum (of_nat 10)]])])
    [VObj [("metric", VStr "Price"); ("values", VArr [])]]
    [VArr [VStr "2024-01-03"; VNum (of_nat 30)];
     VArr [VStr "2024-01-02"; VNum (of_nat 20)];
     VArr [VStr "2024-01-01"; VNum (of_nat 10)]]
    eq_refl) as (bars & _ & H2 & H3 & _).
  - repeat constructor. exists (VStr "Volume"). by split.
  - reflexivity.
  - reflexivity.
  - repeat constructor.
  - exists bars. by split.
Defined.

(** The series of the example, newest first, comes out oldest first. *)
Example newest_first_reversed :
  getHistoricalData (Resolved newest_first)
  = Resolved [mkChart (VStr "2024-01-01") (of_nat 10) (of_nat 10) (of_nat 10)
                (of_nat 10) zero;
              mkChart (VStr "2024-01-02") (of_nat 20) (of_nat 20) (of_nat 20)
                (of_nat 20) zero;
              mkChart (VStr "2024-01-03") (of_nat 30) (of_nat 30) (of_nat 30)
                (of_nat 30) zero].
Proof. reflexivity. Qed.

(** X16: [getStockData] gives no record when the payload has no truthy
    [currentPrice], and exactly one otherwise, whatever else the payload
    holds; in that record [open] and [close] are the price and the market
    capitalisation is 0. *)
Theorem quote_is_none_or_one_record {N : Numbers} name (data currentPrice : Val) :
  opt_get data "currentPrice" = Resolved currentPrice ->
  if truthy currentPrice
  then exists s, getStockData name (Resolved data) = Resolved [s]
                 /\ sd_open s = sd_price s /\ sd_close s = sd_price s
                 /\ sd_marketCap s = zero
  else getStockData name (Resolved data) = Resolved [].
Proof.
  intros Hcp. unfold getStockData, stock_body. cbn [mbind outcome_bind].
  rewrite Hcp. cbn [mbind outcome_bind].
  destruct (truthy currentPrice) eqn:Ht; cbn [negb]; [|done].
  assert (Hdata : exists fs, data = VObj fs).
  { destruct data; cbn in Hcp; try (injection Hcp as <-; done). by eexists. }
  destruct Hdata as [fs ->].
  assert (Hn : nullish currentPrice = false) by (by destruct currentPrice).
  destruct (get_total currentPrice "NSE" Hn) as [nse ->].
  destruct (get_total currentPrice "BSE" Hn) as [bse ->].
  cbn [mbind outcome_bind get].
  assert (Hopt : forall (v : Val) name', exists x, opt_get v name' = Resolved x).
  { intros v name'. destruct v; cbn; eauto. }
  destruct (Hopt (own fs "stockDetailsReusableData") "tickerId") as [x1 ->].
  destruct (Hopt (own fs "stockDetailsReusableData") "change") as [x2 ->].
  destruct (Hopt (own fs "stockDetailsReusableData") "volume") as [x3 ->].
  destruct (truthy nse); cbn [mbind outcome_bind]; eexists; by split.
Qed.

Lemma quote_is_none_or_one_record_witness :
  getStockData (N:=Integers) "TCS" (Resolved (VObj [("companyName", VStr "TCS")]))
  = Resolved [].
Proof.
  apply (quote_is_none_or_one_record "TCS" (VObj [("companyName", VStr "TCS")])
           VUndef eq_refl).
Defined.

(** A payload with a price at the BSE only. *)
Example quote_of_bse_price :
  getStockData (N:=Integers) "TCS"
    (Resolved (VObj [("currentPrice", VObj [("BSE", VStr "3500")]);
                     ("yearHigh", VNum (of_nat 3600))]))
  = Resolved [mkStock (VStr "TCS") (VStr "TCS") (of_nat 3500) zero zero zero zero
                (of_nat 3600) zero (of_nat 3500) (of_nat 3500)].
Proof. reflexivity. Qed.

End ClientTheorems.

(** * The client of [src/lib/indian-api.ts] *)

Module LegacyFacts.
Import Js Client Legacy Examples Shapes ClientRuns LegacyApi LegacyExamples.

Section Fetch.
Import Governor.
Context {Data : Type}.
Implicit Types (w : LegacyFetch.World (Data:=Data)).

Lemma legacy_miss now e ps w :
  LegacyFetch.cache_lookup now (Url.cacheKey e ps) w = None ->
  LegacyFetch.fetchWithCache now e ps w
  = LegacyFetch.mkWorld (LegacyFetch.cache w)
      (<[LegacyFetch.nextCall w := Url.cacheKey e ps]> (LegacyFetch.waiting w))
      (S (LegacyFetch.nextCall w)) (LegacyFetch.returned w)
      (LegacyFetch.fetched w ++ [Url.cacheKey e ps]).
Proof. unfold LegacyFetch.fetchWithCache. by intros ->. Qed.

Lemma legacy_calls n : forall now e ps w,
  LegacyFetch.cache_lookup now (Url.cacheKey e ps) w = None ->
  let w' := LegacyFetch.run (replicate n (now, LegacyFetch.EvCall e ps)) w in
  LegacyFetch.fetched w' = LegacyFetch.fetched w ++ replicate n (Url.cacheKey e ps)
  /\ LegacyFetch.cache w' = LegacyFetch.cache w
  /\ LegacyFetch.returned w' = LegacyFetch.returned w
  /\ LegacyFetch.nextCall w' = (LegacyFetch.nextCall w + n)%nat
  /\ (forall j, (j < LegacyFetch.nextCall w)%nat ->
        LegacyFetch.waiting w' !! j = LegacyFetch.waiting w !! j)
  /\ (forall i, (i < n)%nat ->
        LegacyFetch.waiting w' !! (LegacyFetch.nextCall w + i)%nat
        = Some (Url.cacheKey e ps)).
Proof.
  induction n as [|n IH]; intros now e ps w Hc; cbv zeta.
  - cbn [replicate LegacyFetch.run]. rewrite app_nil_r, Nat.add_0_r.
    repeat split; try done. intros i Hi. lia.
  - cbn [replicate LegacyFetch.run LegacyFetch.step].
    rewrite (legacy_miss now e ps w Hc).
    set (w1 := LegacyFetch.mkWorld _ _ _ _ _).
    destruct (IH now e ps w1) as (I1 & I2 & I3 & I4 & I5 & I6).
    { unfold LegacyFetch.cache_lookup in *. by subst w1. }
    cbn [LegacyFetch.fetched LegacyFetch.cache LegacyFetch.returned
         LegacyFetch.nextCall LegacyFetch.waiting w1] in *.
    rewrite I1, I2, I3, I4. split; [by rewrite <- app_assoc|].
    split; [done|]. split; [done|]. split; [lia|]. split.
    + intros j Hj. rewrite I5 by lia. by rewrite lookup_insert_ne by lia.
    + intros [|i] Hi.
      * rewrite Nat.add_0_r, I5 by lia. by rewrite lookup_insert_eq.
      * replace (LegacyFetch.nextCall w + S i)%nat
          with (S (LegacyFetch.nextCall w) + i)%nat by lia.
        apply I6. lia.
Qed.

End Fetch.

Section WithNumbers.
Context {N : Numbers}.

Lemma week_card_total ty mk prop (s : Val) :
  nullish s = false -> exists c, week_card ty mk prop s = Resolved c.
Proof.
  intros Hs. unfold week_card.
  destruct (get_total s "ticker" Hs) as [x1 ->].
  destruct (get_total s "company" Hs) as [x2 ->].
  destruct (get_total s "price" Hs) as [x3 ->].
  destruct (get_total s prop Hs) as [x4 ->].
  cbn [mbind outcome_bind]. eauto.
Qed.

Lemma week_card_shape ty mk prop (s : Val) c :
  week_card ty mk prop s = Resolved c ->
  cd_type (wc_card c) = ty /\ (wc_metadata c).1 = mk
  /\ cd_change (wc_card c) = zero /\ cd_changePercent (wc_card c) = zero
  /\ cd_volume (wc_card c) = zero.
Proof.
  unfold week_card.
  destruct (get s "ticker"); [|done]. destruct (get s "company"); [|done].
  destruct (get s "price"); [|done]. destruct (get s prop); [|done].
  cbn. by intros [= <-].
Qed.

Lemma week52_list_array (data nse : Val) name l {A : Type} (f : Val -> Outcome A) :
  get data "NSE_52WeekHighLow" = Resolved nse ->
  get nse name = Resolved (VArr l) ->
  week52_list data name f = each f l.
Proof.
  intros H1 H2. unfold week52_list. rewrite H1. cbn [mbind outcome_bind].
  rewrite H2. by cbn [mbind outcome_bind truthy forEach_method].
Qed.

Lemma legacy_card_matches sk nk ty (s : Val) :
  nullish s = false ->
  exists c c',
    LegacyApi.card sk nk ty s = Resolved c
    /\ Client.card sk nk ty s = Resolved c'
    /\ cd_symbol c = cd_symbol c' /\ cd_name c = cd_name c'
    /\ cd_type c = ty /\ cd_type c' = ty.
Proof.
  intros Hs. unfold LegacyApi.card, Client.card.
  destruct (get_total s sk Hs) as [x1 ->].
  destruct (get_total s nk Hs) as [x2 ->].
  destruct (get_total s "price" Hs) as [x3 ->].
  destruct (get_total s "net_change" Hs) as [x4 ->].
  destruct (get_total s "percent_change" Hs) as [x5 ->].
  destruct (get_total s "volume" Hs) as [x6 ->].
  cbn [mbind outcome_bind]. eexists _, _. by repeat split.
Qed.

Lemma legacy_cards_match sk nk ty (l : list Val) :
  Forall (fun s => nullish s = false) l ->
  exists cs cs',
    each (LegacyApi.card sk nk ty) l = Resolved cs
    /\ each (Client.card sk nk ty) l = Resolved cs'
    /\ cd_symbol <$> cs = cd_symbol <$> cs'
    /\ cd_name <$> cs = cd_name <$> cs'
    /\ cd_type <$> cs = cd_type <$> cs'.
Proof.
  induction 1 as [|s l Hs _ (cs & cs' & H1 & H2 & H3 & H4 & H5)].
  - by exists [], [].
  - destruct (legacy_card_matches sk nk ty s Hs)
      as (c & c' & C1 & C2 & C3 & C4 & C5 & C6).
    exists (c :: cs), (c' :: cs'). cbn [each]. rewrite C1, C2, H1, H2.
    cbn [mbind outcome_bind fmap list_fmap].
    repeat split; try done; f_equal; try done. congruence.
Qed.

Lemma trending_list_array (data t : Val) name l {A : Type} (f : Val -> Outcome A) :
  opt_get data "trending_stocks" = Resolved t ->
  opt_get t name = Resolved (VArr l) ->
  trending_list data name f = each f l.
Proof.
  intros H1 H2. unfold trending_list.
  assert (Ht : exists fs, t = VObj fs).
  { destruct t; cbn in H2; try done. by eexists. }
  destruct Ht as [fs ->].
  assert (Hd : get data "trending_stocks" = Resolved (VObj fs)).
  { destruct data; cbn in H1; try done. }
  rewrite Hd. cbn [mbind outcome_bind]. rewrite H2.
  cbn [mbind outcome_bind truthy].
  assert (Hg : get (VObj fs) name = Resolved (VArr l)) by exact H2.
  rewrite Hg. done.
Qed.

Lemma industry_stock_total (s : Val) :
  nullish s = false ->
  exists nsi bse name,
    get s "exchangeCodeNsi" = Resolved nsi
    /\ get s "exchangeCodeBse" = Resolved bse
    /\ get s "commonName" = Resolved name
    /\ industry_stock s
       = Resolved (mkStock (or_else nsi (or_else bse (VStr EmptyString)))
                     (or_else name (VStr EmptyString))
                     zero zero zero zero zero zero zero zero zero).
Proof.
  intros Hs. unfold industry_stock.
  destruct (get_total s "exchangeCodeNsi" Hs) as [nsi Hnsi].
  destruct (get_total s "exchangeCodeBse" Hs) as [bse Hbse].
  destruct (get_total s "commonName" Hs) as [name Hname].
  exists nsi, bse, name. rewrite Hnsi, Hbse, Hname.
  repeat (split; [done|]). cbn [mbind outcome_bind]. unfold or_else.
  by destruct (truthy nsi).
Qed.

End WithNumbers.

(** X17: the client of [src/lib/indian-api.ts] shares nothing between
    calls: [n] calls for one key that find no valid entry each call
    [fetch], so [n] requests for the key go out, and none of the calls
    touches the cache. *)
Theorem legacy_fetches_once_per_call {Data : Type} n now endpoint params
  (w : LegacyFetch.World (Data:=Data)) :
  LegacyFetch.cache_lookup now (Url.cacheKey endpoint params) w = None ->
  let key := Url.cacheKey endpoint params in
  let w' := LegacyFetch.run
              (replicate n (now, LegacyFetch.EvCall endpoint params)) w in
  LegacyFetch.fetched w' = LegacyFetch.fetched w ++ replicate n key
  /\ LegacyFetch.cache w' = LegacyFetch.cache w
  /\ LegacyFetch.nextCall w' = (LegacyFetch.nextCall w + n)%nat
  /\ (forall i, (i < n)%nat ->
        LegacyFetch.waiting w' !! (LegacyFetch.nextCall w + i)%nat = Some key).
Proof.
  intros Hc. cbv zeta.
  destruct (legacy_calls n now endpoint params w Hc) as (H1 & H2 & _ & H4 & _ & H6).
  done.
Qed.

Lemma legacy_fetches_once_per_call_witness :
  let w' := LegacyFetch.run
              (replicate 3 (5000, LegacyFetch.EvCall "/trending" []))
              (LegacyFetch.init (Data:=nat)) in
  LegacyFetch.fetched w' = [] ++ replicate 3 "/trending?"
  /\ LegacyFetch.cache w' = ∅
  /\ LegacyFetch.nextCall w' = (0 + 3)%nat
  /\ (forall i, (i < 3)%nat ->
        LegacyFetch.waiting w' !! (0 + i)%nat = Some "/trending?").
Proof.
  apply (legacy_fetches_once_per_call 3 5000 "/trending" [] LegacyFetch.init).
  reflexivity.
Defined.

(** X18: in that client an ok answer is returned to its call and stored
    under the call's key with the time of the answer; a call for the key
    less than 30000 ms later returns the stored payload without calling
    [fetch], a call from then on calls [fetch] again; any other answer
    rejects its call and leaves the cache as it is. *)
Theorem legacy_cache_window {Data : Type} now now' call (d : Data)
  endpoint params (w : LegacyFetch.World (Data:=Data)) :
  LegacyFetch.waiting w !! call = Some (Url.cacheKey endpoint params) ->
  let key := Url.cacheKey endpoint params in
  let w1 := LegacyFetch.step now (LegacyFetch.EvResponse call (Governor.HttpOk d)) w in
  let w2 := LegacyFetch.step now' (LegacyFetch.EvCall endpoint params) w1 in
  LegacyFetch.returned w1 !! call = Some (Resolved d)
  /\ LegacyFetch.cache w1 = <[key := (d, now)]> (LegacyFetch.cache w)
  /\ (now' - now < LegacyFetch.CACHE_DURATION ->
      LegacyFetch.returned w2 !! LegacyFetch.nextCall w = Some (Resolved d)
      /\ LegacyFetch.fetched w2 = LegacyFetch.fetched w)
  /\ (LegacyFetch.CACHE_DURATION <= now' - now ->
      LegacyFetch.fetched w2 = LegacyFetch.fetched w ++ [key]
      /\ LegacyFetch.waiting w2 !! LegacyFetch.nextCall w = Some key)
  /\ (forall r, (forall d', r <> Governor.HttpOk d') ->
      let w1' := LegacyFetch.step now (LegacyFetch.EvResponse call r) w in
      LegacyFetch.cache w1' = LegacyFetch.cache w
      /\ exists e, LegacyFetch.returned w1' !! call = Some (Rejected e)).
Proof.
  intros Hw. cbv zeta. cbn [LegacyFetch.step].
  unfold LegacyFetch.on_response. rewrite Hw.
  cbn [LegacyFetch.after_fetch].
  split; [by cbn; rewrite lookup_insert_eq|]. split; [done|].
  unfold LegacyFetch.fetchWithCache, LegacyFetch.cache_lookup.
  cbn [LegacyFetch.cache LegacyFetch.nextCall LegacyFetch.returned
       LegacyFetch.fetched LegacyFetch.waiting].
  rewrite lookup_insert_eq.
  split; [|split].
  - intros Hlt. destruct (Z.ltb_spec (now' - now) LegacyFetch.CACHE_DURATION); [|lia].
    cbn. by rewrite lookup_insert_eq.
  - intros Hge. destruct (Z.ltb_spec (now' - now) LegacyFetch.CACHE_DURATION); [lia|].
    cbn. by rewrite lookup_insert_eq.
  - intros r Hr. destruct r as [e|status text|status e|e|d']; cbn;
      try (split; [done|]; rewrite lookup_insert_eq; by eexists).
    by destruct (Hr d').
Qed.

Lemma legacy_cache_window_witness :
  let w := LegacyFetch.run [(5000, LegacyFetch.EvCall "/trending" [])]
             (LegacyFetch.init (Data:=nat)) in
  let w1 := LegacyFetch.step 5100 (LegacyFetch.EvResponse 0 (Governor.HttpOk 7%nat)) w in
  LegacyFetch.returned w1 !! 0%nat = Some (Resolved 7%nat)
  /\ LegacyFetch.cache w1 = <["/trending?" := (7%nat, 5100)]> (LegacyFetch.cache w)
  /\ (35099 - 5100 < LegacyFetch.CACHE_DURATION ->
      LegacyFetch.returned
        (LegacyFetch.step 35099 (LegacyFetch.EvCall "/trending" []) w1)
        !! LegacyFetch.nextCall w = Some (Resolved 7%nat)
      /\ LegacyFetch.fetched
           (LegacyFetch.step 35099 (LegacyFetch.EvCall "/trending" []) w1)
         = LegacyFetch.fetched w).
Proof.
  destruct (legacy_cache_window 5100 35099 0 7%nat "/trending" []
              (LegacyFetch.run [(5000, LegacyFetch.EvCall "/trending" [])]
                 LegacyFetch.init) eq_refl) as (H1 & H2 & H3 & _).
  by repeat split.
Defined.

(** X27: on a payload whose two lists hold neither [null] nor
    [undefined], [getTrendingStocks] of [src/lib/indian-api.ts] and the one
    of the governor's client give cards with the same symbols, names and
    tags, in the same order; they differ in how the numeric fields are
    read only. *)
Theorem legacy_trending_has_the_same_cards {N : Numbers} (data t : Val) gs ls :
  opt_get data "trending_stocks" = Resolved t ->
  opt_get t "top_gainers" = Resolved (VArr gs) ->
  opt_get t "top_losers" = Resolved (VArr ls) ->
  Forall (fun s => nullish s = false) (gs ++ ls) ->
  exists cs cs',
    LegacyApi.getTrendingStocks (Resolved data) = Resolved cs
    /\ Client.getTrendingStocks (Resolved data) = Resolved cs'
    /\ length cs = (length gs + length ls)%nat
    /\ cd_symbol <$> cs = cd_symbol <$> cs'
    /\ cd_name <$> cs = cd_name <$> cs'
    /\ cd_type <$> cs = cd_type <$> cs'.
Proof.
  intros Ht Hg Hl Hall. apply Forall_app in Hall as [Hgs Hls].
  destruct (legacy_cards_match "ticker_id" "company_name" "gainer" gs Hgs)
    as (cg & cg' & G1 & G2 & G3 & G4 & G5).
  destruct (legacy_cards_match "ticker_id" "company_name" "loser" ls Hls)
    as (cl & cl' & L1 & L2 & L3 & L4 & L5).
  exists (cg ++ cl), (cg' ++ cl').
  destruct (each_lookup _ _ _ G1) as [Lg _].
  destruct (each_lookup _ _ _ L1) as [Ll _].
  split; [|split; [|split]].
  - unfold LegacyApi.getTrendingStocks, LegacyApi.trending_body.
    cbn [mbind outcome_bind].
    rewrite (trending_list_array data t "top_gainers" gs _ Ht Hg), G1.
    cbn [mbind outcome_bind].
    by rewrite (trending_list_array data t "top_losers" ls _ Ht Hl), L1.
  - unfold Client.getTrendingStocks, Client.trending_body.
    cbn [mbind outcome_bind].
    rewrite Ht. cbn [mbind outcome_bind]. rewrite Hg.
    cbn [mbind outcome_bind opt_forEach]. rewrite G2. cbn [mbind outcome_bind].
    rewrite Hl. cbn [mbind outcome_bind opt_forEach]. by rewrite L2.
  - rewrite length_app. lia.
  - rewrite !fmap_app. by rewrite G3, G4, G5, L3, L4, L5.
Qed.

Lemma legacy_trending_has_the_same_cards_witness :
  exists cs cs',
    LegacyApi.getTrendingStocks (Resolved two_gainers_one_loser) = Resolved cs
    /\ Client.getTrendingStocks (Resolved two_gainers_one_loser) = Resolved cs'
    /\ length cs = 3%nat
    /\ cd_symbol <$> cs = cd_symbol <$> cs'.
Proof.
  destruct (legacy_trending_has_the_same_cards two_gainers_one_loser
    (VObj [("top_gainers",
            VArr [VObj [("ticker_id", VStr "TCS"); ("price", VNum (of_nat 12))];
                  VStr "INFY"]);
           ("top_losers",
            VArr [VObj [("ticker_id", VStr "WIPRO"); ("net_change", VStr "-3")]])])
    [VObj [("ticker_id", VStr "TCS"); ("price", VNum (of_nat 12))]; VStr "INFY"]
    [VObj [("ticker_id", VStr "WIPRO"); ("net_change", VStr "-3")]]
    eq_refl eq_refl eq_refl)
    as (cs & cs' & H1 & H2 & H3 & H4 & _).
  - repeat constructor.
  - exists cs, cs'. by repeat split.
Defined.

(** X28: [getStockData] of [src/lib/indian-api.ts] gives no record when
    the payload is falsy, [null] and [undefined] included, or has no truthy
    [currentPrice], and exactly one otherwise; in that record the price is
    [parseFloat] of the NSE price, else of the BSE price, else of ["0"],
    [open] and [close] are the price and the market capitalisation is 0. *)
Theorem legacy_quote_is_none_or_one_record {N : Numbers} name (data : Val) :
  if truthy data
  then exists currentPrice,
         get data "currentPrice" = Resolved currentPrice
         /\ if truthy currentPrice
            then exists s nse bse,
                   LegacyApi.getStockData name (Resolved data) = Resolved [s]
                   /\ get currentPrice "NSE" = Resolved nse
                   /\ get currentPrice "BSE" = Resolved bse
                   /\ sd_price s
                      = parseFloat (or_else nse (or_else bse (VStr "0")))
                   /\ sd_open s = sd_price s /\ sd_close s = sd_price s
                   /\ sd_marketCap s = zero
            else LegacyApi.getStockData name (Resolved data) = Resolved []
  else LegacyApi.getStockData name (Resolved data) = Resolved [].
Proof.
  unfold LegacyApi.getStockData, LegacyApi.stock_body.
  cbn [mbind outcome_bind].
  destruct (truthy data) eqn:Hd; cbn [negb]; [|done].
  assert (Hdn : nullish data = false) by (by destruct data).
  destruct (get_total data "currentPrice" Hdn) as [currentPrice Hcp].
  exists currentPrice. split; [done|].
  rewrite Hcp. cbn [mbind outcome_bind].
  destruct (truthy currentPrice) eqn:Ht; cbn [negb]; [|done].
  assert (Hdata : exists fs, data = VObj fs).
  { destruct data; cbn in Hcp; try done;
      try (injection Hcp as <-; cbn in Ht; done).
    by eexists. }
  destruct Hdata as [fs ->].
  assert (Hn : nullish currentPrice = false) by (by destruct currentPrice).
  destruct (get_total currentPrice "NSE" Hn) as [nse Hnse].
  destruct (get_total currentPrice "BSE" Hn) as [bse Hbse].
  rewrite Hnse. cbn [mbind outcome_bind]. rewrite ?Hcp. cbn [mbind outcome_bind].
  rewrite Hbse. cbn [mbind outcome_bind].
  assert (Hopt : forall (v : Val) name', exists x, opt_get v name' = Resolved x).
  { intros v name'. destruct v; cbn; eauto. }
  assert (Hobj : forall name', exists x, get (VObj fs) name' = Resolved x).
  { intros name'. cbn. eauto. }
  destruct (Hobj "stockDetailsReusableData") as [d ->].
  destruct (Hobj "percentChange") as [pc ->].
  destruct (Hobj "companyName") as [cn ->].
  destruct (Hobj "yearHigh") as [yh ->].
  destruct (Hobj "yearLow") as [yl ->].
  cbn [mbind outcome_bind].
  destruct (Hopt d "change") as [x1 ->].
  destruct (Hopt d "tickerId") as [x2 ->].
  destruct (Hopt d "volume") as [x3 ->].
  cbn [mbind outcome_bind].
  destruct (truthy nse) eqn:Hnse'; cbn [mbind outcome_bind];
    eexists _, nse, bse; repeat split; cbn [sd_price];
    unfold or_else; by rewrite Hnse'.
Qed.

(** The payloads [null], [undefined] and [{}] give no record; a payload
    with a BSE price only gives one, priced at it. *)
Example legacy_quote_of_small_payloads :
  LegacyApi.getStockData (N:=Integers) "TCS" (Resolved VNull) = Resolved []
  /\ LegacyApi.getStockData (N:=Integers) "TCS" (Resolved VUndef) = Resolved []
  /\ LegacyApi.getStockData (N:=Integers) "TCS" (Resolved (VObj [])) = Resolved []
  /\ exists s,
       LegacyApi.getStockData (N:=Integers) "TCS"
         (Resolved (VObj [("currentPrice", VObj [("BSE", VStr "3500")])]))
       = Resolved [s]
       /\ sd_price s = of_nat 3500 /\ sd_symbol s = VStr "TCS".
Proof. do 3 (split; [reflexivity|]). eexists. by repeat split. Qed.

(** X19: [get52WeekData] reads [NSE_52WeekHighLow] and nothing else of
    the payload.  For two lists without [null] and [undefined] it gives
    one card per element, the highs first and the lows after them, tagged
    [high] and [low] with the metadata entry [week52High] and
    [week52Low], and change, percentage and volume 0 in every card. *)
Theorem week52_cards_come_from_the_nse_lists {N : Numbers} :
  (forall data data' : Val,
     get data "NSE_52WeekHighLow" = get data' "NSE_52WeekHighLow" ->
     get52WeekData (Resolved data) = get52WeekData (Resolved data'))
  /\ (forall (data nse : Val) hs ls,
        get data "NSE_52WeekHighLow" = Resolved nse ->
        get nse "high52Week" = Resolved (VArr hs) ->
        get nse "low52Week" = Resolved (VArr ls) ->
        Forall (fun s => nullish s = false) (hs ++ ls) ->
        exists ch cl,
          get52WeekData (Resolved data) = Resolved (ch ++ cl)
          /\ length ch = length hs /\ length cl = length ls
          /\ Forall (fun c => cd_type (wc_card c) = "high"
                              /\ (wc_metadata c).1 = "week52High"
                              /\ cd_change (wc_card c) = zero
                              /\ cd_changePercent (wc_card c) = zero
                              /\ cd_volume (wc_card c) = zero) ch
          /\ Forall (fun c => cd_type (wc_card c) = "low"
                              /\ (wc_metadata c).1 = "week52Low"
                              /\ cd_change (wc_card c) = zero
                              /\ cd_changePercent (wc_card c) = zero
                              /\ cd_volume (wc_card c) = zero) cl).
Proof.
  split.
  - intros data data' H. unfold get52WeekData, week52_body, week52_list.
    cbn [mbind outcome_bind]. by rewrite H.
  - intros data nse hs ls Hnse Hh Hl Hall.
    apply Forall_app in Hall as [Hhs Hls].
    destruct (each_total (week_card "high" "week52High" "52_week_high") hs)
      as [ch Hch].
    { eapply Forall_impl; [exact Hhs|]. intros s Hs. by apply week_card_total. }
    destruct (each_total (week_card "low" "week52Low" "52_week_low") ls)
      as [cl Hcl].
    { eapply Forall_impl; [exact Hls|]. intros s Hs. by apply week_card_total. }
    exists ch, cl.
    destruct (each_lookup _ _ _ Hch) as [Lh _].
    destruct (each_lookup _ _ _ Hcl) as [Ll _].
    split; [|split; [done|split; [done|split]]].
    + unfold get52WeekData, week52_body. cbn [mbind outcome_bind].
      rewrite Hnse. cbn [mbind outcome_bind].
      assert (Ht : truthy nse = true) by (by destruct nse).
      rewrite Ht.
      rewrite (week52_list_array data nse "high52Week" hs _ Hnse Hh), Hch.
      cbn [mbind outcome_bind].
      rewrite (week52_list_array data nse "low52Week" ls _ Hnse Hl), Hcl.
      done.
    + eapply each_forall; [exact Hch|]. intros x y. apply week_card_shape.
    + eapply each_forall; [exact Hcl|]. intros x y. apply week_card_shape.
Qed.

(** The payload of the example: the cards of the NSE lists, nothing of
    the BSE ones. *)
Example week52_of_the_example :
  get52WeekData (Resolved week52_payload)
  = Resolved
      [mkWeekCard (mkCard (VStr "TCS") (VStr EmptyString) (of_nat 3500)
                     zero zero zero "high") ("week52High", of_nat 3600);
       mkWeekCard (mkCard (VStr "WIPRO") (VStr EmptyString) zero
                     zero zero zero "low") ("week52Low", zero)].
Proof. reflexivity. Qed.

(** X20: [searchByIndustry] gives one record per element of an array
    without [null] and [undefined], in order.  Its symbol is the NSE code,
    else the BSE code, else the empty string, its name the common name or
    the empty string, and every numeric field is 0. *)
Theorem industry_search_gives_names_only {N : Numbers} (l : list Val) :
  Forall (fun s => nullish s = false) l ->
  exists ss,
    searchByIndustry (Resolved (VArr l)) = Resolved ss
    /\ length ss = length l
    /\ forall i stock, l !! i = Some stock ->
         exists nsi bse name,
           get stock "exchangeCodeNsi" = Resolved nsi
           /\ get stock "exchangeCodeBse" = Resolved bse
           /\ get stock "commonName" = Resolved name
           /\ ss !! i
              = Some (mkStock (or_else nsi (or_else bse (VStr EmptyString)))
                        (or_else name (VStr EmptyString))
                        zero zero zero zero zero zero zero zero zero).
Proof.
  intros Hl.
  destruct (each_total industry_stock l) as [ss Hss].
  { eapply Forall_impl; [exact Hl|]. intros s Hs.
    destruct (industry_stock_total s Hs) as (? & ? & ? & _ & _ & _ & ->). eauto. }
  destruct (each_lookup _ _ _ Hss) as [Hlen Hi].
  exists ss. split; [|split; [done|]].
  - unfold searchByIndustry, industry_body. cbn [mbind outcome_bind map_method].
    by rewrite Hss.
  - intros i stock Hs. destruct (Hi i stock Hs) as (s & Hsi & Hf).
    assert (Hn : nullish stock = false).
    { rewrite Forall_lookup in Hl. by eapply Hl. }
    destruct (industry_stock_total stock Hn) as (nsi & bse & name & H1 & H2 & H3 & H4).
    exists nsi, bse, name. repeat (split; [done|]). congruence.
Qed.

Lemma industry_search_gives_names_only_witness :
  exists ss,
    searchByIndustry (Resolved (VArr industry_payload)) = Resolved ss
    /\ length ss = 2%nat.
Proof.
  destruct (industry_search_gives_names_only industry_payload)
    as (ss & H1 & H2 & _).
  - repeat constructor.
  - exists ss. by split.
Defined.

Example industry_search_of_the_example :
  searchByIndustry (Resolved (VArr industry_payload))
  = Resolved [mkStock (VStr "500325") (VStr "Reliance")
                zero zero zero zero zero zero zero zero zero;
              mkStock (VStr EmptyString) (VStr EmptyString)
                zero zero zero zero zero zero zero zero zero].
Proof. reflexivity. Qed.

End LegacyFacts.

(** * Pages, the widget list and the widgets *)

Module UtilsFacts.
Import Utils.

Section WithRows.
Context {A : Type}.
Implicit Types (data : list A).

(** For a start that is not negative and an end after it, [slice] takes
    the elements from the one to the other. *)
Lemma slice_forward data (s e : nat) :
  (s <= e)%nat ->
  slice data (Z.of_nat s) (Z.of_nat e) = take (e - s) (drop s data).
Proof.
  intros Hse. unfold slice.
  destruct (Z.ltb_spec (Z.of_nat s) 0); [lia|].
  destruct (Z.ltb_spec (Z.of_nat e) 0); [lia|].
  destruct (decide (length data <= s)%nat) as [Hge|Hlt].
  - replace (Z.to_nat (Z.min (Z.of_nat s) (Z.of_nat (length data))))
      with (length data) by lia.
    rewrite drop_all, (drop_ge data s) by done. by rewrite !take_nil.
  - replace (Z.to_nat (Z.min (Z.of_nat s) (Z.of_nat (length data)))) with s by lia.
    destruct (decide (length data <= e)%nat) as [Hge'|Hlt'].
    + rewrite !take_ge; [done| |]; rewrite length_drop; lia.
    + f_equal. lia.
Qed.

(** A page with a positive number is the next [limit] rows after the
    rows of the pages before it. *)
Lemma page_rows data (p L : nat) :
  (paginateData data (Z.of_nat (S p)) (Z.of_nat L)).1 = take L (drop (p * L) data).
Proof.
  unfold paginateData. cbn [fst].
  replace ((Z.of_nat (S p) - 1) * Z.of_nat L) with (Z.of_nat (p * L)) by lia.
  replace (Z.of_nat (p * L) + Z.of_nat L) with (Z.of_nat (p * L + L)) by lia.
  rewrite slice_forward by lia. f_equal. lia.
Qed.

Lemma pages_concat data (L n : nat) :
  concat (map (fun p => take L (drop (p * L) data)) (seq 0 n)) = take (n * L) data.
Proof.
  induction n as [|n IH]; [by rewrite take_0|].
  rewrite seq_S, map_app, concat_app, IH. cbn [map concat Nat.add].
  rewrite app_nil_r, take_take_drop. f_equal. lia.
Qed.

End WithRows.

(** X21: for a positive integer [limit], [paginateData] cuts the rows
    into [totalPages] pages that together are the rows, in order: each of
    the pages 1 to [totalPages] has at least one row and at most [limit],
    every page but the last has exactly [limit], and a page after the last
    has none. *)
Theorem pages_cover_the_rows {A : Type} (data : list A) limit :
  0 < limit ->
  exists n : nat,
    (forall page, (paginateData data page limit).2 = Pages (Z.of_nat n))
    /\ concat (map (fun p => (paginateData data (Z.of_nat p) limit).1) (seq 1 n))
       = data
    /\ (forall p, (1 <= p <= n)%nat ->
          (paginateData data (Z.of_nat p) limit).1 <> []
          /\ Z.of_nat (length (paginateData data (Z.of_nat p) limit).1) <= limit)
    /\ (forall p, (1 <= p < n)%nat ->
          Z.of_nat (length (paginateData data (Z.of_nat p) limit).1) = limit)
    /\ (forall p, (n < p)%nat -> (paginateData data (Z.of_nat p) limit).1 = []).
Proof.
  intros Hl.
  set (len := Z.of_nat (length data)).
  pose proof (Z.div_mod (- len) limit ltac:(lia)) as Hdm.
  pose proof (Z.mod_pos_bound (- len) limit Hl) as Hr.
  set (q := (- len) / limit) in *. set (r := (- len) mod limit) in *.
  assert (Hq : 0 <= - q) by (subst len; nia).
  exists (Z.to_nat (- q)).
  set (L := Z.to_nat limit).
  assert (HL : (0 < L)%nat) by lia.
  assert (Elim : limit = Z.of_nat L) by lia.
  assert (Hn1 : (length data <= Z.to_nat (- q) * L)%nat) by (subst len; nia).
  assert (Hn2 : forall p, (p < Z.to_nat (- q))%nat -> (p * L < length data)%nat)
    by (intros p Hp; subst len; nia).
  assert (Hn3 : forall p, (S p < Z.to_nat (- q))%nat -> (p * L + L <= length data)%nat)
    by (intros p Hp; subst len; nia).
  split; [|split; [|split; [|split]]].
  - intros page. unfold paginateData, page_count. cbn [snd]. fold len.
    destruct (Z.eqb_spec limit 0); [lia|]. f_equal. fold q. lia.
  - rewrite <- (fmap_S_seq 0), <- list_fmap_compose.
    erewrite (map_ext _ (fun p => take L (drop (p * L) data))).
    + rewrite pages_concat. by apply take_ge.
    + intros p. cbn. rewrite Elim. apply page_rows.
  - intros [|p] [Hp1 Hp2]; [lia|]. rewrite Elim, page_rows.
    split.
    + specialize (Hn2 p ltac:(lia)).
      intros Hnil. apply (f_equal length) in Hnil.
      rewrite length_take, length_drop in Hnil. cbn in Hnil. lia.
    + rewrite length_take. lia.
  - intros [|p] [Hp1 Hp2]; [lia|]. rewrite Elim, page_rows.
    specialize (Hn3 p Hp2). rewrite length_take, length_drop. lia.
  - intros [|p] Hp; [lia|]. rewrite Elim, page_rows.
    rewrite drop_ge; [by rewrite take_nil|]. nia.
Qed.

Lemma pages_cover_the_rows_witness :
  exists n : nat,
    (forall page, (paginateData [1; 2; 3; 4; 5; 6; 7] page 3).2 = Pages (Z.of_nat n))
    /\ concat (map (fun p => (paginateData [1; 2; 3; 4; 5; 6; 7] (Z.of_nat p) 3).1)
                 (seq 1 n))
       = [1; 2; 3; 4; 5; 6; 7].
Proof.
  destruct (pages_cover_the_rows [1; 2; 3; 4; 5; 6; 7] 3) as (n & H1 & H2 & _).
  - lia.
  - exists n. by split.
Defined.

(** Seven rows in pages of three, and what [paginateData] gives for the
    page 0, for a [limit] of 0 and for a negative one. *)
Example pages_of_seven_rows :
  paginateData [1; 2; 3; 4; 5; 6; 7] 3 3 = ([7], Pages 3)
  /\ paginateData [1; 2; 3; 4; 5; 6; 7] 0 3 = ([], Pages 3)
  /\ paginateData [1; 2; 3; 4; 5; 6; 7] 1 0 = ([], InfinitePages)
  /\ paginateData [1; 2; 3; 4; 5; 6; 7] 1 (-2) = ([1; 2; 3; 4; 5], Pages (-3)).
Proof. by vm_compute. Qed.

End UtilsFacts.

Module StoreFacts.
Import Store.

Lemma list_fmap_delete {B C : Type} (f : B -> C) (l : list B) i :
  f <$> delete i l = delete i (f <$> l).
Proof. by rewrite !delete_take_drop, fmap_app, fmap_take, fmap_drop. Qed.

Lemma delete_at_middle {B : Type} (l1 l2 : list B) x n :
  n = length l1 -> delete n (l1 ++ x :: l2) = l1 ++ l2.
Proof. intros ->. apply delete_middle. Qed.

Section WithWidget.
Context {A : Type}.
Implicit Types (e : Entry (A:=A)) (ws : list (Entry (A:=A))).

Lemma spread_position_content i (o : option (Entry (A:=A))) :
  content (spread_position i o) = o ≫= content.
Proof. by destruct o as [[]|]. Qed.

Lemma spread_position_position i (o : option (Entry (A:=A))) :
  position_of (spread_position i o) = i.
Proof. by destruct o as [[]|]. Qed.

Lemma reindex_lookup (l : list (option (Entry (A:=A)))) i e :
  reindex l !! i = Some e -> position_of e = i.
Proof.
  unfold reindex. rewrite list_lookup_imap.
  destruct (l !! i) as [o|]; [|done]. cbn. intros [= <-].
  apply spread_position_position.
Qed.

Lemma reindex_content (l : list (option (Entry (A:=A)))) :
  content <$> reindex l = (fun o => o ≫= content) <$> l.
Proof.
  unfold reindex. apply list_eq. intros i.
  rewrite !list_lookup_fmap, list_lookup_imap.
  destruct (l !! i) as [o|]; [|done]. cbn. by rewrite spread_position_content.
Qed.

Lemma reindex_some_content ws :
  content <$> reindex (Some <$> ws) = content <$> ws.
Proof. rewrite reindex_content, <- list_fmap_compose. done. Qed.

Lemma length_reindex (l : list (option (Entry (A:=A)))) :
  length (reindex l) = length l.
Proof. apply length_imap. Qed.

Lemma relative_in_range (len i : nat) :
  (i <= len)%nat -> relative len (Z.of_nat i) = i.
Proof.
  intros Hi. unfold relative. destruct (Z.ltb_spec (Z.of_nat i) 0); lia.
Qed.

Lemma findIndex_absent (id : option string) ws :
  Forall (fun e => id_of e <> id) ws -> findIndex id ws = -1.
Proof.
  induction 1 as [|e ws He _ IH]; [done|]. cbn [findIndex].
  destruct (decide (id_of e = id)); [done|]. by rewrite IH.
Qed.

Lemma findIndex_found (id : option string) ws (i : nat) :
  findIndex id ws = Z.of_nat i ->
  exists e, ws !! i = Some e /\ id_of e = id.
Proof.
  revert i. induction ws as [|e ws IH]; intros i; cbn [findIndex]; [lia|].
  destruct (decide (id_of e = id)) as [He|He].
  - intros Hi. assert (i = 0%nat) as -> by lia. by exists e.
  - destruct (Z.ltb_spec (findIndex id ws) 0); [lia|].
    intros Hi. destruct i as [|i]; [lia|].
    apply (IH i). lia.
Qed.

End WithWidget.

(** X22: [removeWidget] leaves no widget with the given id.  The other
    elements stay, in their order, each with its index as position. *)
Theorem removed_widget_is_gone {A : Type} id (ws : list (Entry (A:=A))) :
  let ws' := removeWidget id ws in
  (forall e, e ∈ ws' -> id_of e <> Some id)
  /\ content <$> ws' = content <$> filter (fun w => id_of w <> Some id) ws
  /\ (forall i e, ws' !! i = Some e -> position_of e = i)
  /\ (length ws' <= length ws)%nat
  /\ (Forall (fun e => id_of e <> Some id) ws -> content <$> ws' = content <$> ws).
Proof.
  cbv zeta. unfold removeWidget. cbv zeta.
  assert (Hc : content <$> reindex (Some <$> filter (fun w => id_of w <> Some id) ws)
               = content <$> filter (fun w => id_of w <> Some id) ws)
    by apply reindex_some_content.
  split; [|split; [done|split; [|split]]].
  - intros e He Hid.
    assert (Hin : content e ∈ content <$> filter (fun w => id_of w <> Some id) ws).
    { rewrite <- Hc. by apply list_elem_of_fmap_2. }
    apply list_elem_of_fmap in Hin as (e' & Hce & Hin').
    apply list_elem_of_filter in Hin' as [Hne _]. apply Hne.
    rewrite <- Hid. destruct e, e'; cbn in *; congruence.
  - intros i e. apply reindex_lookup.
  - rewrite length_reindex, length_fmap. apply length_filter.
  - intros Hall. rewrite Hc. clear Hc. f_equal.
    induction Hall as [|e l He _ IH]; [done|].
    rewrite filter_cons_True by exact He. by rewrite IH.
Qed.

(** X23: [reorderWidgets] with two indices inside the list moves the
    element at the first index to the second: the list keeps its length,
    the moved element is at the target, the other elements keep their
    order, and every element has its index as position. *)
Theorem reorder_moves_one_widget {A : Type} (from to : nat)
  (ws : list (Entry (A:=A))) w :
  ws !! from = Some w -> (to < length ws)%nat ->
  let ws' := reorderWidgets (Z.of_nat from) (Z.of_nat to) ws in
  length ws' = length ws
  /\ (forall i e, ws' !! i = Some e -> position_of e = i)
  /\ content <$> ws' !! to = Some (content w)
  /\ content <$> delete to ws' = content <$> delete from ws
  /\ content <$> ws' ≡ₚ content <$> ws.
Proof.
  intros Hw Hto. cbv zeta. unfold reorderWidgets. cbv zeta.
  pose proof (lookup_lt_Some _ _ _ Hw) as Hfrom.
  rewrite (relative_in_range (length ws) from) by lia. rewrite Hw.
  assert (Hld : length (delete from ws) = (length ws - 1)%nat).
  { rewrite length_delete; [done|by eexists]. }
  rewrite (relative_in_range _ to) by lia.
  set (rest := delete from ws) in *.
  assert (Hlt : length (take to (Some <$> rest)) = to).
  { rewrite length_take, length_fmap. lia. }
  assert (Hcontent :
    content <$> reindex (take to (Some <$> rest) ++ Some w :: drop to (Some <$> rest))
    = take to (content <$> rest) ++ content w :: drop to (content <$> rest)).
  { rewrite reindex_content, fmap_app, fmap_cons, fmap_take, fmap_drop,
      <- list_fmap_compose. done. }
  split; [|split; [|split; [|split]]].
  - rewrite length_reindex, length_app. cbn [length].
    rewrite Hlt, length_drop, length_fmap. lia.
  - intros i e. apply reindex_lookup.
  - rewrite <- list_lookup_fmap, Hcontent.
    rewrite list_lookup_middle; [done|].
    rewrite length_take, length_fmap. lia.
  - rewrite (list_fmap_delete content), Hcontent.
    rewrite delete_at_middle; [|rewrite length_take, length_fmap; lia].
    by rewrite take_drop.
  - rewrite Hcontent. rewrite <- Permutation_middle, take_drop.
    subst rest.
    rewrite (delete_Permutation (content <$> ws) from (content w))
      by (by rewrite list_lookup_fmap, Hw).
    by rewrite list_fmap_delete.
Qed.

Lemma reorder_moves_one_widget_witness :
  let ws' := reorderWidgets 0 2 three_widgets in
  length ws' = length three_widgets
  /\ (forall i e, ws' !! i = Some e -> position_of e = i)
  /\ content <$> ws' !! 2%nat = Some (content (Widget "a" 0 10%nat))
  /\ content <$> delete 2%nat ws' = content <$> delete 0%nat three_widgets
  /\ content <$> ws' ≡ₚ content <$> three_widgets.
Proof.
  apply (reorder_moves_one_widget 0 2 three_widgets (Widget "a" 0 10%nat)).
  - reflexivity.
  - cbn. lia.
Defined.

(** X24: a widget dropped on no other widget goes to the place before
    the last: [handleDragEnd] calls [reorderWidgets] with the index -1,
    which takes the widget out and puts it back before the last of the
    others.  A widget that is the second-to-last already is thus left
    where it is. *)
Theorem drop_outside_moves_before_last {A : Type} active (i : nat)
  (ws : list (Entry (A:=A))) :
  Forall (fun e => id_of e <> None) ws ->
  findIndex (Some active) ws = Z.of_nat i ->
  (2 <= length ws)%nat ->
  let ws' := handleDragEnd active None ws in
  exists w, ws !! i = Some w /\ id_of w = Some active
    /\ length ws' = length ws
    /\ content <$> ws' !! (length ws - 2)%nat = Some (content w)
    /\ content <$> delete (length ws - 2)%nat ws' = content <$> delete i ws
    /\ (i = (length ws - 2)%nat -> content <$> ws' = content <$> ws).
Proof.
  intros Hreal Hi Hlen. cbv zeta.
  destruct (findIndex_found _ _ _ Hi) as (w & Hw & Hid).
  exists w. split; [done|]. split; [done|].
  unfold handleDragEnd. destruct (decide (Some active <> None)) as [_|Hn];
    [|by destruct Hn].
  rewrite Hi, (findIndex_absent None ws Hreal).
  pose proof (lookup_lt_Some _ _ _ Hw) as Hfrom.
  unfold reorderWidgets. cbv zeta.
  rewrite (relative_in_range (length ws) i) by lia. rewrite Hw.
  assert (Hld : length (delete i ws) = (length ws - 1)%nat).
  { rewrite length_delete; [done|by eexists]. }
  assert (Hrel : relative (length (delete i ws)) (-1) = (length ws - 2)%nat).
  { unfold relative. rewrite Hld. cbn. lia. }
  rewrite Hrel.
  set (rest := delete i ws) in *. set (to := (length ws - 2)%nat).
  assert (Hcontent :
    content <$> reindex (take to (Some <$> rest) ++ Some w :: drop to (Some <$> rest))
    = take to (content <$> rest) ++ content w :: drop to (content <$> rest)).
  { rewrite reindex_content, fmap_app, fmap_cons, fmap_take, fmap_drop,
      <- list_fmap_compose. done. }
  assert (Hlt : length (take to (content <$> rest)) = to).
  { rewrite length_take, length_fmap. lia. }
  split; [|split; [|split]].
  - rewrite length_reindex, length_app. cbn [length].
    rewrite length_take, length_drop, !length_fmap. lia.
  - rewrite <- list_lookup_fmap, Hcontent. by rewrite list_lookup_middle.
  - rewrite (list_fmap_delete content), Hcontent.
    rewrite delete_at_middle by done. by rewrite take_drop.
  - intros Hto. rewrite Hcontent. subst rest. rewrite list_fmap_delete.
    rewrite <- Hto.
    assert (Hl : length (take i (content <$> ws)) = i).
    { rewrite length_take, length_fmap. lia. }
    rewrite delete_take_drop.
    rewrite take_app_length' by done. rewrite drop_app_length' by done.
    apply take_drop_middle. by rewrite list_lookup_fmap, Hw.
Qed.

Lemma drop_outside_moves_before_last_witness :
  exists w, three_widgets !! 1%nat = Some w /\ id_of w = Some "b"
    /\ length (handleDragEnd "b" None three_widgets) = length three_widgets
    /\ content <$> handleDragEnd "b" None three_widgets !! 1%nat = Some (content w)
    /\ content <$> delete 1%nat (handleDragEnd "b" None three_widgets)
       = content <$> delete 1%nat three_widgets
    /\ (1%nat = 1%nat ->
        content <$> handleDragEnd "b" None three_widgets
        = content <$> three_widgets).
Proof.
  apply (drop_outside_moves_before_last "b" 1 three_widgets).
  - repeat constructor; discriminate.
  - reflexivity.
  - cbn. lia.
Defined.

(** The first of three widgets dropped on no widget, the second dropped
    on no widget, the first dropped on the third, and an index behind the
    list. *)
Example reorder_of_three_widgets :
  handleDragEnd "a" None three_widgets
  = [Widget "b" 0 20%nat; Widget "a" 1 10%nat; Widget "c" 2 30%nat]
  /\ handleDragEnd "b" None three_widgets = three_widgets
  /\ handleDragEnd "a" (Some "c") three_widgets
     = [Widget "b" 0 20%nat; Widget "c" 1 30%nat; Widget "a" 2 10%nat]
  /\ reorderWidgets 3 0 three_widgets
     = [PositionOnly 0; Widget "a" 1 10%nat; Widget "b" 2 20%nat;
        Widget "c" 3 30%nat].
Proof. by vm_compute. Qed.

End StoreFacts.

Module WidgetFacts.
Import Js Client Widgets.

Lemma catch_all_shown {N : Numbers} {A : Type} blank (mock : list A) message key
  (body : Outcome (list A)) :
  let shown := fetchData blank mock message (VStr key) (catch_all body) in
  error shown = None /\ loading shown = false
  /\ (String.eqb key EmptyString = false -> blank key = false ->
      forall e, body = Rejected e -> data shown = []).
Proof.
  cbv zeta. unfold fetchData, no_key. cbn [truthy].
  destruct (String.eqb key EmptyString); cbn [negb mbind outcome_bind].
  - by repeat split.
  - destruct (blank key); [by repeat split|].
    destruct body as [l|e]; cbn; repeat split; try done.
Qed.

(** X25: with a string as API key, [fetchData] of the table, of the cards
    and of the chart never sets an error message and ends with [loading]
    false; when the key is neither empty nor blank and the request fails,
    the widget is left with the empty list: neither the message nor the
    mock data of the [catch] is reached by a failure of the API. *)
Theorem api_failure_shows_an_empty_widget {N : Numbers} (blank : string -> bool)
  (key : string) :
  (forall mock symbol fetched,
     let shown := table_fetchData blank mock (VStr key) symbol fetched in
     error shown = None /\ loading shown = false)
  /\ (forall mock type fetched,
        let shown := cards_fetchData blank mock (VStr key) type fetched in
        error shown = None /\ loading shown = false)
  /\ (forall mock fetched,
        let shown := chart_fetchData blank mock (VStr key) fetched in
        error shown = None /\ loading shown = false)
  /\ (String.eqb key EmptyString = false -> blank key = false ->
      forall e,
        (forall mock symbol,
           data (table_fetchData blank mock (VStr key) symbol (Rejected e)) = [])
        /\ (forall mock,
              data (cards_fetchData blank mock (VStr key) "gainers" (Rejected e)) = []
              /\ data (cards_fetchData blank mock (VStr key) "watchlist" (Rejected e))
                 = [])
        /\ (forall mock,
              data (chart_fetchData blank mock (VStr key) (Rejected e)) = [])).
Proof.
  split; [|split; [|split]].
  - intros mock symbol fetched. cbv zeta. unfold table_fetchData, getStockData.
    by destruct (catch_all_shown blank mock "Failed to fetch data" key
                   (data ← fetched; stock_body (string_or symbol "RELIANCE") data))
      as (H1 & H2 & _).
  - intros mock type fetched. cbv zeta. unfold cards_fetchData.
    destruct (String.eqb type "gainers").
    { by destruct (catch_all_shown blank mock "Failed to fetch data" key
                     (data ← fetched; trending_body data)) as (H1 & H2 & _). }
    destruct (String.eqb type "watchlist").
    { by destruct (catch_all_shown blank mock "Failed to fetch data" key
                     (data ← fetched; most_active_body data)) as (H1 & H2 & _). }
    by destruct (catch_all_shown blank mock "Failed to fetch data" key
                   (Resolved mock)) as (H1 & H2 & _).
  - intros mock fetched. cbv zeta. unfold chart_fetchData, getHistoricalData.
    by destruct (catch_all_shown blank mock "Failed to fetch chart data" key
                   (data ← fetched; historical_body data)) as (H1 & H2 & _).
  - intros Hk Hb e. unfold table_fetchData, cards_fetchData, chart_fetchData,
      fetchData, no_key. cbn [truthy]. rewrite Hk, Hb. by cbn.
Qed.

(** A key that is no string: the message and the mock data of the
    [catch]. *)
Example table_with_a_number_as_key :
  table_fetchData (N:=Examples.Integers) (fun _ => false) []
    (VNum (of_nat 7)) None (Resolved VNull)
  = mkShown [] false (Some "Failed to fetch data").
Proof. reflexivity. Qed.

End WidgetFacts.
